(** * ts-to-zod: the command-line orchestration layer

    A shallow embedding of [src/cli/generate-steps.ts], [src/cli/utils.ts]
    and [src/cli/TsToZod.ts]: the single-file generation pipeline
    (prepare, core generation, validation, writing), the multi-config run,
    nested file discovery and the batch scheduler of nested generation.

    Strings are [string], JavaScript [Map]s and [Set]s are insertion-ordered
    lists (their iteration order is observable in the log messages), the
    CLI object's logging methods and the file system are an explicit world
    that is threaded through every asynchronous function. *)

From Stdlib Require Import List String Ascii ZArith Bool Lia Arith.
From Stdlib Require Import Permutation.
From Stdlib Require Import DecimalString.
Import ListNotations.
Local Open Scope list_scope.
Local Open Scope string_scope.

Set Implicit Arguments.

(* ===================================================================== *)
(** ** JavaScript values and string primitives                            *)
(* ===================================================================== *)

Module Js.

(** The characters that cannot be written inside a literal. *)
Definition dq : string := String (ascii_of_nat 34) EmptyString.
Definition nl : string := String (ascii_of_nat 10) EmptyString.

(** [Boolean(s)] for [s : string | undefined]. *)
Definition truthy (o : option string) : bool :=
  match o with
  | Some s => negb (s =? "")
  | None => false
  end.

(** [a || b] on [string | undefined]. *)
Definition or (a b : option string) : option string :=
  if truthy a then a else b.

(** [a || false] on [boolean | undefined]. *)
Definition orFalse (a : option bool) : bool :=
  match a with
  | Some b => b
  | None => false
  end.

(** A template literal's rendering of [string | undefined]. *)
Definition show (o : option string) : string :=
  match o with
  | Some s => s
  | None => "undefined"
  end.

(** A template literal's rendering of an integer. *)
Definition showZ (z : Z) : string := NilZero.string_of_int (Z.to_int z).

Definition startsWith (s p : string) : bool := String.prefix p s.

Definition endsWith (s suf : string) : bool :=
  (String.length suf <=? String.length s)%nat
  && (substring (String.length s - String.length suf) (String.length suf) s
      =? suf).

(** [s.indexOf(pat)]. *)
Fixpoint indexOf (pat s : string) : option nat :=
  if String.prefix pat s then Some O
  else match s with
       | EmptyString => None
       | String _ s' => option_map S (indexOf pat s')
       end.

(** [s.replace(pat, rep)] with a string pattern: the first occurrence
    only.  No replacement string of the program contains a [$]. *)
Definition replace (s pat rep : string) : string :=
  match indexOf pat s with
  | Some i =>
      substring 0 i s ++ rep
      ++ substring (i + String.length pat)
                   (String.length s - (i + String.length pat)) s
  | None => s
  end.

(** [s.slice(1)]. *)
Definition slice1 (s : string) : string :=
  match s with
  | EmptyString => EmptyString
  | String _ r => r
  end.

(** [l.join(sep)]. *)
Definition join (sep : string) (l : list string) : string :=
  String.concat sep l.

(** [s.replace(/\.tsx?$/, ".zod.ts")]: the pattern is anchored at the
    end of the string, so it matches the suffix [.tsx] or [.ts] and
    nothing else. *)
Definition replaceTsExt (s : string) : string :=
  if endsWith s ".tsx" then
    substring 0 (String.length s - 4) s ++ ".zod.ts"
  else if endsWith s ".ts" then
    substring 0 (String.length s - 3) s ++ ".zod.ts"
  else s.

(** [o] when it is truthy. *)
Definition nonEmpty (o : option string) : option string :=
  if truthy o then o else None.

(** [a || b] where [b] is a string. *)
Definition orElse (a : option string) (b : string) : string :=
  match nonEmpty a with
  | Some s => s
  | None => b
  end.

(** [l.includes(x)] on strings. *)
Definition includes (l : list string) (x : string) : bool :=
  existsb (String.eqb x) l.

(** [s] occurs in [t]. *)
Definition occursIn (s t : string) : Prop :=
  exists pre post, t = pre ++ s ++ post.

End Js.

(* ===================================================================== *)
(** ** Insertion-ordered [Set<string>] and [Map<string, V>]               *)
(* ===================================================================== *)

Module StrSet.

Definition t := list string.

Definition empty : t := [].

Definition has (x : string) (s : t) : bool := existsb (String.eqb x) s.

(** [s.add(x)]: a new element goes last, a present one changes nothing. *)
Definition add (x : string) (s : t) : t :=
  if has x s then s else (s ++ [x])%list.

End StrSet.

Module StrMap.

Definition t (V : Type) := list (string * V).

Definition empty {V} : t V := [].

Fixpoint get {V} (k : string) (m : t V) : option V :=
  match m with
  | [] => None
  | (k', v) :: m' => if k =? k' then Some v else get k m'
  end.

Definition has {V} (k : string) (m : t V) : bool :=
  match get k m with
  | Some _ => true
  | None => false
  end.

(** [m.set(k, v)]: a present key keeps its position. *)
Fixpoint set {V} (k : string) (v : V) (m : t V) : t V :=
  match m with
  | [] => [(k, v)]
  | (k', v') :: m' =>
      if k =? k' then (k, v) :: m' else (k', v') :: set k v m'
  end.

Definition keys {V} (m : t V) : list string := map fst m.

Definition size {V} (m : t V) : nat := List.length m.

End StrMap.

(* ===================================================================== *)
(** ** Data model ([config], [generate.types.ts], [generate-steps.ts])    *)
(* ===================================================================== *)

(** [InputOutputMapping]: the three fields [getInputOutputMappings] and
    [buildGlobalIoMappings] copy out of a config. *)
Module InputOutputMapping.
Record t : Type := mk {
  input : string;
  output : string;
  getSchemaName : option (string -> string)
}.
End InputOutputMapping.

(** [Config], with the fields the command reads or spreads into
    [GenerateProps]. *)
Module Config.
Record t : Type := mk {
  name : option string;
  input : string;
  output : string;
  nameFilter : option (string -> bool);
  jsDocTagFilter : option (list string -> bool);
  getSchemaName : option (string -> string);
  keepComments : option bool;
  skipParseJSDoc : option bool;
  inferredTypes : option string;
  customJSDocFormatTypes : option (list (string * string))
}.
End Config.

(** [TsToZodConfig = Config | Config[]]. *)
Inductive TsToZodConfig : Type :=
| SingleConfig (c : Config.t)
| MultiConfig (cs : list Config.t).

(** The parsed command-line flags ([createFlags]).  [keepComments] has no
    default and [skipParseJSDoc] is tested with [typeof], so both may be
    absent. *)
Module Flags.
Record t : Type := mk {
  keepComments : option bool;
  init : bool;
  skipParseJSDoc : option bool;
  skipValidation : bool;
  inferredTypes : option string;
  watch : bool;
  config : option string;
  all : bool;
  generateNested : bool;
  maxDepth : Z
}.
End Flags.

(** The positional arguments ([argsStatic]). *)
Module Args.
Record t : Type := mk {
  input : option string;
  output : option string
}.
Definition none : t := mk None None.
End Args.

(** [GenerateProps]: [sourceText], [inputOutputMappings] and whatever the
    spread of the file config brings along. *)
Module GenerateProps.
Record t : Type := mk {
  sourceText : string;
  inputOutputMappings : list InputOutputMapping.t;
  name : option string;
  input : option string;
  output : option string;
  nameFilter : option (string -> bool);
  jsDocTagFilter : option (list string -> bool);
  getSchemaName : option (string -> string);
  keepComments : option bool;
  skipParseJSDoc : option bool;
  inferredTypes : option string;
  customJSDocFormatTypes : option (list (string * string))
}.
End GenerateProps.

Module CoreGenerationResult.
Record t : Type := mk {
  errors : list string;
  transformedSourceText : string;
  getZodSchemasFile : string -> string;
  getIntegrationTestFile : string -> string -> string;
  getInferredTypes : string -> string;
  hasCircularDependencies : bool
}.
End CoreGenerationResult.

(** [{ sourceText, relativePath }]. *)
Module SourceEntry.
Record t : Type := mk {
  sourceText : string;
  relativePath : string
}.
End SourceEntry.

(** The request sent to [worker.validateGeneratedTypesInWorker]. *)
Module WorkerRequest.
Record t : Type := mk {
  sourceTypes : SourceEntry.t;
  integrationTests : SourceEntry.t;
  zodSchemas : SourceEntry.t;
  skipParseJSDoc : bool;
  extraFiles : list SourceEntry.t
}.
End WorkerRequest.

(** [{ success: true, data } | { success: false, error }]. *)
Inductive Result (A : Type) : Type :=
| Success (data : A)
| Failure (error : string).
Arguments Success {A} data.
Arguments Failure {A} error.

Definition isSuccess {A} (r : Result A) : bool :=
  match r with
  | Success _ => true
  | Failure _ => false
  end.

(** The top-level statements of a parsed source file, as far as discovery
    looks at them. *)
Inductive Expression : Type :=
| StringLiteral (text : string)
| OtherExpression.

Inductive Node : Type :=
| ImportDeclaration (moduleSpecifier : Expression)
| OtherStatement.

(* ===================================================================== *)
(** ** The world: file system and the command's output channels           *)
(* ===================================================================== *)

(** What the storage holds at a path: a file that reads back, or
    something that exists and makes [readFile] reject. *)
Inductive Entry : Type :=
| File (text : string)
| Unreadable (message : string).

Definition FileSystem := string -> option Entry.

Inductive Event : Type :=
| Log (msg : string)                      (* this.log *)
| Warn (msg : string)                     (* this.warn *)
| Debug (msg : string)                    (* this.debug *)
| ErrorNoExit (msg : string)              (* this.error(msg, {exit: false}) *)
| FatalError (msg : string)               (* this.error(msg), which throws *)
| SpinnerStart (text : string)
| SpinnerIndent
| SpinnerWarn (msg : string)
| SpinnerFail
| SpinnerSucceed
| ReadFile (path : string)                (* readFile(path, "utf-8") *)
| WorkerValidation (request : WorkerRequest.t)
| OutputFile (path text : string)         (* outputFile(path, text) *)
| GenerateCalled (key : string)           (* this.generate(...) is called *)
| GenerateSettled (key : string) (success : bool).
                                          (* ... and its promise settles *)

Record World : Type := mkWorld {
  fs : FileSystem;
  trace : list Event
}.

(** An asynchronous function either returns or rejects. *)
Inductive Completion (A : Type) : Type :=
| Returned (a : A)
| Threw (message : string).
Arguments Returned {A} a.
Arguments Threw {A} message.

Definition Async (A : Type) : Type := World -> Completion A * World.

Definition ret {A} (a : A) : Async A := fun w => (Returned a, w).

Definition bind {A B} (m : Async A) (k : A -> Async B) : Async B :=
  fun w =>
    match m w with
    | (Returned a, w') => k a w'
    | (Threw e, w') => (Threw e, w')
    end.

Definition throw {A} (e : string) : Async A := fun w => (Threw e, w).

(** [try { m } catch (e) { h e }]. *)
Definition tryCatch {A} (m : Async A) (h : string -> Async A) : Async A :=
  fun w =>
    match m w with
    | (Returned a, w') => (Returned a, w')
    | (Threw e, w') => h e w'
    end.

Declare Scope async_scope.
Delimit Scope async_scope with async.
Notation "x <- m ;; k" := (bind m (fun x => k))
  (at level 61, m at next level, right associativity) : async_scope.
Notation "m ;;; k" := (bind m (fun _ => k))
  (at level 61, right associativity) : async_scope.
Local Open Scope async_scope.

Definition emit (e : Event) : Async unit :=
  fun w => (Returned tt, mkWorld (fs w) (trace w ++ [e])%list).

(** [this.error(msg)]: prints the message and throws. *)
Definition cliError {A} (msg : string) : Async A :=
  fun w => (Threw msg, mkWorld (fs w) (trace w ++ [FatalError msg])%list).

(** [for (const x of l) { await body(x) }]. *)
Fixpoint forEach {A} (l : list A) (body : A -> Async unit) : Async unit :=
  match l with
  | [] => ret tt
  | x :: l' => body x ;;; forEach l' body
  end.

Definition existsSync (path : string) (w : World) : bool :=
  match fs w path with
  | Some _ => true
  | None => false
  end.

(** [readFile(path, "utf-8")]: rejects on a missing or unreadable path. *)
Definition readFile (path : string) : Async string :=
  emit (ReadFile path) ;;;
  fun w =>
    match fs w path with
    | Some (File text) => (Returned text, w)
    | Some (Unreadable message) => (Threw message, w)
    | None => (Threw ("ENOENT: no such file or directory, open " ++ path), w)
    end.

(** [outputFile(path, text)] when the storage accepts the write: the
    text is stored under the path as it is given. *)
Definition outputFile (path text : string) : Async unit :=
  fun w =>
    (Returned tt,
     mkWorld (fun p => if p =? path then Some (File text) else fs w p)
             (trace w ++ [OutputFile path text])%list).

(* ===================================================================== *)
(** ** Collaborators outside the repository's sources                     *)
(* ===================================================================== *)

(** Node's [path] module, the [slash] package and [process.cwd()]. *)
Class NodePath : Type := {
  cwd : string;
  join : string -> string -> string;
  resolve : string -> string -> string;
  relative : string -> string -> string;
  dirname : string -> string;
  extname : string -> string;
  normalize : string -> string;
  parse_dir : string -> string;            (* parse(p).dir *)
  parse_ext : string -> string;            (* parse(p).ext *)
  slash : string -> string
}.

(** The repository's own modules that the command imports and whose
    sources are not part of this development, together with the external
    tools: [utils/getImportPath], [cli/constants], [core/generate],
    [worker], prettier and the TypeScript compiler. *)
Class Collaborators : Type := {
  getImportPath : string -> string -> string;
  areImportPathsEqualIgnoringExtension : string -> string -> bool;
  TYPESCRIPT_EXTENSIONS : list string;
  JAVASCRIPT_EXTENSIONS : list string;
  generateCoreFileContent : GenerateProps.t -> CoreGenerationResult.t;
  validateGeneratedTypesInWorker : WorkerRequest.t -> list string;
  prettierFormat : string -> string;
  transpileModule : string -> string;
  createSourceFile : string -> string -> list Node
}.

(* ===================================================================== *)
(** ** [src/cli/utils.ts]                                                 *)
(* ===================================================================== *)

Section Utils.
Context {P : NodePath}.

Definition hasExtensions (path : string) (extensions : list string) : bool :=
  Js.includes extensions (parse_ext path).

Definition ioMappingOfConfig (c : Config.t) : InputOutputMapping.t :=
  InputOutputMapping.mk (Config.input c) (Config.output c)
                        (Config.getSchemaName c).

Definition getInputOutputMappings (config : option TsToZodConfig)
  : list InputOutputMapping.t :=
  match config with
  | None => []
  | Some (MultiConfig cs) => map ioMappingOfConfig cs
  | Some (SingleConfig c) => [ioMappingOfConfig c]
  end.

(** [p.replace(process.cwd(), "").slice(1)]. *)
Definition relativeToCwd (p : string) : string :=
  Js.slice1 (Js.replace p cwd "").

End Utils.

(* ===================================================================== *)
(** ** [src/cli/generate-steps.ts]                                        *)
(* ===================================================================== *)

Module PrepareData.
Record t : Type := mk {
  inputPath : string;
  outputPath : string;
  generateOptions : GenerateProps.t
}.
End PrepareData.

Section GenerateSteps.
Context {P : NodePath} {C : Collaborators}.

Definition quoted (s : string) : string := Js.dq ++ s ++ Js.dq.

(** One line of the extension error: ["path" must be ".ts", ".tsx"]. *)
Definition extErrorLine (e : string * list string) : string :=
  quoted (fst e) ++ " must be " ++ Js.join ", " (map quoted (snd e)).

(** [{ sourceText, inputOutputMappings, ...fileConfig }]. *)
Definition spreadConfig (sourceText : string)
           (ioMappings : list InputOutputMapping.t)
           (fileConfig : option Config.t) : GenerateProps.t :=
  match fileConfig with
  | Some c =>
      GenerateProps.mk sourceText ioMappings
        (Config.name c) (Some (Config.input c)) (Some (Config.output c))
        (Config.nameFilter c) (Config.jsDocTagFilter c)
        (Config.getSchemaName c) (Config.keepComments c)
        (Config.skipParseJSDoc c) (Config.inferredTypes c)
        (Config.customJSDocFormatTypes c)
  | None =>
      GenerateProps.mk sourceText ioMappings
        None None None None None None None None None None
  end.

(** The three [typeof cliFlags.x === ...] overrides. *)
Definition applyFlags (cliFlags : Flags.t) (g : GenerateProps.t)
  : GenerateProps.t :=
  let over {A} (flag current : option A) : option A :=
    match flag with
    | Some v => Some v
    | None => current
    end in
  GenerateProps.mk
    (GenerateProps.sourceText g) (GenerateProps.inputOutputMappings g)
    (GenerateProps.name g) (GenerateProps.input g) (GenerateProps.output g)
    (GenerateProps.nameFilter g) (GenerateProps.jsDocTagFilter g)
    (GenerateProps.getSchemaName g)
    (over (Flags.keepComments cliFlags) (GenerateProps.keepComments g))
    (over (Flags.skipParseJSDoc cliFlags) (GenerateProps.skipParseJSDoc g))
    (over (Flags.inferredTypes cliFlags) (GenerateProps.inferredTypes g))
    (GenerateProps.customJSDocFormatTypes g).

(** [globalIoMappings.map((io) => ...)] of [prepareGeneratorConfig]. *)
Definition relativeIoMappings (inputPath outputPath : string)
           (globalIoMappings : list InputOutputMapping.t)
  : list InputOutputMapping.t :=
  map (fun io =>
         InputOutputMapping.mk
           (getImportPath inputPath (InputOutputMapping.input io))
           (getImportPath outputPath (InputOutputMapping.output io))
           (InputOutputMapping.getSchemaName io))
      globalIoMappings.

Definition prepareGeneratorConfig (args : Args.t)
           (fileConfig : option Config.t) (cliFlags : Flags.t)
           (globalIoMappings : list InputOutputMapping.t)
  : Async (Result PrepareData.t) :=
  let input := Js.or (Args.input args) (option_map Config.input fileConfig) in
  let output :=
    Js.or (Args.output args) (option_map Config.output fileConfig) in
  match Js.nonEmpty input with
  | None =>
      ret (Failure ("Missing 1 required arg:" ++ Js.nl
                    ++ "input file (typescript)" ++ Js.nl
                    ++ "See more help with --help"))
  | Some input =>
      let inputPath := join cwd input in
      let outputPath := join cwd (Js.orElse output input) in
      let extErrors :=
        ((if negb (hasExtensions input TYPESCRIPT_EXTENSIONS)
          then [(input, TYPESCRIPT_EXTENSIONS)] else [])
         ++
         (match Js.nonEmpty output with
          | Some output =>
              if negb (hasExtensions output
                         (TYPESCRIPT_EXTENSIONS ++ JAVASCRIPT_EXTENSIONS))
              then [(output, TYPESCRIPT_EXTENSIONS ++ JAVASCRIPT_EXTENSIONS)]
              else []
          | None => []
          end))%list in
      match extErrors with
      | _ :: _ =>
          ret (Failure ("Unexpected file extension:" ++ Js.nl
                        ++ Js.join Js.nl (map extErrorLine extErrors)))
      | [] =>
          sourceText <- readFile inputPath ;;
          let relativeIoMappings :=
            relativeIoMappings inputPath outputPath globalIoMappings in
          let generateOptions :=
            applyFlags cliFlags
              (spreadConfig sourceText relativeIoMappings fileConfig) in
          ret (Success (PrepareData.mk inputPath outputPath generateOptions))
      end
  end.

Definition circularDependenciesError : string :=
  "--output= must also be provided when input files have some circular dependencies".

Definition executeCoreGeneration (generateOptions : GenerateProps.t)
           (outputProvided : bool) : Result CoreGenerationResult.t :=
  let coreResult := generateCoreFileContent generateOptions in
  if CoreGenerationResult.hasCircularDependencies coreResult
     && negb outputProvided
  then Failure circularDependenciesError
  else Success coreResult.

(** The body of the loop over [globalIoMappings] that collects
    [extraFiles]. *)
Fixpoint loadExtraFiles (inputPath : string)
         (ios : list InputOutputMapping.t) (extraFiles : list SourceEntry.t)
  : Async (list SourceEntry.t) :=
  match ios with
  | [] => ret extraFiles
  | io :: rest =>
      let i := InputOutputMapping.input io in
      let o := InputOutputMapping.output io in
      if negb (getImportPath inputPath i =? "/") then
        extra1 <-
          tryCatch
            (inputFile <- readFile (join cwd i) ;;
             ret (extraFiles ++ [SourceEntry.mk inputFile i])%list)
            (fun _ =>
               emit (SpinnerWarn ("File " ++ quoted i ++ " not found")) ;;;
               ret extraFiles) ;;
        extra2 <-
          tryCatch
            (outputFileContent <- readFile (join cwd o) ;;
             ret (extra1 ++ [SourceEntry.mk outputFileContent o])%list)
            (fun _ =>
               emit (SpinnerWarn
                       ("File " ++ quoted o
                        ++ " not found: maybe it hasn't been generated yet?")) ;;;
               ret extra1) ;;
        loadExtraFiles inputPath rest extra2
      else loadExtraFiles inputPath rest extraFiles
  end.

(** The path under which the generated schemas are shown to the type
    checker. *)
Definition outputForValidation (inputPath outputPath : string) : string :=
  let input := relativeToCwd inputPath in
  let output := relativeToCwd outputPath in
  if (outputPath =? inputPath)
     || areImportPathsEqualIgnoringExtension input output
  then
    let outputFileName := "source.zod.ts" in
    let dir := parse_dir (normalize inputPath) in
    join dir outputFileName
  else outputPath.

Definition workerRequest (inputPath outputPath : string)
           (coreGenResultData : CoreGenerationResult.t)
           (generateOptions : GenerateProps.t)
           (extraFiles : list SourceEntry.t) : WorkerRequest.t :=
  let outputForValidation := outputForValidation inputPath outputPath in
  let input := relativeToCwd inputPath in
  WorkerRequest.mk
    (SourceEntry.mk
       (CoreGenerationResult.transformedSourceText coreGenResultData)
       input)
    (SourceEntry.mk
       (CoreGenerationResult.getIntegrationTestFile coreGenResultData
          (getImportPath "./source.integration.ts" input)
          (getImportPath "./source.integration.ts" outputForValidation))
       "./source.integration.ts")
    (SourceEntry.mk
       (CoreGenerationResult.getZodSchemasFile coreGenResultData
          (getImportPath outputForValidation input))
       (relativeToCwd outputForValidation))
    (Js.orFalse (GenerateProps.skipParseJSDoc generateOptions))
    extraFiles.

Definition validateGeneratedContent (cliFlags : Flags.t)
           (inputPath outputPath : string)
           (coreGenResultData : CoreGenerationResult.t)
           (generateOptions : GenerateProps.t)
           (globalIoMappings : list InputOutputMapping.t)
  : Async (Result unit) :=
  emit (SpinnerStart "Validating generated types") ;;;
  (if Flags.all cliFlags then emit SpinnerIndent else ret tt) ;;;
  extraFiles <- loadExtraFiles inputPath globalIoMappings [] ;;
  let request :=
    workerRequest inputPath outputPath coreGenResultData generateOptions
                  extraFiles in
  emit (WorkerValidation request) ;;;
  let validationErrors := validateGeneratedTypesInWorker request in
  match validationErrors with
  | _ :: _ =>
      emit SpinnerFail ;;;
      ret (Failure (Js.join Js.nl validationErrors))
  | [] =>
      emit SpinnerSucceed ;;;
      ret (Success tt)
  end.

Definition writeOutputFiles (outputPath inputPath : string)
           (coreGenResultData : CoreGenerationResult.t)
           (generateOptions : GenerateProps.t) : Async unit :=
  let zodSchemasFile :=
    CoreGenerationResult.getZodSchemasFile coreGenResultData
      (getImportPath outputPath inputPath) in
  (match Js.nonEmpty (GenerateProps.inferredTypes generateOptions) with
   | Some inferredTypes =>
       let zodInferredTypesFile :=
         CoreGenerationResult.getInferredTypes coreGenResultData
           (getImportPath inferredTypes outputPath) in
       outputFile inferredTypes
         (prettierFormat
            (if hasExtensions inferredTypes JAVASCRIPT_EXTENSIONS
             then transpileModule zodInferredTypesFile
             else zodInferredTypesFile))
   | None => ret tt
   end) ;;;
  let output := relativeToCwd outputPath in
  if hasExtensions output JAVASCRIPT_EXTENSIONS then
    outputFile outputPath (prettierFormat (transpileModule zodSchemasFile))
  else
    outputFile outputPath (prettierFormat zodSchemasFile).

(* ------------------------------------------------------------------- *)
(** *** [TsToZod.generate]                                              *)
(* ------------------------------------------------------------------- *)

Definition outputProvided (args : Args.t) (fileConfig : option Config.t)
  : bool :=
  Js.truthy (Js.or (Args.output args) (option_map Config.output fileConfig)).

Definition generate (args : Args.t) (fileConfig : option Config.t)
           (cliFlags : Flags.t)
           (inputOutputMappings : list InputOutputMapping.t)
  : Async (Result unit) :=
  prepareResult <-
    prepareGeneratorConfig args fileConfig cliFlags inputOutputMappings ;;
  match prepareResult with
  | Failure error => ret (Failure error)
  | Success data =>
      let inputPath := PrepareData.inputPath data in
      let outputPath := PrepareData.outputPath data in
      let generateOptions := PrepareData.generateOptions data in
      let outputProvided := outputProvided args fileConfig in
      match executeCoreGeneration generateOptions outputProvided with
      | Failure error => ret (Failure error)
      | Success coreGenerationData =>
          forEach (CoreGenerationResult.errors coreGenerationData)
                  (fun e => emit (Warn e)) ;;;
          validationResult <-
            (if negb (Flags.skipValidation cliFlags) then
               validateGeneratedContent cliFlags inputPath outputPath
                 coreGenerationData generateOptions inputOutputMappings
             else ret (Success tt)) ;;
          match validationResult with
          | Failure error => ret (Failure error)
          | Success _ =>
              writeOutputFiles outputPath inputPath coreGenerationData
                               generateOptions ;;;
              ret (Success tt)
          end
      end
  end.

End GenerateSteps.

(* ===================================================================== *)
(** ** [Promise.all(items.map(async (item) => ...))]                      *)
(* ===================================================================== *)

(** Every callback runs up to its first [await] while [map] builds the
    array of promises ([start]); the awaited operations then settle one
    after the other, in an order that the environment chooses ([pick],
    which sees the world and the callbacks still pending), and each
    callback runs to its end when its operation settles ([finish]).  The
    callbacks share the state [St] (a [Set] they add to).  The first
    callback that throws rejects the [Promise.all].  What a callback
    does from its [await] on is taken as one step, and the callbacks
    that are still pending at a rejection are not followed further. *)
Section PromiseAll.
Variables (A St : Type).
Variable pick : World -> list A -> nat.
Variable start : A -> Async unit.
Variable finish : A -> St -> Async St.

(** Take the [n]-th element out of [x :: rest] (the last one when [n]
    is too large). *)
Fixpoint takeNth (n : nat) (x : A) (rest : list A) : A * list A :=
  match n, rest with
  | O, _ => (x, rest)
  | S _, [] => (x, [])
  | S n', y :: rest' =>
      let (a, r) := takeNth n' y rest' in (a, x :: r)
  end.

Fixpoint settleAll (pending : list A) (n : nat) (s : St) : Async St :=
  match n, pending with
  | S n', x :: rest =>
      fun w =>
        let (a, pending') := takeNth (pick w pending) x rest in
        (s' <- finish a s ;; settleAll pending' n' s') w
  | _, _ => ret s
  end.

Definition promiseAllMap (items : list A) (s : St) : Async St :=
  forEach items start ;;;
  settleAll items (List.length items) s.

End PromiseAll.

(* ===================================================================== *)
(** ** [src/cli/TsToZod.ts]                                               *)
(* ===================================================================== *)

(** One entry of [discoveredFileInfos]. *)
Module FileInfo.
Record t : Type := mk {
  relativePath : string;
  localImportAbsPaths : StrSet.t
}.
End FileInfo.

Definition DiscoveredFileInfos := StrMap.t FileInfo.t.

(** [DiscoveredConfigForNestedGeneration]. *)
Module DiscoveredConfig.
Record t : Type := mk {
  id : string;
  config : Config.t;
  dependencies : StrSet.t
}.
End DiscoveredConfig.

(** lodash's [uniq]: the first occurrence of each element, in order. *)
Fixpoint uniqFrom (seen l : list string) : list string :=
  match l with
  | [] => []
  | x :: l' =>
      if StrSet.has x seen then uniqFrom seen l'
      else x :: uniqFrom (x :: seen) l'
  end.

Definition uniq (l : list string) : list string := uniqFrom [] l.

Section TsToZod.
Context {P : NodePath} {C : Collaborators}.

(* ------------------------------------------------------------------- *)
(** *** [performFileDiscovery]                                          *)
(* ------------------------------------------------------------------- *)

(** The path an import specifier of [absoluteFilePath] stands for. *)
Definition resolveImport (absoluteFilePath importPath : string) (w : World)
  : string :=
  let resolvedImportAbsolutePath :=
    resolve (dirname absoluteFilePath) importPath in
  if extname resolvedImportAbsolutePath =? "" then
    if existsSync (resolvedImportAbsolutePath ++ ".ts") w then
      resolvedImportAbsolutePath ++ ".ts"
    else if existsSync (resolvedImportAbsolutePath ++ ".tsx") w then
      resolvedImportAbsolutePath ++ ".tsx"
    else resolvedImportAbsolutePath
  else resolvedImportAbsolutePath.

(** "the resolved import is a TS/TSX file and exists". *)
Definition isExistingTsFile (resolved : string) (w : World) : bool :=
  existsSync resolved w
  && (Js.endsWith resolved ".ts" || Js.endsWith resolved ".tsx").

Definition isRelativeSpecifier (importPath : string) : bool :=
  Js.startsWith importPath "./" || Js.startsWith importPath "../".

(** [discoveredFileInfos.get(abs)!.localImportAbsPaths.add(resolved)]. *)
Definition addLocalImport (absoluteFilePath resolved : string)
           (infos : DiscoveredFileInfos) : Async DiscoveredFileInfos :=
  match StrMap.get absoluteFilePath infos with
  | Some info =>
      ret (StrMap.set absoluteFilePath
             (FileInfo.mk (FileInfo.relativePath info)
                (StrSet.add resolved (FileInfo.localImportAbsPaths info)))
             infos)
  | None => throw "TypeError: Cannot read properties of undefined"
  end.

(** The callback of [ts.forEachChild(sourceFile, ...)]; the state is the
    map and [localImportsToExploreRecursively]. *)
Definition visitNode (absoluteFilePath relativeFilePath : string)
           (node : Node) (st : DiscoveredFileInfos * list string)
  : Async (DiscoveredFileInfos * list string) :=
  let (infos, toExplore) := st in
  match node with
  | ImportDeclaration (StringLiteral importPath) =>
      if isRelativeSpecifier importPath then
        fun w =>
          let resolved := resolveImport absoluteFilePath importPath w in
          if isExistingTsFile resolved w then
            (infos' <- addLocalImport absoluteFilePath resolved infos ;;
             if negb (StrMap.has resolved infos') then
               ret (infos', (toExplore ++ [resolved])%list)
             else ret (infos', toExplore)) w
          else
            (emit (Debug ("Local import " ++ quoted importPath ++ " from "
                          ++ quoted relativeFilePath
                          ++ " not found or not a TS/TSX file at "
                          ++ quoted resolved
                          ++ ". Skipping for discovery.")) ;;;
             ret st) w
      else ret st
  | _ => ret st
  end.

Fixpoint forEachChild (nodes : list Node)
         (visit : Node -> DiscoveredFileInfos * list string
                  -> Async (DiscoveredFileInfos * list string))
         (st : DiscoveredFileInfos * list string)
  : Async (DiscoveredFileInfos * list string) :=
  match nodes with
  | [] => ret st
  | node :: rest => st' <- visit node st ;; forEachChild rest visit st'
  end.

(** The final [for ... of] loop over the imports to explore; [None] is
    a recursion that ran out of fuel. *)
Fixpoint exploreAll
         (explore : string -> DiscoveredFileInfos
                    -> Async (option DiscoveredFileInfos))
         (imports : list string) (infos : DiscoveredFileInfos)
  : Async (option DiscoveredFileInfos) :=
  match imports with
  | [] => ret (Some infos)
  | importPath :: rest =>
      r <- explore importPath infos ;;
      match r with
      | Some infos' => exploreAll explore rest infos'
      | None => ret None
      end
  end.

Definition maxDepthWarning (maxDepth : Z) (absoluteFilePath : string)
  : string :=
  "Maximum depth of " ++ Js.showZ maxDepth ++ " reached for "
  ++ slash (relative cwd absoluteFilePath)
  ++ ". Stopping further discovery on this path.".

Fixpoint performFileDiscoveryFuel (fuel : nat) (absoluteFilePath : string)
         (discoveredFileInfos : DiscoveredFileInfos)
         (maxDepth currentDepth : Z)
  : Async (option DiscoveredFileInfos) :=
  match fuel with
  | O => ret None
  | S fuel' =>
      if (currentDepth >? maxDepth)%Z then
        emit (Warn (maxDepthWarning maxDepth absoluteFilePath)) ;;;
        ret (Some discoveredFileInfos)
      else if StrMap.has absoluteFilePath discoveredFileInfos then
        emit (Debug ("Skipping already processed file for discovery: "
                     ++ absoluteFilePath)) ;;;
        ret (Some discoveredFileInfos)
      else
        let relativeFilePath := slash (relative cwd absoluteFilePath) in
        emit (Log ("Discovering imports in: " ++ relativeFilePath
                   ++ " (depth: " ++ Js.showZ currentDepth ++ ")")) ;;;
        read <-
          tryCatch
            (sourceText <- readFile absoluteFilePath ;; ret (Some sourceText))
            (fun message =>
               emit (Warn ("Could not read file " ++ relativeFilePath
                           ++ " during discovery. Skipping. Error: "
                           ++ message)) ;;;
               ret None) ;;
        match read with
        | None => ret (Some discoveredFileInfos)
        | Some sourceText =>
            let recorded :=
              StrMap.set absoluteFilePath
                (FileInfo.mk relativeFilePath StrSet.empty)
                discoveredFileInfos in
            let sourceFile := createSourceFile absoluteFilePath sourceText in
            scanned <-
              forEachChild sourceFile
                (visitNode absoluteFilePath relativeFilePath)
                (recorded, []) ;;
            let (infos, localImportsToExploreRecursively) := scanned in
            exploreAll
              (fun importPath infos' =>
                 performFileDiscoveryFuel fuel' importPath infos'
                   maxDepth (currentDepth + 1))
              (uniq localImportsToExploreRecursively) infos
        end
  end.

(** The recursion descends at most [maxDepth - currentDepth + 2] calls. *)
Definition discoveryFuel (maxDepth currentDepth : Z) : nat :=
  S (Z.to_nat (maxDepth - currentDepth + 1)).

Definition performFileDiscovery (absoluteFilePath : string)
           (discoveredFileInfos : DiscoveredFileInfos)
           (maxDepth currentDepth : Z)
  : Async (option DiscoveredFileInfos) :=
  performFileDiscoveryFuel (discoveryFuel maxDepth currentDepth)
    absoluteFilePath discoveredFileInfos maxDepth currentDepth.

End TsToZod.

Module LoopState.
(** The three variables of the generation loop. *)
Record t : Type := mk {
  generatedConfigIds : StrSet.t;
  generationQueue : list DiscoveredConfig.t;
  totalGeneratedCount : nat
}.
End LoopState.

(** How one turn of the [while] loop ends when it does not throw. *)
Inductive LoopOutcome : Type :=
| Continue (st : LoopState.t)
| Finished (totalGeneratedCount : nat).

Section Orchestration.
Context {P : NodePath} {C : Collaborators}.

(** The environment's choice of which pending generation settles next. *)
Variable pickItem : World -> list DiscoveredConfig.t -> nat.
Variable pickConfig : World -> list Config.t -> nat.

(** [this.generate(...)], with the settlement of its promise recorded. *)
Definition generateSettling (key : string) (args : Args.t)
           (fileConfig : option Config.t) (cliFlags : Flags.t)
           (inputOutputMappings : list InputOutputMapping.t)
  : Async (Result unit) :=
  result <-
    tryCatch (generate args fileConfig cliFlags inputOutputMappings)
             (fun e => emit (GenerateSettled key false) ;;; throw e) ;;
  emit (GenerateSettled key (isSuccess result)) ;;;
  ret result.

(* ------------------------------------------------------------------- *)
(** *** [runNestedGeneration]                                           *)
(* ------------------------------------------------------------------- *)

Definition buildGlobalIoMappings (configs : list Config.t)
  : list InputOutputMapping.t :=
  map (fun config =>
         InputOutputMapping.mk (Config.input config) (Config.output config)
                               (Config.getSchemaName config))
      configs.

(** The inner loop of step 2: the imports that are part of the
    generation set. *)
Definition nestedDependencies (discoveredFileInfos : DiscoveredFileInfos)
           (info : FileInfo.t) : StrSet.t :=
  fold_left
    (fun deps importedAbsPath =>
       if StrMap.has importedAbsPath discoveredFileInfos
       then StrSet.add importedAbsPath deps
       else deps)
    (FileInfo.localImportAbsPaths info) StrSet.empty.

Definition nestedConfig (cliFlags : Flags.t) (info : FileInfo.t) : Config.t :=
  Config.mk None
    (FileInfo.relativePath info)
    (Js.replaceTsExt (FileInfo.relativePath info))
    None None None
    (Some (Js.orFalse (Flags.keepComments cliFlags)))
    (Some (Js.orFalse (Flags.skipParseJSDoc cliFlags)))
    None None.

Definition configsForGeneration (cliFlags : Flags.t)
           (discoveredFileInfos : DiscoveredFileInfos)
  : StrMap.t DiscoveredConfig.t :=
  fold_left
    (fun configs (entry : string * FileInfo.t) =>
       let (absPath, info) := entry in
       StrMap.set absPath
         (DiscoveredConfig.mk absPath (nestedConfig cliFlags info)
            (nestedDependencies discoveredFileInfos info))
         configs)
    discoveredFileInfos StrMap.empty.

(** [Array.from(configsForGeneration.values())]. *)
Definition allConfigsToGenerate (cliFlags : Flags.t)
           (discoveredFileInfos : DiscoveredFileInfos)
  : list DiscoveredConfig.t :=
  map snd (configsForGeneration cliFlags discoveredFileInfos).

Definition itemInput (item : DiscoveredConfig.t) : string :=
  Config.input (DiscoveredConfig.config item).

Definition itemOutput (item : DiscoveredConfig.t) : string :=
  Config.output (DiscoveredConfig.config item).

(** The filter predicate of [batchToGenerate]. *)
Definition isReady (generatedConfigIds : StrSet.t)
           (item : DiscoveredConfig.t) : bool :=
  forallb (fun depId => StrSet.has depId generatedConfigIds)
          (DiscoveredConfig.dependencies item).

Definition batchToGenerate (st : LoopState.t) : list DiscoveredConfig.t :=
  filter (isReady (LoopState.generatedConfigIds st))
         (LoopState.generationQueue st).

Definition orderError (generationQueue : list DiscoveredConfig.t) : string :=
  let remainingFiles := Js.join ", " (map itemInput generationQueue) in
  "Could not determine generation order. Possible circular dependency or missing files among: "
  ++ remainingFiles ++ ". Please check your imports.".

(** The callback of [batchToGenerate.map], up to its [await]. *)
Definition startItem (itemToGenerate : DiscoveredConfig.t) : Async unit :=
  emit (Log ("Generating for " ++ quoted (itemInput itemToGenerate)
             ++ " (output: " ++ itemOutput itemToGenerate ++ ")")) ;;;
  emit (GenerateCalled (DiscoveredConfig.id itemToGenerate)).

(** The callback from its [await] on. *)
Definition finishItem (cliFlags : Flags.t)
           (globalIoMappings : list InputOutputMapping.t)
           (itemToGenerate : DiscoveredConfig.t)
           (generatedConfigIds : StrSet.t) : Async StrSet.t :=
  result <-
    generateSettling (DiscoveredConfig.id itemToGenerate) Args.none
      (Some (DiscoveredConfig.config itemToGenerate))
      cliFlags globalIoMappings ;;
  match result with
  | Success _ =>
      emit (Log ("🎉 Zod schemas generated for "
                 ++ itemOutput itemToGenerate ++ "!")) ;;;
      ret (StrSet.add (DiscoveredConfig.id itemToGenerate)
                      generatedConfigIds)
  | Failure error =>
      throw ("Error generating for " ++ itemInput itemToGenerate ++ ": "
             ++ error)
  end.

(** One turn of [while (generationQueue.length > 0)], the test
    included. *)
Definition loopIteration (cliFlags : Flags.t)
           (globalIoMappings : list InputOutputMapping.t)
           (st : LoopState.t) : Async LoopOutcome :=
  let generationQueue := LoopState.generationQueue st in
  match generationQueue with
  | [] => ret (Finished (LoopState.totalGeneratedCount st))
  | _ :: _ =>
      let batchToGenerate := batchToGenerate st in
      match batchToGenerate with
      | [] => cliError (orderError generationQueue)
      | _ :: _ =>
          emit (Log ("Generation batch: "
                     ++ Js.join ", " (map itemInput batchToGenerate))) ;;;
          generatedConfigIds <-
            tryCatch
              (promiseAllMap pickItem startItem
                 (finishItem cliFlags globalIoMappings)
                 batchToGenerate (LoopState.generatedConfigIds st))
              (fun errorMessage =>
                 cliError ("Error during batch generation: "
                           ++ errorMessage)) ;;
          let generationQueue' :=
            filter
              (fun item =>
                 negb (existsb
                         (fun b => DiscoveredConfig.id b
                                   =? DiscoveredConfig.id item)
                         batchToGenerate))
              generationQueue in
          (match generationQueue' with
           | _ :: _ => emit (Log "")
           | [] => ret tt
           end) ;;;
          ret (Continue
                 (LoopState.mk generatedConfigIds generationQueue'
                    (LoopState.totalGeneratedCount st
                     + List.length batchToGenerate)))
      end
  end.

(** The [while] loop; [None] is a loop that ran out of fuel. *)
Fixpoint generationLoop (fuel : nat) (cliFlags : Flags.t)
         (globalIoMappings : list InputOutputMapping.t)
         (st : LoopState.t) : Async (option nat) :=
  match fuel with
  | O => ret None
  | S fuel' =>
      outcome <- loopIteration cliFlags globalIoMappings st ;;
      match outcome with
      | Finished total => ret (Some total)
      | Continue st' => generationLoop fuel' cliFlags globalIoMappings st'
      end
  end.

Definition showNat (n : nat) : string := Js.showZ (Z.of_nat n).

Definition initialLoopState (allConfigsToGenerate : list DiscoveredConfig.t)
  : LoopState.t :=
  LoopState.mk StrSet.empty allConfigsToGenerate 0.

Definition runNestedGeneration (initialInputFile : string)
           (cliFlags : Flags.t) : Async (option unit) :=
  emit (Log "🚧 --generateNested is EXPERIMENTAL and may not work as expected. Use with caution!") ;;;
  emit (Log ("Starting nested generation with input file: "
             ++ initialInputFile)) ;;;
  let initialAbsoluteInputFile := resolve cwd initialInputFile in
  discovered <-
    performFileDiscovery initialAbsoluteInputFile StrMap.empty
      (Flags.maxDepth cliFlags) 0 ;;
  match discovered with
  | None => ret None
  | Some discoveredFileInfos =>
      if (StrMap.size discoveredFileInfos =? 0)%nat then
        emit (Log "No processable files found (including initial input). Nothing to generate.") ;;;
        ret (Some tt)
      else
        let allConfigsToGenerate :=
          allConfigsToGenerate cliFlags discoveredFileInfos in
        if (List.length allConfigsToGenerate =? 0)%nat then
          emit (Log "No files to generate after processing discovered imports. Nothing to generate.") ;;;
          ret (Some tt)
        else
          let globalIoMappings :=
            buildGlobalIoMappings
              (map DiscoveredConfig.config allConfigsToGenerate) in
          emit (Log ("Discovered "
                     ++ showNat (List.length allConfigsToGenerate)
                     ++ " files for generation. Determining order and generating...")) ;;;
          total <-
            generationLoop (S (List.length allConfigsToGenerate)) cliFlags
              globalIoMappings (initialLoopState allConfigsToGenerate) ;;
          match total with
          | None => ret None
          | Some totalGeneratedCount =>
              emit (Log (Js.nl ++ "Successfully generated schemas for "
                         ++ showNat totalGeneratedCount ++ " files.")) ;;;
              ret (Some tt)
          end
  end.

(* ------------------------------------------------------------------- *)
(** *** [run]                                                           *)
(* ------------------------------------------------------------------- *)

Definition configKey (config : Config.t) : string :=
  Js.show (Config.name config).

(** The callback of [fileConfig.map] in the [--all] branch, up to its
    [await] and from it on. *)
Definition startConfig (config : Config.t) : Async unit :=
  emit (Log ("Generating " ++ quoted (configKey config))) ;;;
  emit (GenerateCalled (configKey config)).

Definition finishConfig (args : Args.t) (flags : Flags.t)
           (ioMappings : list InputOutputMapping.t)
           (config : Config.t) (_ : unit) : Async unit :=
  result <-
    generateSettling (configKey config) args (Some config) flags
                     ioMappings ;;
  (match result with
   | Success _ => emit (Log " 🎉 Zod schemas generated!")
   | Failure error => emit (ErrorNoExit error)
   end) ;;;
  emit (Log "").

(** The branch [Array.isArray(fileConfig)]. *)
Definition runAll (args : Args.t) (fileConfig : list Config.t)
           (flags : Flags.t) (ioMappings : list InputOutputMapping.t)
  : Async unit :=
  if Js.truthy (Args.input args) || Js.truthy (Args.output args) then
    cliError "INPUT and OUTPUT arguments are not compatible with --all"
  else
    tryCatch
      (promiseAllMap pickConfig startConfig
         (finishConfig args flags ioMappings) fileConfig tt)
      (fun error => cliError error).

(** The branch of a single (or no) file config. *)
Definition runSingle (args : Args.t) (fileConfig : option Config.t)
           (flags : Flags.t) (ioMappings : list InputOutputMapping.t)
  : Async unit :=
  result <- generate args fileConfig flags ioMappings ;;
  match result with
  | Success _ => emit (Log "🎉 Zod schemas generated!")
  | Failure error => cliError error
  end.

(** [run] without [--init] and [--watch]; [config] is the module-level
    configuration that was loaded at start-up and [fileConfig] the value
    [loadFileConfig(config, flags)] resolved to. *)
Definition run (args : Args.t) (flags : Flags.t)
           (config fileConfig : option TsToZodConfig) : Async (option unit) :=
  if Flags.generateNested flags then
    match Js.nonEmpty (Args.input args) with
    | None =>
        cliError "--generateNested requires an input file argument. Please provide a single input file."
    | Some input =>
        if Js.truthy (Flags.config flags) || Flags.all flags then
          cliError "--generateNested is not compatible with --config or --all flags. Please run it with a single input file argument only."
        else runNestedGeneration input flags
    end
  else
    let ioMappings := getInputOutputMappings config in
    match fileConfig with
    | Some (MultiConfig cs) =>
        runAll args cs flags ioMappings ;;; ret (Some tt)
    | Some (SingleConfig c) =>
        runSingle args (Some c) flags ioMappings ;;; ret (Some tt)
    | None =>
        runSingle args None flags ioMappings ;;; ret (Some tt)
    end.

End Orchestration.

(** *** [loadFileConfig]                                                *)

(** The function schemas of [config.zod], whose [implement] wraps a
    function of the config with the checks of its arguments and of its
    result. *)
Class ConfigSchemas : Type := {
  implementGetSchemaName : (string -> string) -> (string -> string);
  implementNameFilter : (string -> bool) -> (string -> bool)
}.

Module FlagsUpdate.

(** [flags.config = config]. *)
Definition setConfig (flags : Flags.t) (config : string) : Flags.t :=
  Flags.mk (Flags.keepComments flags) (Flags.init flags)
           (Flags.skipParseJSDoc flags) (Flags.skipValidation flags)
           (Flags.inferredTypes flags) (Flags.watch flags)
           (Some config) (Flags.all flags)
           (Flags.generateNested flags) (Flags.maxDepth flags).

(** [flags.all = true]. *)
Definition setAll (flags : Flags.t) : Flags.t :=
  Flags.mk (Flags.keepComments flags) (Flags.init flags)
           (Flags.skipParseJSDoc flags) (Flags.skipValidation flags)
           (Flags.inferredTypes flags) (Flags.watch flags)
           (Flags.config flags) true
           (Flags.generateNested flags) (Flags.maxDepth flags).

End FlagsUpdate.

Section LoadFileConfig.
Context {K : ConfigSchemas}.

(** [s.slice(n)] for [n] within the string. *)
Definition sliceFrom (n : nat) (s : string) : string :=
  substring n (String.length s - n) s.

(** [c.name === flags.config]. *)
Definition nameIs (config : option string) (c : Config.t) : bool :=
  match Config.name c, config with
  | Some name, Some wanted => name =? wanted
  | None, None => true
  | _, _ => false
  end.

(** [{ ...config, getSchemaName: ..., nameFilter: ... }]. *)
Definition implemented (config : Config.t) : Config.t :=
  Config.mk (Config.name config) (Config.input config)
            (Config.output config)
            (option_map implementNameFilter (Config.nameFilter config))
            (Config.jsDocTagFilter config)
            (option_map implementGetSchemaName
                        (Config.getSchemaName config))
            (Config.keepComments config) (Config.skipParseJSDoc config)
            (Config.inferredTypes config)
            (Config.customJSDocFormatTypes config).

(** The flags after the prompt was answered with [mode]. *)
Definition answered (mode : string) (flags : Flags.t) : Flags.t :=
  if Js.startsWith mode "single-" then
    FlagsUpdate.setConfig flags (sliceFrom (String.length "single-") mode)
  else if mode =? "multi" then FlagsUpdate.setAll flags
  else flags.

(** [loadFileConfig]; [mode] is the answer that the prompt gets when it
    is shown, and the result comes with the flags, which the function
    updates in place. *)
Definition loadFileConfig (mode : string) (config : option TsToZodConfig)
           (flags : Flags.t) : Async (option TsToZodConfig * Flags.t) :=
  match config with
  | None => ret (None, flags)
  | Some (MultiConfig configs) =>
      let flags :=
        if negb (Flags.all flags) && negb (Js.truthy (Flags.config flags))
        then answered mode flags
        else flags in
      if Flags.all flags then ret (Some (MultiConfig configs), flags)
      else if Js.truthy (Flags.config flags) then
        match find (nameIs (Flags.config flags)) configs with
        | Some selectedConfig =>
            ret (Some (SingleConfig selectedConfig), flags)
        | None =>
            cliError (Js.show (Flags.config flags)
                      ++ " configuration not found!")
        end
      else ret (None, flags)
  | Some (SingleConfig config) =>
      ret (Some (SingleConfig (implemented config)), flags)
  end.

End LoadFileConfig.

(* ===================================================================== *)
(** ** Vocabulary of the properties                                       *)
(* ===================================================================== *)

(** The events of loading the extra files for validation. *)
Definition isLoadEvent (e : Event) : Prop :=
  match e with
  | ReadFile _ | SpinnerWarn _ => True
  | _ => False
  end.

(** The events of file discovery. *)
Definition isDiscoveryEvent (e : Event) : Prop :=
  match e with
  | Log _ | Warn _ | Debug _ | ReadFile _ => True
  | _ => False
  end.

Definition isDebug (e : Event) : Prop :=
  match e with
  | Debug _ => True
  | _ => False
  end.

(** [readFile(p)] resolves. *)
Definition readable (f : FileSystem) (p : string) : bool :=
  match f p with
  | Some (File _) => true
  | _ => false
  end.

(** The paths that a trace read with success, in order. *)
Fixpoint successfulReads (f : FileSystem) (tr : list Event) : list string :=
  match tr with
  | [] => []
  | ReadFile p :: tr' =>
      if readable f p then p :: successfulReads f tr'
      else successfulReads f tr'
  | _ :: tr' => successfulReads f tr'
  end.

(** The events that record the calls of [this.generate] and the
    settlement of its promises, and the schedule of a trace: these events
    in order. *)
Definition isSched (e : Event) : bool :=
  match e with
  | GenerateCalled _ | GenerateSettled _ _ => true
  | _ => false
  end.

Definition sched (tr : list Event) : list Event := filter isSched tr.

(** A computation that only appends events, none of them a scheduling
    event, and keeps readable files readable. *)
Definition Quiet {A} (m : Async A) : Prop :=
  forall w,
    (exists tr, trace (snd (m w)) = (trace w ++ tr)%list /\ sched tr = [])
    /\ (forall p, readable (fs w) p = true ->
                  readable (fs (snd (m w))) p = true).

(** The item that step 2 of nested generation builds for an entry of the
    discovered map. *)
Definition builtFor (cliFlags : Flags.t) (infos : DiscoveredFileInfos)
           (absPath : string) (info : FileInfo.t) : DiscoveredConfig.t :=
  DiscoveredConfig.mk absPath (nestedConfig cliFlags info)
                      (nestedDependencies infos info).

(** The scheduling events of a list of items: their calls, and their
    successful settlements. *)
Definition calls (items : list DiscoveredConfig.t) : list Event :=
  map (fun item => GenerateCalled (DiscoveredConfig.id item)) items.

Definition settledOk (items : list DiscoveredConfig.t) : list Event :=
  map (fun item => GenerateSettled (DiscoveredConfig.id item) true) items.

Definition isSettled (e : Event) : Prop :=
  match e with
  | GenerateSettled _ _ => True
  | _ => False
  end.

(** [generatedConfigIds] after the items [done] were added to it. *)
Definition addAll (done : list DiscoveredConfig.t) (generated : StrSet.t)
  : StrSet.t :=
  fold_left (fun g item => StrSet.add (DiscoveredConfig.id item) g)
            done generated.

(** [w'] is [w] after the events [tr], with every readable file still
    readable. *)
Definition extends (w w' : World) (tr : list Event) : Prop :=
  trace w' = (trace w ++ tr)%list
  /\ forall p, readable (fs w) p = true -> readable (fs w') p = true.

(** The queue of the generation loop without the items of a batch. *)
Definition withoutBatch (batch queue : list DiscoveredConfig.t)
  : list DiscoveredConfig.t :=
  filter (fun item =>
            negb (existsb (fun b => DiscoveredConfig.id b
                                    =? DiscoveredConfig.id item) batch))
         queue.


Section DiscoveryVocabulary.
Context {P : NodePath} {C : Collaborators}.

(** The path that [visitNode] accepts for a node of [absoluteFilePath],
    if it accepts one. *)
Definition acceptedImport (absoluteFilePath : string) (node : Node)
           (w : World) : option string :=
  match node with
  | ImportDeclaration (StringLiteral importPath) =>
      if isRelativeSpecifier importPath
         && isExistingTsFile
              (resolveImport absoluteFilePath importPath w) w
      then Some (resolveImport absoluteFilePath importPath w)
      else None
  | _ => None
  end.

(** [infos] with the edge from [absoluteFilePath] to [resolved]. *)
Definition addEdge (absoluteFilePath resolved : string)
           (infos : DiscoveredFileInfos) : DiscoveredFileInfos :=
  match StrMap.get absoluteFilePath infos with
  | Some info =>
      StrMap.set absoluteFilePath
        (FileInfo.mk (FileInfo.relativePath info)
           (StrSet.add resolved (FileInfo.localImportAbsPaths info)))
        infos
  | None => infos
  end.

(** What [visitNode] accepts among the statements [nodes] of
    [absoluteFilePath]. *)
Definition acceptedImports (absoluteFilePath : string) (nodes : list Node)
           (w : World) : list string :=
  flat_map (fun node =>
              match acceptedImport absoluteFilePath node w with
              | Some q => [q]
              | None => []
              end)
           nodes.

(** The local imports of the file at [p]. *)
Definition importsOf (w : World) (p : string) : list string :=
  match fs w p with
  | Some (File sourceText) =>
      acceptedImports p (createSourceFile p sourceText) w
  | _ => []
  end.

(** The edges recorded for [p]. *)
Definition edgesOf (p : string) (infos : DiscoveredFileInfos) : StrSet.t :=
  match StrMap.get p infos with
  | Some info => FileInfo.localImportAbsPaths info
  | None => []
  end.

(** [r] is at most [n] local imports away from [p]. *)
Inductive within (w : World) : nat -> string -> string -> Prop :=
| within_here n p : within w n p p
| within_step n p q r :
    In q (importsOf w p) -> within w n q r -> within w (S n) p r.

(** The condition of the specification on an import of
    [absoluteFilePath] with specifier [importPath]: the specifier begins
    with [./] or [../] and resolves, directly or by appending [.ts] or
    [.tsx] when it has no extension, to an existing file [target] whose
    path ends in [.ts] or [.tsx]. *)
Definition resolvesTo (absoluteFilePath importPath : string) (w : World)
           (target : string) : Prop :=
  let resolved := resolve (dirname absoluteFilePath) importPath in
  (target = resolved
   \/ extname resolved = ""
      /\ (target = resolved ++ ".ts" \/ target = resolved ++ ".tsx"))
  /\ existsSync target w = true
  /\ (Js.endsWith target ".ts" = true \/ Js.endsWith target ".tsx" = true).

Definition isLocalTsImport (absoluteFilePath importPath : string)
           (w : World) : Prop :=
  (Js.startsWith importPath "./" = true
   \/ Js.startsWith importPath "../" = true)
  /\ exists target, resolvesTo absoluteFilePath importPath w target.

(** The import [importPath] of the recorded file [absoluteFilePath] is
    recorded as an edge and queued for exploration. *)
Definition recordedAndQueued (absoluteFilePath relativeFilePath : string)
           (importPath : string) (infos : DiscoveredFileInfos)
           (toExplore : list string) (w : World) : Prop :=
  exists q infos' w',
    visitNode absoluteFilePath relativeFilePath
              (ImportDeclaration (StringLiteral importPath))
              (infos, toExplore) w
    = (Returned (infos', (toExplore ++ [q])%list), w')
    /\ In q (edgesOf absoluteFilePath infos').

(** What a discovery call that started in [w] with the map [infos]
    has done when it ends in [res]: it returned a map, neither threw nor
    ran out of fuel, left the files alone, and appended to the map, in
    the order of reading, the files it read with success, all of which
    satisfy [bound]. *)
Definition DiscoveryPost (w : World) (infos : DiscoveredFileInfos)
           (bound : string -> Prop)
           (res : Completion (option DiscoveredFileInfos) * World) : Prop :=
  exists infos' tr,
    res = (Returned (Some infos'), mkWorld (fs w) (trace w ++ tr)%list)
    /\ Forall isDiscoveryEvent tr
    /\ StrMap.keys infos'
       = (StrMap.keys infos ++ successfulReads (fs w) tr)%list
    /\ (NoDup (StrMap.keys infos) -> NoDup (StrMap.keys infos'))
    /\ (forall r, In r (StrMap.keys infos') ->
                  In r (StrMap.keys infos) \/ bound r).

End DiscoveryVocabulary.

(** Every generation is called after the generations of its
    dependencies have settled with success: whenever the schedule [s]
    has the call of an item of [queue] at some position, each dependency
    of the item has a successful settlement before that position. *)
Definition DepsRespected (queue : list DiscoveredConfig.t) (s : list Event)
  : Prop :=
  forall pre post item,
    s = (pre ++ GenerateCalled (DiscoveredConfig.id item) :: post)%list ->
    In item queue ->
    forall dep, In dep (DiscoveredConfig.dependencies item) ->
                In (GenerateSettled dep true) pre.

(** No generation is called while a generation of an earlier batch is
    pending: whenever a call comes after a settlement, every generation
    that was called before that settlement has settled with success
    before the call. *)
Definition Barrier (s : list Event) : Prop :=
  forall pre y b mid z post,
    s = (pre ++ GenerateSettled y b :: mid ++ GenerateCalled z :: post)%list ->
    forall x, In (GenerateCalled x) pre ->
              In (GenerateSettled x true)
                 (pre ++ GenerateSettled y b :: mid)%list.

(** What holds at the head of the generation loop, for the schedule [s]
    so far. *)
Record LoopInv (queue0 : list DiscoveredConfig.t) (st : LoopState.t)
       (s : list Event) : Prop := {
  inv_generated :
    forall x, In x (LoopState.generatedConfigIds st)
              <-> In (GenerateSettled x true) s;
  inv_settled :
    forall x, In (GenerateCalled x) s -> In (GenerateSettled x true) s;
  inv_queue : incl (LoopState.generationQueue st) queue0;
  inv_deps : DepsRespected queue0 s;
  inv_barrier : Barrier s
}.

Section LoopVocabulary.
Context {P : NodePath} {C : Collaborators}.
Variable pickItem : World -> list DiscoveredConfig.t -> nat.
Variable cliFlags : Flags.t.
Variable globalIoMappings : list InputOutputMapping.t.

(** The heads of the generation loop that a run reaches. *)
Inductive LoopReach (start : LoopState.t * World)
  : LoopState.t * World -> Prop :=
| reach_start : LoopReach start start
| reach_turn st w st' w' :
    LoopReach start (st, w) ->
    loopIteration pickItem cliFlags globalIoMappings st w
    = (Returned (Continue st'), w') ->
    LoopReach start (st', w').

End LoopVocabulary.

Section RunVocabulary.
Context {P : NodePath} {C : Collaborators}.


End RunVocabulary.

(** *** The steps of the pipeline *)

Section PipelineVocabulary.
Context {P : NodePath} {C : Collaborators}.

(** The entry that validation loads for the relative path [p]: none when
    the file does not read back. *)
Definition extraEntry (f : FileSystem) (p : string) : list SourceEntry.t :=
  match f (join cwd p) with
  | Some (File text) => [SourceEntry.mk text p]
  | _ => []
  end.

(** The extra files of a validation of [inputPath]: the input and the
    output of every mapping that is not the current input, as far as
    they read back. *)
Definition extraFilesOf (f : FileSystem) (inputPath : string)
           (ios : list InputOutputMapping.t) : list SourceEntry.t :=
  flat_map (fun io =>
              if getImportPath inputPath (InputOutputMapping.input io) =? "/"
              then []
              else (extraEntry f (InputOutputMapping.input io)
                    ++ extraEntry f (InputOutputMapping.output io))%list)
           ios.

End PipelineVocabulary.

Definition isOutputFile (e : Event) : Prop :=
  match e with
  | OutputFile _ _ => True
  | _ => False
  end.

(** The events of the validation step: its spinner and the request to
    the type checker. *)
Definition isValidationEvent (e : Event) : Prop :=
  match e with
  | SpinnerStart _ | SpinnerIndent | SpinnerWarn _ | SpinnerFail
  | SpinnerSucceed | WorkerValidation _ => True
  | _ => False
  end.

(** The texts that [writeOutputFiles] writes: the schema file, and the
    file of inferred types. *)
Section WrittenTexts.
Context {P : NodePath} {C : Collaborators}.

Definition schemasText (outputPath inputPath : string)
           (core : CoreGenerationResult.t) : string :=
  let zodSchemasFile :=
    CoreGenerationResult.getZodSchemasFile core
      (getImportPath outputPath inputPath) in
  prettierFormat
    (if hasExtensions (relativeToCwd outputPath) JAVASCRIPT_EXTENSIONS
     then transpileModule zodSchemasFile else zodSchemasFile).

Definition inferredTypesText (inferredTypes outputPath : string)
           (core : CoreGenerationResult.t) : string :=
  let zodInferredTypesFile :=
    CoreGenerationResult.getInferredTypes core
      (getImportPath inferredTypes outputPath) in
  prettierFormat
    (if hasExtensions inferredTypes JAVASCRIPT_EXTENSIONS
     then transpileModule zodInferredTypesFile else zodInferredTypesFile).

(** The events of [writeOutputFiles], in order. *)
Definition writes (outputPath inputPath : string)
           (core : CoreGenerationResult.t) (options : GenerateProps.t)
  : list Event :=
  (match Js.nonEmpty (GenerateProps.inferredTypes options) with
   | Some inferredTypes =>
       [OutputFile inferredTypes
                   (inferredTypesText inferredTypes outputPath core)]
   | None => []
   end
   ++ [OutputFile outputPath (schemasText outputPath inputPath core)])%list.

(** The request that the validation step sends to the type checker when
    the files are [f]. *)
Definition validationRequest (inputPath outputPath : string)
           (core : CoreGenerationResult.t) (options : GenerateProps.t)
           (ios : list InputOutputMapping.t) (f : FileSystem)
  : WorkerRequest.t :=
  workerRequest inputPath outputPath core options
                (extraFilesOf f inputPath ios).

End WrittenTexts.

(** The field [f] of an optional file config. *)
Definition configField {A} (fileConfig : option Config.t)
           (f : Config.t -> option A) : option A :=
  match fileConfig with
  | Some c => f c
  | None => None
  end.

(** The message of [prepareGeneratorConfig] for a missing input. *)
Definition missingInputError : string :=
  "Missing 1 required arg:" ++ Js.nl ++ "input file (typescript)" ++ Js.nl
  ++ "See more help with --help".

(** *** The graph of discovery *)

Definition isWarn (e : Event) : Prop :=
  match e with
  | Warn _ => True
  | _ => False
  end.

Section DiscoveryGraphVocabulary.
Context {P : NodePath} {C : Collaborators}.

(** The map after the statements of [p] were scanned. *)
Definition withEdges (p : string) (imports : list string)
           (infos : DiscoveredFileInfos) : DiscoveredFileInfos :=
  fold_left (fun m q => addEdge p q m) imports infos.

(** The entry of the file [k] is what its source says: its path relative
    to the working directory, and its local imports, each once. *)
Definition EntryOk (w : World) (k : string) (info : FileInfo.t) : Prop :=
  FileInfo.relativePath info = slash (relative cwd k)
  /\ readable (fs w) k = true
  /\ NoDup (FileInfo.localImportAbsPaths info)
  /\ forall q, In q (FileInfo.localImportAbsPaths info)
               <-> In q (importsOf w k).

(** [infos'] is [infos] with new entries, all of them right. *)
Definition Grows (w : World) (infos infos' : DiscoveredFileInfos) : Prop :=
  (forall k, StrMap.has k infos = true ->
             StrMap.get k infos' = StrMap.get k infos)
  /\ (forall k info, StrMap.get k infos' = Some info ->
                     StrMap.has k infos = false -> EntryOk w k info).

(** The imports of every entry that is in [infos'] and not in [infos]
    are recorded in [infos']. *)
Definition NewClosed (w : World) (infos infos' : DiscoveredFileInfos)
  : Prop :=
  forall k, StrMap.has k infos' = true -> StrMap.has k infos = false ->
            forall q, In q (importsOf w k) -> StrMap.has q infos' = true.

(** What a discovery call on [path] that started in [w] with the map
    [infos] has done when it ends in [res] with a map: the files are
    the same, the map has grown by right entries, and if it printed no
    warning, [path] is recorded and the imports of every new entry are
    recorded too. *)
Definition GraphPost (w : World) (path : string)
           (infos : DiscoveredFileInfos)
           (res : Completion (option DiscoveredFileInfos) * World) : Prop :=
  forall infos' w',
    res = (Returned (Some infos'), w') ->
    fs w' = fs w
    /\ Grows w infos infos'
    /\ exists tr,
        trace w' = (trace w ++ tr)%list
        /\ (Forall (fun e => ~ isWarn e) tr ->
            StrMap.has path infos' = true /\ NewClosed w infos infos').

End DiscoveryGraphVocabulary.

(** *** The failures of nested generation *)

Section NestedRunVocabulary.
Context {P : NodePath} {C : Collaborators}.


End NestedRunVocabulary.

(* ===================================================================== *)
(** ** A concrete environment for the examples                            *)
(* ===================================================================== *)

(** Node's POSIX [path] functions on the paths the examples use: no
    drive letters, no UNC prefixes. *)
Module Posix.

(** [s.split("/")]. *)
Fixpoint split (s : string) : list string :=
  match s with
  | EmptyString => [""]
  | String c r =>
      if Ascii.eqb c "/" then "" :: split r
      else match split r with
           | h :: t => String c h :: t
           | [] => [String c ""]
           end
  end.

(** Drop [""] and ["."], resolve [".."] against the segments kept so
    far ([kept], innermost first). *)
Fixpoint normalizeSegments (isAbsolute : bool) (kept segments : list string)
  : list string :=
  match segments with
  | [] => rev kept
  | seg :: rest =>
      if (seg =? "") || (seg =? ".") then
        normalizeSegments isAbsolute kept rest
      else if seg =? ".." then
        match kept with
        | top :: below =>
            if top =? ".." then
              normalizeSegments isAbsolute (".." :: kept) rest
            else normalizeSegments isAbsolute below rest
        | [] =>
            if isAbsolute then normalizeSegments isAbsolute [] rest
            else normalizeSegments isAbsolute [".."] rest
        end
      else normalizeSegments isAbsolute (seg :: kept) rest
  end.

Definition isAbsolute (p : string) : bool := Js.startsWith p "/".

Definition normalize (p : string) : string :=
  if p =? "" then "."
  else
    let abs := isAbsolute p in
    let trailing := Js.endsWith p "/" in
    let body := Js.join "/" (normalizeSegments abs [] (split p)) in
    if body =? "" then
      if abs then "/" else if trailing then "./" else "."
    else (if abs then "/" else "") ++ body ++ (if trailing then "/" else "").

Definition join (a b : string) : string :=
  if a =? "" then normalize b
  else if b =? "" then normalize a
  else normalize (a ++ "/" ++ b).

(** [resolve(from, to)] in the working directory [cwd] (absolute). *)
Definition resolve (cwd from to : string) : string :=
  let full :=
    if isAbsolute to then to
    else if isAbsolute from then from ++ "/" ++ to
    else cwd ++ "/" ++ from ++ "/" ++ to in
  "/" ++ Js.join "/" (normalizeSegments true [] (split full)).

(** The segments of [p] without the empty ones that trailing slashes
    leave. *)
Definition properSegments (p : string) : list string :=
  filter (fun seg => negb (seg =? "")) (split p).

Definition basename (p : string) : string := last (properSegments p) "".

Definition dirname (p : string) : string :=
  let dir := Js.join "/" (removelast (properSegments p)) in
  if isAbsolute p then "/" ++ dir
  else if dir =? "" then "." else dir.

(** The index of the last ["."] of [s], if any. *)
Fixpoint lastDot (s : string) : option nat :=
  match s with
  | EmptyString => None
  | String c r =>
      match lastDot r with
      | Some i => Some (S i)
      | None => if Ascii.eqb c "." then Some O else None
      end
  end.

Definition extname (p : string) : string :=
  let base := basename p in
  if base =? ".." then ""
  else match lastDot base with
       | Some (S i) => substring (S i) (String.length base - S i) base
       | _ => ""
       end.

(** [parse(p).dir], [parse(p).ext] and [parse(p).name]. *)
Definition parse_dir (p : string) : string :=
  let dir := Js.join "/" (removelast (properSegments p)) in
  if isAbsolute p then "/" ++ dir else dir.

Definition parse_ext (p : string) : string := extname p.

Definition parse_name (p : string) : string :=
  let base := basename p in
  substring 0 (String.length base - String.length (extname p)) base.

Fixpoint dropCommon (a b : list string) : list string * list string :=
  match a, b with
  | x :: a', y :: b' => if x =? y then dropCommon a' b' else (a, b)
  | _, _ => (a, b)
  end.

Definition relative (cwd from to : string) : string :=
  let f := properSegments (resolve cwd cwd from) in
  let t := properSegments (resolve cwd cwd to) in
  let (f', t') := dropCommon f t in
  Js.join "/" (map (fun _ => "..") f' ++ t')%list.

(** The [slash] package: backslashes become slashes. *)
Fixpoint slash (s : string) : string :=
  match s with
  | EmptyString => EmptyString
  | String c r =>
      String (if Ascii.eqb c (ascii_of_nat 92) then "/"%char else c)
             (slash r)
  end.

Definition nodePath (cwd : string) : NodePath :=
  Build_NodePath cwd join (resolve cwd) (relative cwd) dirname extname
                 normalize parse_dir parse_ext slash.

End Posix.

(** A project in [/proj] with stand-ins for the collaborators: a core
    generator that reports a cross-file cycle for sources that start with
    [// circular], a type checker that rejects schemas of sources that
    start with [// invalid], an identity formatter, and a parser of
    sources written as statements separated by [;], of which
    [import <specifier>] is an import declaration. *)
Module Demo.

Definition path : NodePath := Posix.nodePath "/proj".

(** Modelled from the spec: [utils/getImportPath] is not among the
    sources; the path of [to] relative to the file [from], in
    forward-slash form and without its extension. *)
Definition getImportPath (from to : string) : string :=
  let relativePath :=
    Posix.slash (Js.slice1 (Posix.relative "/proj" from to)) in
  Posix.parse_dir relativePath ++ "/" ++ Posix.parse_name relativePath.

(** Modelled from the spec: [utils/getImportPath] is not among the
    sources; two paths are equal ignoring extension when they name the
    same file once their extensions are dropped. *)
Definition areImportPathsEqualIgnoringExtension (path1 path2 : string)
  : bool :=
  let stem p := Posix.parse_dir p ++ "/" ++ Posix.parse_name p in
  Posix.relative "/proj" (stem path1) (stem path2) =? "".

Definition core (options : GenerateProps.t) : CoreGenerationResult.t :=
  let sourceText := GenerateProps.sourceText options in
  CoreGenerationResult.mk
    []
    sourceText
    (fun p => "// schemas for " ++ p)
    (fun s z => "// compare " ++ s ++ " with " ++ z)
    (fun p => "// inferred from " ++ p)
    (Js.startsWith sourceText "// circular").

Definition worker (request : WorkerRequest.t) : list string :=
  if Js.startsWith
       (SourceEntry.sourceText (WorkerRequest.sourceTypes request))
       "// invalid"
  then ["Type mismatch"] else [].

(** Split at [;]. *)
Fixpoint statements (s : string) : list string :=
  match s with
  | EmptyString => [""]
  | String c r =>
      if Ascii.eqb c ";" then "" :: statements r
      else match statements r with
           | h :: t => String c h :: t
           | [] => [String c ""]
           end
  end.

Definition parseStatement (s : string) : Node :=
  if Js.startsWith s "import " then
ImportDeclaration
  (StringLiteral (substring 7 (String.length s - 7) s))
    else OtherStatement.

Definition parser (fileName sourceText : string) : list Node :=
  map parseStatement (statements sourceText).

Definition collaborators : Collaborators :=
  Build_Collaborators getImportPath areImportPathsEqualIgnoringExtension
    [".ts"; ".tsx"] [".js"; ".jsx"] core worker
    (fun text => text) (fun text => text) parser.

(** A file system holding the listed files. *)
Definition files (l : list (string * string)) : FileSystem :=
  fun p => option_map File (StrMap.get p l).

Definition world (l : list (string * string)) : World :=
  mkWorld (files l) [].

Definition flags : Flags.t :=
  Flags.mk None false (Some false) false None false None false false 5.

Definition nestedFlags (maxDepth : Z) : Flags.t :=
  Flags.mk None false (Some false) false None false None false true maxDepth.

(** Settle the pending generations in the order they were started. *)
Definition inOrder {A} (w : World) (pending : list A) : nat := 0.

(** Settle the last pending generation first. *)
Definition lastFirst {A} (w : World) (pending : list A) : nat :=
  List.length pending.

(** A source with a cross-file cycle, generated without an output
    path. *)
Definition circularWorld : World :=
  world [("/proj/a.ts", "// circular;type A")].

Definition plainWorld : World := world [("/proj/a.ts", "type A")].

Definition inputOnly : Args.t := Args.mk (Some "a.ts") None.

Definition circularData : PrepareData.t :=
  PrepareData.mk "/proj/a.ts" "/proj/a.ts"
    (applyFlags flags (spreadConfig "// circular;type A" [] None)).

Definition plainData : PrepareData.t :=
  PrepareData.mk "/proj/a.ts" "/proj/a.ts"
    (applyFlags flags (spreadConfig "type A" [] None)).

(** Two files that import each other. *)
Definition cycleWorld : World :=
  world [("/proj/a.ts", "import ./b;type A");
         ("/proj/b.ts", "import ./a;type B")].

(** The map while [b.ts] is scanned: both files are recorded. *)
Definition cycleInfos : DiscoveredFileInfos :=
  [("/proj/a.ts", FileInfo.mk "a.ts" ["/proj/b.ts"]);
   ("/proj/b.ts", FileInfo.mk "b.ts" [])].

(** A seed that imports two siblings, which import a shared file. *)
Definition diamondWorld : World :=
  world [("/proj/seed.ts", "import ./left;import ./right");
         ("/proj/left.ts", "import ./shared");
         ("/proj/right.ts", "import ./shared");
         ("/proj/shared.ts", "type Shared")].

(** The map that discovery builds for the two files that import each
    other. *)
Definition cycleDiscovered : DiscoveredFileInfos :=
  [("/proj/a.ts", FileInfo.mk "a.ts" ["/proj/b.ts"]);
   ("/proj/b.ts", FileInfo.mk "b.ts" ["/proj/a.ts"])].

Definition cycleQueue : list DiscoveredConfig.t :=
  allConfigsToGenerate (nestedFlags 5) cycleDiscovered.

Definition cycleItemA : DiscoveredConfig.t :=
  builtFor (nestedFlags 5) cycleDiscovered "/proj/a.ts"
           (FileInfo.mk "a.ts" ["/proj/b.ts"]).

(** Two configs for [--all]: the schemas of the first do not pass the
    type checker. *)
Definition allWorld : World :=
  world [("/proj/bad.ts", "// invalid;type Bad");
         ("/proj/good.ts", "type Good")].

Definition configOf (name input output : string) : Config.t :=
  Config.mk (Some name) input output None None None None None None None.

Definition badConfig : Config.t := configOf "bad" "bad.ts" "bad.zod.ts".
Definition goodConfig : Config.t := configOf "good" "good.ts" "good.zod.ts".

End Demo.

(* ===================================================================== *)
(** * Properties                                                          *)
(* ===================================================================== *)

(** ** Strings, sets and maps *)

Module JsFacts.

Lemma append_assoc (a b c : string) : (a ++ b) ++ c = a ++ (b ++ c).
Proof. induction a as [|ch a IH]; simpl; [reflexivity|now rewrite IH]. Qed.

Lemma append_nil_r (a : string) : a ++ "" = a.
Proof. induction a as [|ch a IH]; simpl; [reflexivity|now rewrite IH]. Qed.

Lemma occursIn_refl (s : string) : Js.occursIn s s.
Proof. exists "", "". simpl. now rewrite append_nil_r. Qed.

Lemma occursIn_app_l (s a b : string) :
  Js.occursIn s a -> Js.occursIn s (a ++ b).
Proof.
  unfold Js.occursIn. intros (pre & post & ->). exists pre, (post ++ b).
  now rewrite !append_assoc.
Qed.

Lemma occursIn_app_r (s a b : string) :
  Js.occursIn s b -> Js.occursIn s (a ++ b).
Proof.
  unfold Js.occursIn. intros (pre & post & ->). exists (a ++ pre), post.
  now rewrite !append_assoc.
Qed.

(** Every element of a joined list occurs in the result. *)
Lemma occursIn_join (sep : string) (l : list string) (s : string) :
  In s l -> Js.occursIn s (Js.join sep l).
Proof.
  unfold Js.join. induction l as [|x l IH]; simpl; [easy|].
  intros [->|Hin].
  - destruct l; [apply occursIn_refl|].
    apply occursIn_app_l, occursIn_refl.
  - destruct l as [|y l]; [easy|].
    apply occursIn_app_r, occursIn_app_r, IH, Hin.
Qed.

Lemma truthy_nonEmpty (o : option string) :
  Js.truthy o = false -> Js.nonEmpty o = None.
Proof. unfold Js.nonEmpty. now intros ->. Qed.

Lemma nonEmpty_Some (o : option string) (s : string) :
  Js.nonEmpty o = Some s -> o = Some s /\ s <> "".
Proof.
  unfold Js.nonEmpty, Js.truthy. destruct o as [t|]; [|easy].
  destruct (String.eqb_spec t ""); simpl; [easy|].
  intros [= ->]. easy.
Qed.

Lemma or_falsy_l (a b : option string) :
  Js.truthy a = false -> Js.or a b = b.
Proof. unfold Js.or. now intros ->. Qed.

Lemma truthy_or (a b : option string) :
  Js.truthy (Js.or a b) = Js.truthy a || Js.truthy b.
Proof. unfold Js.or. destruct (Js.truthy a) eqn:E; simpl; auto. Qed.

Lemma orElse_falsy (a : option string) (b : string) :
  Js.truthy a = false -> Js.orElse a b = b.
Proof. unfold Js.orElse. intros H. now rewrite truthy_nonEmpty. Qed.

End JsFacts.

(** Unfold the monad's operations, and nothing else. *)
Ltac run_async :=
  cbv beta iota zeta
      delta [bind ret emit readFile throw tryCatch cliError outputFile];
  cbn [fs trace].

(** ** The single-file pipeline *)

Section GenerateFacts.
Context {P : NodePath} {C : Collaborators}.

(** What a successful [prepareGeneratorConfig] has done: it read the
    input file, and nothing else. *)
Lemma prepare_success args fileConfig cliFlags ios w data w1 :
  prepareGeneratorConfig args fileConfig cliFlags ios w
  = (Returned (Success data), w1) ->
  exists input sourceText,
    Js.nonEmpty (Js.or (Args.input args)
                       (option_map Config.input fileConfig)) = Some input
    /\ fs w (join cwd input) = Some (File sourceText)
    /\ (let inputPath := join cwd input in
        let outputPath :=
          join cwd (Js.orElse (Js.or (Args.output args)
                                     (option_map Config.output fileConfig))
                              input) in
        data = PrepareData.mk inputPath outputPath
                 (applyFlags cliFlags
                    (spreadConfig sourceText
                       (relativeIoMappings inputPath outputPath ios)
                       fileConfig)))
    /\ w1 = mkWorld (fs w) (trace w ++ [ReadFile (join cwd input)])%list.
Proof.
  unfold prepareGeneratorConfig.
  destruct (Js.nonEmpty (Js.or (Args.input args) _)) as [input|] eqn:Ein;
    [|discriminate].
  match goal with
  | |- context [match ?l with [] => _ | _ :: _ => _ end] =>
      destruct l; [|discriminate]
  end.
  run_async.
  destruct (fs w (join cwd input)) as [[text|msg]|] eqn:Efs;
    try discriminate.
  intros [= <- <-]. exists input, text. auto.
Qed.

Lemma outputProvided_false args fileConfig :
  outputProvided args fileConfig = false <->
  Js.truthy (Args.output args) = false
  /\ (fileConfig = None
      \/ exists c, fileConfig = Some c /\ Config.output c = "").
Proof.
  unfold outputProvided. rewrite JsFacts.truthy_or, orb_false_iff.
  split; intros [H1 H2]; split; auto.
  - destruct fileConfig as [c|]; [right|now left].
    exists c. split; [reflexivity|]. simpl in H2.
    now destruct (String.eqb_spec (Config.output c) "").
  - destruct H2 as [->|(c & -> & Hc)]; [reflexivity|].
    simpl. now rewrite Hc.
Qed.

(** C1. A generation call whose core result reports circular
    dependencies while no output path was supplied, neither as an
    argument nor by the file config, returns the failure that asks for
    [--output=]; the world it leaves is the one [prepareGeneratorConfig]
    left, in which the input file was read and nothing else happened: no
    validation request was sent and no file was written. *)
Theorem circular_without_output_fails
        args fileConfig cliFlags ios w data w1 :
  prepareGeneratorConfig args fileConfig cliFlags ios w
  = (Returned (Success data), w1) ->
  CoreGenerationResult.hasCircularDependencies
    (generateCoreFileContent (PrepareData.generateOptions data)) = true ->
  outputProvided args fileConfig = false ->
  generate args fileConfig cliFlags ios w
  = (Returned (Failure circularDependenciesError), w1)
  /\ Js.occursIn "--output=" circularDependenciesError
  /\ fs w1 = fs w
  /\ trace w1 = (trace w ++ [ReadFile (PrepareData.inputPath data)])%list
  /\ (forall request, In (WorkerValidation request) (trace w1) ->
                      In (WorkerValidation request) (trace w))
  /\ (forall path text, In (OutputFile path text) (trace w1) ->
                        In (OutputFile path text) (trace w)).
Proof.
  intros Hprep Hcirc Hout.
  destruct (prepare_success _ _ _ _ _ Hprep)
    as (input & src & _ & _ & Hdata & Hw1).
  cbv zeta in Hdata.
  assert (Hfs : fs w1 = fs w) by now subst w1.
  assert (Htr : trace w1
                = (trace w ++ [ReadFile (PrepareData.inputPath data)])%list)
    by now subst w1 data.
  split; [|split; [|split; [|split; [|split]]]].
  - unfold generate, bind. rewrite Hprep.
    unfold executeCoreGeneration. now rewrite Hcirc, Hout.
  - exists "", " must also be provided when input files have some circular dependencies".
    reflexivity.
  - exact Hfs.
  - exact Htr.
  - intros request. rewrite Htr, in_app_iff. intros [H|[H|[]]]; easy.
  - intros p t. rewrite Htr, in_app_iff. intros [H|[H|[]]]; easy.
Qed.

(** Loading the extra files never throws, writes nothing and only reads
    and warns. *)
Lemma loadExtraFiles_returns inputPath ios :
  forall acc w,
  exists extra tr,
    loadExtraFiles inputPath ios acc w
    = (Returned extra, mkWorld (fs w) (trace w ++ tr)%list)
    /\ Forall isLoadEvent tr.
Proof.
  induction ios as [|io rest IH]; intros acc w; cbn [loadExtraFiles].
  - exists acc, []. rewrite app_nil_r. destruct w; split; [reflexivity|].
    constructor.
  - destruct (negb _).
    2:{ apply IH. }
    run_async.
    set (i := join cwd (InputOutputMapping.input io)).
    set (o := join cwd (InputOutputMapping.output io)).
    assert (Hstep : forall acc' w' pre,
               fs w' = fs w -> trace w' = (trace w ++ pre)%list ->
               Forall isLoadEvent pre ->
               exists extra tr,
                 loadExtraFiles inputPath rest acc' w'
                 = (Returned extra, mkWorld (fs w) (trace w ++ tr)%list)
                 /\ Forall isLoadEvent tr).
    { intros acc' w' pre Hfs Htr Hpre.
      destruct (IH acc' w') as (extra & tr & Heq & Htr').
      exists extra, (pre ++ tr)%list. split.
      - rewrite Heq, Hfs, Htr, app_assoc. reflexivity.
      - apply Forall_app; auto. }
    destruct (fs w i) as [[ti|mi]|]; cbn [fs trace];
      destruct (fs w o) as [[to|mo]|]; cbn [fs trace];
      (eapply Hstep; cbn [fs trace];
       [reflexivity
       |rewrite <- !app_assoc; cbn [app]; reflexivity
       |repeat constructor]).
Qed.

(** The substitution of the fake output path.  When the output path
    equals the input path, or the relative input and output paths are
    equal ignoring extension, the path handed to the type checker for
    the generated schemas is [source.zod.ts] in the directory of the
    input file: validation sends one request, whose schema file sits at
    that path (relative to the working directory), whose integration
    tests import the schemas from that path and whose schemas import the
    types relative to it. *)
Lemma validation_substitutes_fake_output
        cliFlags inputPath outputPath core options ios w :
  outputPath = inputPath
  \/ areImportPathsEqualIgnoringExtension
       (relativeToCwd inputPath) (relativeToCwd outputPath) = true ->
  let fake := join (parse_dir (normalize inputPath)) "source.zod.ts" in
  let input := relativeToCwd inputPath in
  outputForValidation inputPath outputPath = fake
  /\ exists extraFiles loaded result verdict,
      let request :=
        WorkerRequest.mk
          (SourceEntry.mk
             (CoreGenerationResult.transformedSourceText core) input)
          (SourceEntry.mk
             (CoreGenerationResult.getIntegrationTestFile core
                (getImportPath "./source.integration.ts" input)
                (getImportPath "./source.integration.ts" fake))
             "./source.integration.ts")
          (SourceEntry.mk
             (CoreGenerationResult.getZodSchemasFile core
                (getImportPath fake input))
             (relativeToCwd fake))
          (Js.orFalse (GenerateProps.skipParseJSDoc options))
          extraFiles in
      validateGeneratedContent cliFlags inputPath outputPath core options
                               ios w
      = (Returned result,
         mkWorld (fs w)
                 (trace w ++ loaded
                  ++ [WorkerValidation request; verdict])%list)
      /\ Forall (fun e => forall r, e <> WorkerValidation r) loaded
      /\ (validateGeneratedTypesInWorker request = []
          /\ result = Success tt /\ verdict = SpinnerSucceed
          \/ validateGeneratedTypesInWorker request <> []
             /\ result
                = Failure (Js.join Js.nl
                             (validateGeneratedTypesInWorker request))
             /\ verdict = SpinnerFail).
Proof.
  intros Hsame fake input.
  assert (Hfake : outputForValidation inputPath outputPath = fake).
  { unfold outputForValidation.
    destruct Hsame as [->|Heq].
    - now rewrite String.eqb_refl.
    - rewrite Heq, orb_true_r. reflexivity. }
  split; [exact Hfake|].
  assert (Hload : forall e, isLoadEvent e ->
                            forall r, e <> WorkerValidation r)
    by (intros [] He r; try discriminate; destruct He).
  unfold validateGeneratedContent, workerRequest. rewrite Hfake.
  fold fake. fold input. run_async.
  assert (Hfinish : forall pre tr,
             Forall isLoadEvent tr ->
             Forall (fun e => forall r, e <> WorkerValidation r) pre ->
             Forall (fun e => forall r, e <> WorkerValidation r)
                    (pre ++ tr)%list).
  { intros pre tr Htr Hpre. apply Forall_app. split; [exact Hpre|].
    eapply Forall_impl; [|exact Htr]. exact Hload. }
  destruct (Flags.all cliFlags); run_async;
    match goal with
    | |- context [loadExtraFiles ?a ?b ?c ?v] =>
        destruct (loadExtraFiles_returns a b c v)
          as (extra & tr & -> & Htr)
    end; cbn [fs trace];
    match goal with
    | |- context [validateGeneratedTypesInWorker ?r] =>
        destruct (validateGeneratedTypesInWorker r) as [|err errs] eqn:Ew
    end; cbn [fs trace];
    exists extra.
  - exists ([SpinnerStart "Validating generated types"; SpinnerIndent]
            ++ tr)%list, (Success tt), SpinnerSucceed.
    split; [repeat (rewrite <- app_assoc; cbn [app]); reflexivity|].
    split; [apply Hfinish; auto; repeat constructor; discriminate|].
    left. rewrite Ew. auto.
  - exists ([SpinnerStart "Validating generated types"; SpinnerIndent]
            ++ tr)%list, (Failure (Js.join Js.nl (err :: errs))),
      SpinnerFail.
    split; [repeat (rewrite <- app_assoc; cbn [app]); reflexivity|].
    split; [apply Hfinish; auto; repeat constructor; discriminate|].
    right. rewrite Ew. repeat split. discriminate.
  - exists ([SpinnerStart "Validating generated types"] ++ tr)%list,
      (Success tt), SpinnerSucceed.
    split; [repeat (rewrite <- app_assoc; cbn [app]); reflexivity|].
    split; [apply Hfinish; auto; repeat constructor; discriminate|].
    left. rewrite Ew. auto.
  - exists ([SpinnerStart "Validating generated types"] ++ tr)%list,
      (Failure (Js.join Js.nl (err :: errs))), SpinnerFail.
    split; [repeat (rewrite <- app_assoc; cbn [app]); reflexivity|].
    split; [apply Hfinish; auto; repeat constructor; discriminate|].
    right. rewrite Ew. repeat split. discriminate.
Qed.

(** The last thing [writeOutputFiles] does is to write the formatted
    schema file to [outputPath]. *)
Lemma writeOutputFiles_writes outputPath inputPath core options w :
  let schemas :=
    CoreGenerationResult.getZodSchemasFile core
      (getImportPath outputPath inputPath) in
  exists text w',
    writeOutputFiles outputPath inputPath core options w = (Returned tt, w')
    /\ (text = prettierFormat schemas
        \/ text = prettierFormat (transpileModule schemas))
    /\ fs w' outputPath = Some (File text)
    /\ exists pre,
        trace w' = (trace w ++ pre ++ [OutputFile outputPath text])%list.
Proof.
  intros schemas. unfold writeOutputFiles. fold schemas.
  destruct (Js.nonEmpty (GenerateProps.inferredTypes options))
    as [inferred|];
    destruct (hasExtensions (relativeToCwd outputPath)
                            JAVASCRIPT_EXTENSIONS);
    run_async; eexists; eexists;
    (split; [reflexivity|]); cbn [fs trace];
    rewrite String.eqb_refl;
    (split; [|split; [reflexivity|]]); auto;
    try (eexists; rewrite <- app_assoc; reflexivity);
    exists []; reflexivity.
Qed.

(** When neither the output argument nor the config's output field is
    set, the prepared output path is the prepared input path, and a
    generation that succeeds ends by writing the formatted schema file
    rendered from the input's source text to the path of the input
    file, where it replaces that source text. *)
Lemma default_output_written_on_success args fileConfig cliFlags ios w :
  outputProvided args fileConfig = false ->
  (forall data w1,
      prepareGeneratorConfig args fileConfig cliFlags ios w
      = (Returned (Success data), w1) ->
      PrepareData.outputPath data = PrepareData.inputPath data)
  /\ (forall w',
        generate args fileConfig cliFlags ios w
        = (Returned (Success tt), w') ->
        exists input sourceText text,
          Js.nonEmpty (Js.or (Args.input args)
                             (option_map Config.input fileConfig))
          = Some input
          /\ fs w (join cwd input) = Some (File sourceText)
          /\ fs w' (join cwd input) = Some (File text)
          /\ (exists before,
                 trace w'
                 = (before ++ [OutputFile (join cwd input) text])%list)
          /\ (let inputPath := join cwd input in
              let core :=
                generateCoreFileContent
                  (applyFlags cliFlags
                     (spreadConfig sourceText
                        (relativeIoMappings inputPath inputPath ios)
                        fileConfig)) in
              let schemas :=
                CoreGenerationResult.getZodSchemasFile core
                  (getImportPath inputPath inputPath) in
              text = prettierFormat schemas
              \/ text = prettierFormat (transpileModule schemas))).
Proof.
  intros Hout.
  assert (Hdefault : forall input,
             Js.orElse (Js.or (Args.output args)
                              (option_map Config.output fileConfig)) input
             = input)
    by (intros input; apply JsFacts.orElse_falsy, Hout).
  split.
  - intros data w1 Hprep.
    destruct (prepare_success _ _ _ _ _ Hprep)
      as (input & src & _ & _ & Hdata & _).
    cbv zeta in Hdata. subst data. cbn [PrepareData.outputPath
      PrepareData.inputPath]. now rewrite Hdefault.
  - intros w'. unfold generate. unfold bind at 1.
    destruct (prepareGeneratorConfig args fileConfig cliFlags ios w)
      as [[[data|e]|e] w1] eqn:Hprep; try discriminate.
    destruct (prepare_success _ _ _ _ _ Hprep)
      as (input & src & Hin & Hsrc & Hdata & _).
    cbv zeta in Hdata. rewrite Hdefault in Hdata. subst data.
    cbn [PrepareData.outputPath PrepareData.inputPath
         PrepareData.generateOptions].
    unfold executeCoreGeneration.
    set (core := generateCoreFileContent _).
    destruct (_ && _); [discriminate|].
    unfold bind at 1.
    destruct (forEach _ _ w1) as [[[]|e] w2]; [|discriminate].
    unfold bind at 1.
    match goal with
    | |- context [(if ?b then ?x else ?y) w2] =>
        destruct ((if b then x else y) w2) as [[[[]|e]|e] w3];
          try discriminate
    end.
    unfold bind at 1.
    destruct (writeOutputFiles_writes (join cwd input) (join cwd input)
                core (applyFlags cliFlags
                        (spreadConfig src
                           (relativeIoMappings (join cwd input)
                              (join cwd input) ios) fileConfig)) w3)
      as (text & w4 & -> & Htext & Hfs & pre & Htr).
    unfold ret. intros [= <-].
    exists input, src, text. repeat split; auto.
    eexists. rewrite Htr, app_assoc. reflexivity.
Qed.

End GenerateFacts.

Module JsMoreFacts.

Lemma length_append (a b : string) :
  String.length (a ++ b) = (String.length a + String.length b)%nat.
Proof. induction a as [|c a IH]; simpl; [reflexivity|now rewrite IH]. Qed.

Lemma substring_all (s : string) : substring 0 (String.length s) s = s.
Proof. induction s as [|c s IH]; simpl; [reflexivity|now rewrite IH]. Qed.

Lemma substring_append_r (a b : string) :
  substring (String.length a) (String.length b) (a ++ b) = b.
Proof. induction a as [|c a IH]; simpl; [apply substring_all|exact IH]. Qed.

(** A string ends with what was appended to it. *)
Lemma endsWith_append (s suf : string) : Js.endsWith (s ++ suf) suf = true.
Proof.
  unfold Js.endsWith. rewrite length_append.
  replace (String.length s + String.length suf - String.length suf)%nat
    with (String.length s) by lia.
  rewrite substring_append_r, String.eqb_refl, andb_true_r.
  apply Nat.leb_le. lia.
Qed.

End JsMoreFacts.

Module StrSetFacts.

Lemma has_In (x : string) (s : StrSet.t) :
  StrSet.has x s = true <-> In x s.
Proof.
  unfold StrSet.has. rewrite existsb_exists. split.
  - intros (y & Hy & Heq). apply String.eqb_eq in Heq. now subst.
  - intros H. exists x. split; [exact H|apply String.eqb_refl].
Qed.

Lemma In_add (x y : string) (s : StrSet.t) :
  In y (StrSet.add x s) <-> y = x \/ In y s.
Proof.
  unfold StrSet.add. destruct (StrSet.has x s) eqn:E.
  - apply has_In in E. split; [auto|]. intros [->|H]; auto.
  - rewrite in_app_iff. simpl. intuition.
Qed.

Lemma NoDup_add (x : string) (s : StrSet.t) :
  NoDup s -> NoDup (StrSet.add x s).
Proof.
  intros H. unfold StrSet.add. destruct (StrSet.has x s) eqn:E; [exact H|].
  apply NoDup_app; [exact H|repeat constructor; easy|].
  intros y Hy [<-|[]]. apply has_In in Hy. congruence.
Qed.

End StrSetFacts.

Module StrMapFacts.
Section WithValues.
Variable V : Type.
Implicit Types (m : StrMap.t V) (k : string) (v : V).

Lemma get_set_same k v m : StrMap.get k (StrMap.set k v m) = Some v.
Proof.
  induction m as [|[k' v'] m IH]; simpl.
  - now rewrite String.eqb_refl.
  - destruct (String.eqb_spec k k'); simpl.
    + now rewrite String.eqb_refl.
    + destruct (String.eqb_spec k k'); [easy|exact IH].
Qed.

Lemma get_set_other k k' v m :
  k' <> k -> StrMap.get k' (StrMap.set k v m) = StrMap.get k' m.
Proof.
  intros Hne. induction m as [|[k0 v0] m IH]; simpl.
  - destruct (String.eqb_spec k' k); easy.
  - destruct (String.eqb_spec k k0); simpl.
    + subst. destruct (String.eqb_spec k' k0); easy.
    + destruct (String.eqb_spec k' k0); [reflexivity|exact IH].
Qed.

Lemma has_set k k' v m :
  StrMap.has k' (StrMap.set k v m) = (k' =? k) || StrMap.has k' m.
Proof.
  unfold StrMap.has. destruct (String.eqb_spec k' k) as [->|Hne].
  - now rewrite get_set_same.
  - now rewrite get_set_other.
Qed.

Lemma has_In_keys k m : StrMap.has k m = true <-> In k (StrMap.keys m).
Proof.
  unfold StrMap.has, StrMap.keys.
  induction m as [|[k' v'] m IH]; simpl; [easy|].
  destruct (String.eqb_spec k k'); [intuition|].
  rewrite IH. intuition congruence.
Qed.

Lemma has_false_keys k m :
  StrMap.has k m = false <-> ~ In k (StrMap.keys m).
Proof.
  rewrite <- has_In_keys. destruct (StrMap.has k m); intuition congruence.
Qed.

(** Setting a present key keeps the keys and their order. *)
Lemma keys_set_present k v m :
  StrMap.has k m = true ->
  StrMap.keys (StrMap.set k v m) = StrMap.keys m.
Proof.
  unfold StrMap.has, StrMap.keys.
  induction m as [|[k' v'] m IH]; simpl; [easy|].
  destruct (String.eqb_spec k k'); simpl; [now subst|].
  intros H. now rewrite IH.
Qed.

(** Setting a new key appends it. *)
Lemma keys_set_new k v m :
  StrMap.has k m = false ->
  StrMap.keys (StrMap.set k v m) = (StrMap.keys m ++ [k])%list.
Proof.
  unfold StrMap.has, StrMap.keys.
  induction m as [|[k' v'] m IH]; simpl; [easy|].
  destruct (String.eqb_spec k k'); simpl; [easy|].
  intros H. now rewrite IH.
Qed.

Lemma NoDup_keys_set k v m :
  NoDup (StrMap.keys m) -> NoDup (StrMap.keys (StrMap.set k v m)).
Proof.
  intros H. destruct (StrMap.has k m) eqn:E.
  - now rewrite keys_set_present.
  - rewrite keys_set_new by exact E.
    apply NoDup_app; [exact H|repeat constructor; easy|].
    intros y Hy [<-|[]]. now apply has_false_keys in E.
Qed.

Lemma get_In k v m : StrMap.get k m = Some v -> In (k, v) m.
Proof.
  induction m as [|[k' v'] m IH]; simpl; [easy|].
  destruct (String.eqb_spec k k').
  - intros [= ->]. subst. now left.
  - intros H. right. now apply IH.
Qed.

Lemma In_get k v m :
  NoDup (StrMap.keys m) -> In (k, v) m -> StrMap.get k m = Some v.
Proof.
  unfold StrMap.keys. induction m as [|[k' v'] m IH]; simpl; [easy|].
  intros Hnd [[= -> ->]|Hin].
  - now rewrite String.eqb_refl.
  - inversion Hnd as [|? ? Hnotin Hnd']; subst.
    destruct (String.eqb_spec k k') as [->|Hne].
    + exfalso. apply Hnotin. now apply (in_map fst) in Hin.
    + now apply IH.
Qed.

End WithValues.
End StrMapFacts.

(** ** Nested file discovery *)

Section DiscoveryFacts.
Context {P : NodePath} {C : Collaborators}.

Lemma successfulReads_app f tr1 tr2 :
  successfulReads f (tr1 ++ tr2)%list
  = (successfulReads f tr1 ++ successfulReads f tr2)%list.
Proof.
  induction tr1 as [|e tr1 IH]; [reflexivity|].
  destruct e; cbn [app successfulReads]; auto.
  destruct (readable f path); cbn [app]; now rewrite IH.
Qed.

Lemma successfulReads_debug f tr :
  Forall isDebug tr -> successfulReads f tr = [].
Proof.
  induction 1 as [|e tr He _ IH]; [reflexivity|].
  destruct e; try destruct He. exact IH.
Qed.

Lemma debug_is_discovery tr :
  Forall isDebug tr -> Forall isDiscoveryEvent tr.
Proof.
  intros H. eapply Forall_impl; [|exact H]. intros []; simpl; auto.
Qed.

(** The code's test on an import is the specification's condition. *)
Lemma isLocalTsImport_iff absoluteFilePath importPath w :
  isLocalTsImport absoluteFilePath importPath w <->
  isRelativeSpecifier importPath = true
  /\ isExistingTsFile (resolveImport absoluteFilePath importPath w) w
     = true.
Proof.
  unfold isLocalTsImport, resolvesTo, isRelativeSpecifier, isExistingTsFile,
    resolveImport.
  set (r := resolve (dirname absoluteFilePath) importPath).
  rewrite orb_true_iff.
  assert (Hts : Js.endsWith (r ++ ".ts") ".ts" = true)
    by apply JsMoreFacts.endsWith_append.
  assert (Htsx : Js.endsWith (r ++ ".tsx") ".tsx" = true)
    by apply JsMoreFacts.endsWith_append.
  split.
  - intros [Hrel (target & Hres & Hex & Hend)]. split; [exact Hrel|].
    destruct (String.eqb_spec (extname r) "") as [Hext|Hext].
    + destruct (existsSync (r ++ ".ts") w) eqn:E1.
      { rewrite E1, Hts. reflexivity. }
      destruct (existsSync (r ++ ".tsx") w) eqn:E2.
      { rewrite E2, Htsx, orb_true_r. reflexivity. }
      destruct Hres as [ -> | [_ [ -> | -> ]]]; try congruence.
      rewrite Hex. apply orb_true_iff in Hend. now rewrite Hend.
    + destruct Hres as [ -> | [Hext' _]]; [|congruence].
      rewrite Hex. apply orb_true_iff in Hend. now rewrite Hend.
  - intros [Hrel Hok]. split; [exact Hrel|].
    apply andb_true_iff in Hok. destruct Hok as [Hex Hend].
    apply orb_true_iff in Hend.
    destruct (String.eqb_spec (extname r) "") as [Hext|Hext].
    + destruct (existsSync (r ++ ".ts") w) eqn:E1.
      { exists (r ++ ".ts"). auto 6. }
      destruct (existsSync (r ++ ".tsx") w) eqn:E2.
      { exists (r ++ ".tsx"). auto 6. }
      exists r. auto.
    + exists r. auto.
Qed.

Lemma acceptedImport_fs absoluteFilePath node w w' :
  fs w' = fs w ->
  acceptedImport absoluteFilePath node w'
  = acceptedImport absoluteFilePath node w.
Proof.
  intros Hfs. unfold acceptedImport, isExistingTsFile, resolveImport,
    existsSync. now rewrite Hfs.
Qed.

Lemma importsOf_fs w w' p : fs w' = fs w -> importsOf w' p = importsOf w p.
Proof.
  intros Hfs. unfold importsOf. rewrite Hfs.
  destruct (fs w p) as [[text|msg]|]; try reflexivity.
  apply flat_map_ext. intros node.
  now rewrite (acceptedImport_fs p node _ _ Hfs).
Qed.

Lemma keys_addEdge absoluteFilePath q infos :
  StrMap.keys (addEdge absoluteFilePath q infos) = StrMap.keys infos.
Proof.
  unfold addEdge.
  destruct (StrMap.get absoluteFilePath infos) eqn:E; [|reflexivity].
  apply StrMapFacts.keys_set_present. unfold StrMap.has. now rewrite E.
Qed.

Lemma has_addEdge absoluteFilePath q k infos :
  StrMap.has k (addEdge absoluteFilePath q infos) = StrMap.has k infos.
Proof.
  destruct (StrMap.has k infos) eqn:E.
  - apply StrMapFacts.has_In_keys. rewrite keys_addEdge.
    now apply StrMapFacts.has_In_keys.
  - apply StrMapFacts.has_false_keys. rewrite keys_addEdge.
    now apply StrMapFacts.has_false_keys.
Qed.

(** What [visitNode] does with one statement of a recorded file: an
    accepted import becomes an edge, and is queued unless its file is
    already recorded; anything else changes nothing. *)
Lemma visitNode_spec absoluteFilePath relativeFilePath node infos
      toExplore w :
  StrMap.has absoluteFilePath infos = true ->
  exists dbg,
    Forall isDebug dbg
    /\ visitNode absoluteFilePath relativeFilePath node (infos, toExplore) w
       = (Returned
            match acceptedImport absoluteFilePath node w with
            | Some q =>
                (addEdge absoluteFilePath q infos,
                 if StrMap.has q infos then toExplore
                 else (toExplore ++ [q])%list)
            | None => (infos, toExplore)
            end,
          mkWorld (fs w) (trace w ++ dbg)%list)
    /\ (acceptedImport absoluteFilePath node w <> None -> dbg = []).
Proof.
  intros Hhas.
  assert (Hsame : (Returned (infos, toExplore), w)
                  = (Returned (infos, toExplore),
                     mkWorld (fs w) (trace w ++ [])%list))
    by (rewrite app_nil_r; now destruct w).
  unfold visitNode, acceptedImport.
  destruct node as [[importPath|]|];
    try (exists []; split; [constructor|split; [exact Hsame|reflexivity]]).
  destruct (isRelativeSpecifier importPath); cbn [andb];
    [|exists []; split; [constructor|split; [exact Hsame|reflexivity]]].
  destruct (isExistingTsFile _ w) eqn:Eok.
  - exists []. split; [constructor|]. split; [|reflexivity].
    unfold addLocalImport, addEdge. unfold StrMap.has in Hhas.
    destruct (StrMap.get absoluteFilePath infos) as [info|] eqn:Eget;
      [|discriminate].
    run_async.
    set (q := resolveImport absoluteFilePath importPath w).
    set (infos' := StrMap.set absoluteFilePath _ infos).
    assert (Hq : StrMap.has q infos' = StrMap.has q infos).
    { pose proof (has_addEdge absoluteFilePath q q infos) as H.
      unfold addEdge in H. rewrite Eget in H. exact H. }
    rewrite Hq, app_nil_r.
    destruct (StrMap.has q infos); cbn [negb]; run_async; now destruct w.
  - eexists (Debug _ :: nil). split; [repeat constructor|].
    split; [|intros H; now elim H]. run_async. reflexivity.
Qed.

Lemma within_fs w w' n p r :
  fs w' = fs w -> within w n p r -> within w' n p r.
Proof.
  intros Hfs. induction 1 as [|n p q r Hq _ IH]; [constructor|].
  apply within_step with q; [|exact IH].
  now rewrite (importsOf_fs _ _ p Hfs).
Qed.

Lemma within_mono w n m p r :
  (n <= m)%nat -> within w n p r -> within w m p r.
Proof.
  intros Hle H. revert m Hle.
  induction H as [|n p q r Hq _ IH]; intros m Hle; [constructor|].
  destruct m as [|m]; [lia|].
  apply within_step with q; [exact Hq|]. apply IH. lia.
Qed.

Lemma edgesOf_addEdge_same p q infos :
  StrMap.has p infos = true ->
  edgesOf p (addEdge p q infos) = StrSet.add q (edgesOf p infos).
Proof.
  unfold StrMap.has, edgesOf, addEdge.
  destruct (StrMap.get p infos) as [info|]; [|discriminate].
  intros _. now rewrite StrMapFacts.get_set_same.
Qed.

Lemma edgesOf_addEdge_other p k q infos :
  k <> p -> edgesOf k (addEdge p q infos) = edgesOf k infos.
Proof.
  intros Hne. unfold edgesOf, addEdge.
  destruct (StrMap.get p infos) as [info|]; [|reflexivity].
  now rewrite StrMapFacts.get_set_other.
Qed.

(** The scan of a recorded file's statements: it only logs skipped
    imports, keeps the recorded files, records the accepted imports as
    the file's edges and queues accepted imports only. *)
Lemma forEachChild_spec absoluteFilePath relativeFilePath nodes :
  forall infos toExplore w,
    StrMap.has absoluteFilePath infos = true ->
    exists infos' toExplore' dbg,
      forEachChild nodes (visitNode absoluteFilePath relativeFilePath)
                   (infos, toExplore) w
      = (Returned (infos', toExplore'),
         mkWorld (fs w) (trace w ++ dbg)%list)
      /\ Forall isDebug dbg
      /\ StrMap.keys infos' = StrMap.keys infos
      /\ (forall q, In q toExplore' ->
                    In q toExplore
                    \/ In q (acceptedImports absoluteFilePath nodes w))
      /\ (forall q, In q (edgesOf absoluteFilePath infos') <->
                    In q (edgesOf absoluteFilePath infos)
                    \/ In q (acceptedImports absoluteFilePath nodes w))
      /\ (forall k, k <> absoluteFilePath ->
                    edgesOf k infos' = edgesOf k infos).
Proof.
  induction nodes as [|node rest IH]; intros infos toExplore w Hhas;
    cbn [forEachChild acceptedImports flat_map].
  - exists infos, toExplore, []. run_async. rewrite app_nil_r.
    destruct w. cbn [fs trace].
    split; [reflexivity|]. split; [constructor|]. split; [reflexivity|].
    split; [auto|]. split; [|reflexivity]. intros q. cbn [In]. tauto.
  - destruct (visitNode_spec absoluteFilePath relativeFilePath node infos
                toExplore w Hhas) as (dbg & Hdbg & Hvisit & _).
    unfold bind at 1. rewrite Hvisit. clear Hvisit.
    set (w1 := mkWorld (fs w) (trace w ++ dbg)%list).
    assert (Hacc : forall n, acceptedImport absoluteFilePath n w1
                             = acceptedImport absoluteFilePath n w)
      by (intros n; now apply acceptedImport_fs).
    assert (Haccs : acceptedImports absoluteFilePath rest w1
                    = acceptedImports absoluteFilePath rest w)
      by (apply flat_map_ext; intros n; now rewrite Hacc).
    destruct (acceptedImport absoluteFilePath node w) as [q|] eqn:Eacc;
      cbv beta iota.
    + assert (Hhas' : StrMap.has absoluteFilePath
                        (addEdge absoluteFilePath q infos) = true)
        by now rewrite has_addEdge.
      destruct (IH (addEdge absoluteFilePath q infos)
                   (if StrMap.has q infos then toExplore
                    else (toExplore ++ [q])%list) w1 Hhas')
        as (infos' & toExplore' & dbg' & Heq & Hdbg' & Hkeys & Hq & He & Ho).
      exists infos', toExplore', (dbg ++ dbg')%list.
      split; [etransitivity; [exact Heq|];
              cbn [fs trace w1]; now rewrite app_assoc|].
      split; [now apply Forall_app|].
      split; [now rewrite Hkeys, keys_addEdge|].
      rewrite Haccs in Hq, He. split; [|split].
      * intros q' Hq'. destruct (Hq q' Hq') as [Hin|Hin].
        -- destruct (StrMap.has q infos).
           ++ now left.
           ++ apply in_app_iff in Hin. cbn [In app].
              destruct Hin as [Hin|[<-|[]]]; auto.
        -- right. cbn [app]. now right.
      * intros q'. rewrite He, edgesOf_addEdge_same by exact Hhas.
        rewrite StrSetFacts.In_add. cbn [app In]. intuition.
      * intros k Hk. rewrite Ho by exact Hk.
        now apply edgesOf_addEdge_other.
    + destruct (IH infos toExplore w1 Hhas)
        as (infos' & toExplore' & dbg' & Heq & Hdbg' & Hkeys & Hq & He & Ho).
      exists infos', toExplore', (dbg ++ dbg')%list.
      rewrite Haccs in Hq, He.
      split; [etransitivity; [exact Heq|];
              cbn [fs trace w1]; now rewrite app_assoc|].
      split; [now apply Forall_app|]. auto.
Qed.

Lemma DiscoveryPost_weaken w infos (bound bound' : string -> Prop) res :
  (forall r, bound r -> bound' r) ->
  DiscoveryPost w infos bound res -> DiscoveryPost w infos bound' res.
Proof.
  intros Himp (infos' & tr & Heq & Hev & Hkeys & Hnd & Hb).
  exists infos', tr. repeat split; auto.
  intros r Hr. destruct (Hb r Hr); auto.
Qed.

(** A call that returns at once, after the events [tr], none of them
    a read. *)
Lemma DiscoveryPost_skip w infos bound tr :
  Forall isDiscoveryEvent tr -> successfulReads (fs w) tr = [] ->
  DiscoveryPost w infos bound
    (Returned (Some infos), mkWorld (fs w) (trace w ++ tr)%list).
Proof.
  intros Hev Hreads. exists infos, tr. rewrite Hreads, app_nil_r.
  repeat split; auto.
Qed.

(** Two discoveries in a row. *)
Lemma DiscoveryPost_seq w infos bound infos1 tr1 res :
  Forall isDiscoveryEvent tr1 ->
  StrMap.keys infos1
  = (StrMap.keys infos ++ successfulReads (fs w) tr1)%list ->
  (NoDup (StrMap.keys infos) -> NoDup (StrMap.keys infos1)) ->
  (forall r, In r (StrMap.keys infos1) ->
             In r (StrMap.keys infos) \/ bound r) ->
  DiscoveryPost (mkWorld (fs w) (trace w ++ tr1)%list) infos1 bound res ->
  DiscoveryPost w infos bound res.
Proof.
  intros Hev1 Hkeys1 Hnd1 Hb1 (infos2 & tr2 & Heq & Hev2 & Hkeys2 & Hnd2 & Hb2).
  cbn [fs trace] in *.
  exists infos2, (tr1 ++ tr2)%list. split; [|split; [|split; [|split]]].
  - rewrite Heq, app_assoc. reflexivity.
  - now apply Forall_app.
  - rewrite Hkeys2, Hkeys1, successfulReads_app, app_assoc. reflexivity.
  - auto.
  - intros r Hr. destruct (Hb2 r Hr) as [H|H]; auto.
Qed.

Lemma uniq_incl l x : In x (uniq l) -> In x l.
Proof.
  unfold uniq. generalize (@nil string) as seen.
  induction l as [|y l IH]; intros seen; cbn [uniqFrom]; [easy|].
  destruct (StrSet.has y seen); cbn [In]; intros H.
  - right. eapply IH, H.
  - destruct H as [->|H]; [now left|right; eapply IH, H].
Qed.

(** The loop over the imports to explore, given what one recursive
    call achieves. *)
Lemma exploreAll_spec w path maxDepth d fuel :
  (forall q infos0 w0,
      DiscoveryPost w0 infos0
        (fun r => (d + 1 <= maxDepth)%Z
                  /\ within w0 (Z.to_nat (maxDepth - (d + 1))) q r)
        (performFileDiscoveryFuel fuel q infos0 maxDepth (d + 1) w0)) ->
  forall imports infos0 w0,
    fs w0 = fs w ->
    (forall q, In q imports -> In q (importsOf w path)) ->
    DiscoveryPost w0 infos0
      (fun r => (d <= maxDepth)%Z
                /\ within w (Z.to_nat (maxDepth - d)) path r)
      (exploreAll
         (fun importPath infos' =>
            performFileDiscoveryFuel fuel importPath infos' maxDepth
                                     (d + 1))
         imports infos0 w0).
Proof.
  intros Hcall. induction imports as [|q rest IH]; intros infos0 w0 Hfs Himp;
    cbn [exploreAll].
  - run_async. exists infos0, []. cbn [successfulReads].
    rewrite !app_nil_r. destruct w0. repeat split; auto.
  - destruct (Hcall q infos0 w0)
      as (infos1 & tr1 & Heq & Hev & Hkeys & Hnd & Hb).
    unfold bind at 1. rewrite Heq.
    apply DiscoveryPost_seq with infos1 tr1; auto.
    + intros r Hr. destruct (Hb r Hr) as [H|[Hd Hw]]; [now left|right].
      split; [lia|].
      replace (Z.to_nat (maxDepth - d))
        with (S (Z.to_nat (maxDepth - (d + 1)))) by lia.
      apply within_step with q; [apply Himp; now left|].
      eapply within_fs; [|exact Hw]. now symmetry.
    + apply IH; [exact Hfs|]. intros q' Hq'. apply Himp. now right.
Qed.

(** The discovery call: with fuel for the depth that is left it returns
    a map, and the files it added are the ones it read, each once, in
    the order of reading, none further than [maxDepth - currentDepth]
    imports away from the file it was called on. *)
Lemma discovery_spec fuel :
  forall path infos maxDepth d w,
    (Z.to_nat (maxDepth - d + 1) < fuel)%nat ->
    DiscoveryPost w infos
      (fun r => (d <= maxDepth)%Z
                /\ within w (Z.to_nat (maxDepth - d)) path r)
      (performFileDiscoveryFuel fuel path infos maxDepth d w).
Proof.
  induction fuel as [|fuel IH]; intros path infos maxDepth d w Hfuel;
    [lia|].
  cbn [performFileDiscoveryFuel].
  destruct (d >? maxDepth)%Z eqn:Ed.
  { run_async. apply DiscoveryPost_skip; [repeat constructor|reflexivity]. }
  rewrite Z.gtb_ltb in Ed. apply Z.ltb_ge in Ed.
  destruct (StrMap.has path infos) eqn:Ehas.
  { run_async. apply DiscoveryPost_skip; [repeat constructor|reflexivity]. }
  run_async.
  destruct (fs w path) as [[sourceText|message]|] eqn:Efs; cbn [fs trace].
  2,3: rewrite <- !app_assoc;
       apply DiscoveryPost_skip; [repeat constructor|];
       cbn [app successfulReads]; unfold readable; now rewrite Efs.
  set (rel := slash (relative cwd path)).
  set (recorded := StrMap.set path (FileInfo.mk rel StrSet.empty) infos).
  set (w1 := mkWorld (fs w) _).
  assert (Hrec : StrMap.has path recorded = true)
    by (unfold recorded; now rewrite StrMapFacts.has_set, String.eqb_refl).
  destruct (forEachChild_spec path rel (createSourceFile path sourceText)
              recorded [] w1 Hrec)
    as (infos2 & toExplore & dbg & Heq & Hdbg & Hkeys & Hq & _ & _).
  rewrite Heq. clear Heq. cbn [fs trace w1].
  assert (Hkeys2 : StrMap.keys infos2 = (StrMap.keys infos ++ [path])%list)
    by (rewrite Hkeys; now apply StrMapFacts.keys_set_new).
  rewrite <- !app_assoc.
  apply DiscoveryPost_seq
    with infos2 ([Log ("Discovering imports in: " ++ rel ++ " (depth: "
                       ++ Js.showZ d ++ ")"); ReadFile path] ++ dbg)%list.
  - apply Forall_app. split; [repeat constructor|].
    now apply debug_is_discovery.
  - rewrite Hkeys2. cbn [app successfulReads]. unfold readable.
    rewrite Efs. now rewrite (successfulReads_debug _ Hdbg).
  - intros Hnd. rewrite Hkeys. now apply StrMapFacts.NoDup_keys_set.
  - intros r. rewrite Hkeys2, in_app_iff. cbn [In].
    intros [H|[<-|[]]]; [now left|right]. split; [exact Ed|constructor].
  - apply exploreAll_spec.
    + intros q infos0 w0. apply IH. lia.
    + reflexivity.
    + intros q Hq'. apply uniq_incl in Hq'.
      destruct (Hq q Hq') as [[]|Hacc].
      unfold importsOf. rewrite Efs.
      unfold acceptedImports in *.
      erewrite flat_map_ext; [exact Hacc|].
      intros node. cbv beta.
      now rewrite (acceptedImport_fs path node w w1).
Qed.

Lemma performFileDiscovery_spec path infos maxDepth d w :
  DiscoveryPost w infos
    (fun r => (d <= maxDepth)%Z
              /\ within w (Z.to_nat (maxDepth - d)) path r)
    (performFileDiscovery path infos maxDepth d w).
Proof. apply discovery_spec. unfold discoveryFuel. lia. Qed.

(** C4. A discovery call on a path that is already recorded returns the
    map as it is after a single message, without reading the file; a
    call that reads a file records it before it explores the imports,
    so the exploration starts from a map that has the file; and every
    call returns a map, whatever the imports are, cycles included, to
    which it has appended exactly the files it read with success, in
    the order of reading, so that no file is read with success or
    recorded twice. *)
Theorem discovery_records_each_file_once path infos maxDepth d w :
  (StrMap.has path infos = true ->
   exists e,
     performFileDiscovery path infos maxDepth d w
     = (Returned (Some infos), mkWorld (fs w) (trace w ++ [e])%list)
     /\ (forall p, e <> ReadFile p))
  /\ (forall fuel sourceText,
        (d <= maxDepth)%Z -> StrMap.has path infos = false ->
        fs w path = Some (File sourceText) ->
        exists recorded imports w1,
          StrMap.has path recorded = true
          /\ StrMap.keys recorded = (StrMap.keys infos ++ [path])%list
          /\ performFileDiscoveryFuel (S fuel) path infos maxDepth d w
             = exploreAll
                 (fun importPath infos' =>
                    performFileDiscoveryFuel fuel importPath infos'
                                             maxDepth (d + 1))
                 imports recorded w1)
  /\ (exists infos' tr,
        performFileDiscovery path infos maxDepth d w
        = (Returned (Some infos'), mkWorld (fs w) (trace w ++ tr)%list)
        /\ StrMap.keys infos'
           = (StrMap.keys infos ++ successfulReads (fs w) tr)%list
        /\ (NoDup (StrMap.keys infos) -> NoDup (StrMap.keys infos'))).
Proof.
  split; [|split].
  - intros Hhas. unfold performFileDiscovery, discoveryFuel.
    cbn [performFileDiscoveryFuel]. rewrite Hhas.
    destruct (d >? maxDepth)%Z; run_async; eexists;
      (split; [reflexivity|discriminate]).
  - intros fuel sourceText Hd Hhas Hfs.
    cbn [performFileDiscoveryFuel]. rewrite Hhas.
    replace (d >? maxDepth)%Z with false
      by (symmetry; rewrite Z.gtb_ltb; now apply Z.ltb_ge).
    run_async. rewrite Hfs. cbn [fs trace].
    set (rel := slash (relative cwd path)).
    set (recorded := StrMap.set path (FileInfo.mk rel StrSet.empty) infos).
    set (w1 := mkWorld (fs w) _).
    assert (Hrec : StrMap.has path recorded = true)
      by (unfold recorded; now rewrite StrMapFacts.has_set, String.eqb_refl).
    destruct (forEachChild_spec path rel (createSourceFile path sourceText)
                recorded [] w1 Hrec)
      as (infos2 & toExplore & dbg & Heq & _ & Hkeys & _).
    rewrite Heq. exists infos2, (uniq toExplore). eexists.
    split; [|split; [|reflexivity]].
    + apply StrMapFacts.has_In_keys. rewrite Hkeys.
      now apply StrMapFacts.has_In_keys.
    + rewrite Hkeys. now apply StrMapFacts.keys_set_new.
  - destruct (performFileDiscovery_spec path infos maxDepth d w)
      as (infos' & tr & Heq & _ & Hkeys & Hnd & _).
    exists infos', tr. auto.
Qed.

(** C6, as the code has it. For a statement of a recorded file: an
    import declaration whose specifier is a string literal that meets
    the condition is recorded as an edge to the path it resolves to,
    and that path is queued for exploration exactly when its file is
    not yet recorded; an import that does not meet the condition, and
    any other statement, leaves the map and the queue as they are. *)
Theorem import_edge_iff_local_ts
        absoluteFilePath relativeFilePath node infos toExplore w :
  StrMap.has absoluteFilePath infos = true ->
  exists infos' toExplore' w',
    visitNode absoluteFilePath relativeFilePath node (infos, toExplore) w
    = (Returned (infos', toExplore'), w')
    /\ fs w' = fs w
    /\ match node with
       | ImportDeclaration (StringLiteral importPath) =>
           let q := resolveImport absoluteFilePath importPath w in
           (isLocalTsImport absoluteFilePath importPath w ->
            infos' = addEdge absoluteFilePath q infos
            /\ In q (edgesOf absoluteFilePath infos')
            /\ toExplore' = if StrMap.has q infos then toExplore
                            else (toExplore ++ [q])%list)
           /\ (~ isLocalTsImport absoluteFilePath importPath w ->
               infos' = infos /\ toExplore' = toExplore)
       | _ => infos' = infos /\ toExplore' = toExplore
       end.
Proof.
  intros Hhas.
  destruct (visitNode_spec absoluteFilePath relativeFilePath node infos
              toExplore w Hhas) as (dbg & _ & Heq & _).
  rewrite Heq. clear Heq.
  destruct node as [[importPath|]|]; cbn [acceptedImport];
    try (eexists; eexists; eexists; split; [reflexivity|];
         split; [reflexivity|split; reflexivity]).
  pose proof (isLocalTsImport_iff absoluteFilePath importPath w) as Hiff.
  destruct (isRelativeSpecifier importPath
            && isExistingTsFile
                 (resolveImport absoluteFilePath importPath w) w) eqn:E;
    eexists; eexists; eexists; (split; [reflexivity|]);
    (split; [reflexivity|]); cbv zeta; split.
  - intros _. split; [reflexivity|]. split; [|reflexivity].
    rewrite edgesOf_addEdge_same by exact Hhas.
    apply StrSetFacts.In_add. now left.
  - intros Hnot. exfalso. apply Hnot, Hiff.
    now apply andb_true_iff in E.
  - intros Hloc. apply Hiff in Hloc. apply andb_true_iff in Hloc.
    congruence.
  - auto.
Qed.

End DiscoveryFacts.

(** ** Quiet computations *)

Section QuietFacts.

Lemma sched_app tr1 tr2 : sched (tr1 ++ tr2) = (sched tr1 ++ sched tr2)%list.
Proof. apply filter_app. Qed.

Lemma Quiet_ret A (a : A) : Quiet (ret a).
Proof.
  intros w. split; [exists []; now rewrite app_nil_r|auto].
Qed.

Lemma Quiet_throw A e : Quiet (@throw A e).
Proof.
  intros w. split; [exists []; now rewrite app_nil_r|auto].
Qed.

Lemma Quiet_emit e : isSched e = false -> Quiet (emit e).
Proof.
  intros He w. split; [|auto]. exists [e]. split; [reflexivity|].
  unfold sched. cbn [filter]. now rewrite He.
Qed.

Lemma Quiet_bind A B (m : Async A) (k : A -> Async B) :
  Quiet m -> (forall a, Quiet (k a)) -> Quiet (bind m k).
Proof.
  intros Hm Hk w. unfold bind.
  destruct (Hm w) as [(tr1 & Htr1 & Hs1) Hr1].
  destruct (m w) as [[a|e] w1]; cbn [snd] in *.
  - destruct (Hk a w1) as [(tr2 & Htr2 & Hs2) Hr2]. split.
    + exists (tr1 ++ tr2)%list. rewrite Htr2, Htr1, app_assoc.
      split; [reflexivity|]. now rewrite sched_app, Hs1, Hs2.
    + auto.
  - split; [exists tr1; auto|auto].
Qed.

Lemma Quiet_tryCatch A (m : Async A) (h : string -> Async A) :
  Quiet m -> (forall e, Quiet (h e)) -> Quiet (tryCatch m h).
Proof.
  intros Hm Hh w. unfold tryCatch.
  destruct (Hm w) as [(tr1 & Htr1 & Hs1) Hr1].
  destruct (m w) as [[a|e] w1]; cbn [snd] in *.
  - split; [exists tr1; auto|auto].
  - destruct (Hh e w1) as [(tr2 & Htr2 & Hs2) Hr2]. split.
    + exists (tr1 ++ tr2)%list. rewrite Htr2, Htr1, app_assoc.
      split; [reflexivity|]. now rewrite sched_app, Hs1, Hs2.
    + auto.
Qed.

Lemma Quiet_readFile path : Quiet (readFile path).
Proof.
  intros w. unfold readFile. run_async.
  destruct (fs w path) as [[text|msg]|]; cbn [snd fs trace];
    (split; [exists [ReadFile path]; auto|auto]).
Qed.

Lemma Quiet_outputFile path text : Quiet (outputFile path text).
Proof.
  intros w. unfold outputFile. cbn [snd fs trace]. split.
  - exists [OutputFile path text]. auto.
  - intros p. unfold readable.
    destruct (String.eqb_spec p path); auto.
Qed.

Lemma Quiet_forEach A (l : list A) (body : A -> Async unit) :
  (forall a, Quiet (body a)) -> Quiet (forEach l body).
Proof.
  intros Hbody. induction l as [|a l IH]; cbn [forEach].
  - apply Quiet_ret.
  - apply Quiet_bind; auto.
Qed.

End QuietFacts.

Create HintDb quiet.
#[local] Hint Resolve Quiet_ret Quiet_throw Quiet_emit Quiet_bind
  Quiet_tryCatch Quiet_readFile Quiet_outputFile Quiet_forEach : quiet.

(** One step of a proof that a computation is quiet. *)
Ltac quiet_step :=
  match goal with
  | |- forall _, Quiet _ => intro
  | |- Quiet (readFile _) => apply Quiet_readFile
  | |- Quiet (outputFile _ _) => apply Quiet_outputFile
  | |- Quiet (ret _) => apply Quiet_ret
  | |- Quiet (throw _) => apply Quiet_throw
  | |- Quiet (emit _) => apply Quiet_emit; reflexivity
  | |- Quiet (tryCatch _ _) => apply Quiet_tryCatch
  | |- Quiet (bind _ _) => apply Quiet_bind
  end.

Section GenerateQuiet.
Context {P : NodePath} {C : Collaborators}.

Lemma Quiet_prepareGeneratorConfig args fileConfig cliFlags ios :
  Quiet (prepareGeneratorConfig args fileConfig cliFlags ios).
Proof.
  unfold prepareGeneratorConfig.
  destruct (Js.nonEmpty (Js.or (Args.input args) _)); auto with quiet.
  match goal with
  | |- context [match ?l with [] => _ | _ :: _ => _ end] => destruct l
  end; auto with quiet.
Qed.

Lemma Quiet_loadExtraFiles inputPath ios :
  forall acc, Quiet (loadExtraFiles inputPath ios acc).
Proof.
  induction ios as [|io rest IH]; intros acc; cbn [loadExtraFiles].
  - auto with quiet.
  - destruct (negb _); [|apply IH].
    repeat quiet_step. apply IH.
Qed.


Lemma Quiet_validateGeneratedContent cliFlags inputPath outputPath core
      options ios :
  Quiet (validateGeneratedContent cliFlags inputPath outputPath core
           options ios).
Proof.
  unfold validateGeneratedContent.
  apply Quiet_bind; [auto with quiet|intros _].
  apply Quiet_bind; [destruct (Flags.all cliFlags); auto with quiet|].
  intros _. apply Quiet_bind; [apply Quiet_loadExtraFiles|intros extra].
  apply Quiet_bind; [auto with quiet|intros _].
  destruct (validateGeneratedTypesInWorker _); auto with quiet.
Qed.

Lemma Quiet_writeOutputFiles outputPath inputPath core options :
  Quiet (writeOutputFiles outputPath inputPath core options).
Proof.
  unfold writeOutputFiles. apply Quiet_bind.
  - destruct (Js.nonEmpty _); auto with quiet.
  - intros _. destruct (hasExtensions _ _); auto with quiet.
Qed.

Lemma Quiet_generate args fileConfig cliFlags ios :
  Quiet (generate args fileConfig cliFlags ios).
Proof.
  unfold generate.
  apply Quiet_bind; [apply Quiet_prepareGeneratorConfig|].
  intros [data|e]; [|auto with quiet].
  destruct (executeCoreGeneration _ _) as [core|e]; [|auto with quiet].
  apply Quiet_bind; [apply Quiet_forEach; auto with quiet|intros _].
  apply Quiet_bind.
  - destruct (negb _); [apply Quiet_validateGeneratedContent|].
    auto with quiet.
  - intros [[]|e]; [|auto with quiet].
    apply Quiet_bind; [apply Quiet_writeOutputFiles|auto with quiet].
Qed.

End GenerateQuiet.

(** ** The properties on the example project *)

Section Examples.
#[local] Existing Instance Demo.path.
#[local] Existing Instance Demo.collaborators.

Lemma circular_without_output_fails_witness :
  generate Demo.inputOnly None Demo.flags [] Demo.circularWorld
  = (Returned (Failure circularDependenciesError),
     mkWorld (fs Demo.circularWorld) [ReadFile "/proj/a.ts"]).
Proof.
  exact (proj1 (@circular_without_output_fails
                  Demo.path Demo.collaborators
                  Demo.inputOnly None Demo.flags [] Demo.circularWorld
                  Demo.circularData
                  (mkWorld (fs Demo.circularWorld) [ReadFile "/proj/a.ts"])
                  eq_refl eq_refl eq_refl)).
Defined.

Lemma validation_substitutes_fake_output_witness :
  outputForValidation "/proj/a.ts" "/proj/a.ts" = "/proj/source.zod.ts".
Proof.
  exact (proj1 (@validation_substitutes_fake_output
                  Demo.path Demo.collaborators
                  Demo.flags "/proj/a.ts" "/proj/a.ts"
                  (Demo.core (PrepareData.generateOptions Demo.plainData))
                  (PrepareData.generateOptions Demo.plainData) []
                  Demo.plainWorld (or_introl eq_refl))).
Defined.

(** C7. The fake output path does not keep the schemas apart from an
    input file that is itself named [source.zod.ts].  Generating over
    such a file, without an output path, substitutes the input's own
    path: the one request that validation sends has the generated
    schemas at the relative path of the source types, [source.zod.ts],
    so the schema file under validation is the file it imports the
    types from. *)
Theorem fake_output_is_the_input_named_source_zod :
  let inputPath := "/proj/source.zod.ts" in
  let w := Demo.world [(inputPath, "type A")] in
  let r := generate (Args.mk (Some "source.zod.ts") None) None Demo.flags []
                    w in
  outputForValidation inputPath inputPath = inputPath
  /\ fst r = Returned (Success tt)
  /\ exists request,
      filter (fun e => match e with
                       | WorkerValidation _ => true
                       | _ => false
                       end) (trace (snd r))
      = [WorkerValidation request]
      /\ SourceEntry.relativePath (WorkerRequest.sourceTypes request)
         = "source.zod.ts"
      /\ SourceEntry.relativePath (WorkerRequest.zodSchemas request)
         = "source.zod.ts".
Proof.
  cbv zeta. split; [vm_compute; reflexivity|].
  split; [vm_compute; reflexivity|].
  eexists. split; [vm_compute; reflexivity|].
  split; reflexivity.
Qed.

(** The generation of [a.ts] without an output path ends with the
    schemas in [a.ts]. *)
Example generate_overwrites_input :
  let w' := snd (generate Demo.inputOnly None Demo.flags []
                          Demo.plainWorld) in
  fs Demo.plainWorld "/proj/a.ts" = Some (File "type A")
  /\ fs w' "/proj/a.ts" = Some (File "// schemas for /")
  /\ last (trace w') (Log "")
     = OutputFile "/proj/a.ts" "// schemas for /".
Proof. cbv zeta. repeat split; vm_compute; reflexivity. Qed.

(** The import of [a.ts] by [b.ts] meets the condition, is recorded as
    an edge, and is not queued: [a.ts] is recorded already. *)
Lemma import_of_recorded_file_not_queued :
  isLocalTsImport "/proj/b.ts" "./a" Demo.cycleWorld
  /\ ~ recordedAndQueued "/proj/b.ts" "b.ts" "./a" Demo.cycleInfos []
                         Demo.cycleWorld.
Proof.
  split.
  - apply isLocalTsImport_iff. split; reflexivity.
  - intros (q & infos' & w' & Heq & _).
    vm_compute in Heq. discriminate Heq.
Qed.

Lemma import_edge_iff_local_ts_witness :
  exists infos' toExplore' w',
    visitNode "/proj/b.ts" "b.ts" (ImportDeclaration (StringLiteral "./a"))
              (Demo.cycleInfos, []) Demo.cycleWorld
    = (Returned (infos', toExplore'), w')
    /\ fs w' = fs Demo.cycleWorld
    /\ (isLocalTsImport "/proj/b.ts" "./a" Demo.cycleWorld ->
        infos' = addEdge "/proj/b.ts" "/proj/a.ts" Demo.cycleInfos
        /\ In "/proj/a.ts" (edgesOf "/proj/b.ts" infos')
        /\ toExplore' = [])
    /\ (~ isLocalTsImport "/proj/b.ts" "./a" Demo.cycleWorld ->
        infos' = Demo.cycleInfos /\ toExplore' = []).
Proof.
  exact (@import_edge_iff_local_ts Demo.path
           "/proj/b.ts" "b.ts"
           (ImportDeclaration (StringLiteral "./a")) Demo.cycleInfos []
           Demo.cycleWorld eq_refl).
Defined.

(** Discovery over the two files that import each other reads each of
    them once and ends. *)
Example discovery_of_a_cycle :
  let r := performFileDiscovery "/proj/a.ts" StrMap.empty 5 0
                                Demo.cycleWorld in
  fst r = Returned (Some [("/proj/a.ts", FileInfo.mk "a.ts" ["/proj/b.ts"]);
                          ("/proj/b.ts", FileInfo.mk "b.ts" ["/proj/a.ts"])])
  /\ trace (snd r)
     = [Log "Discovering imports in: a.ts (depth: 0)";
        ReadFile "/proj/a.ts";
        Log "Discovering imports in: b.ts (depth: 1)";
        ReadFile "/proj/b.ts"].
Proof. cbv zeta. split; vm_compute; reflexivity. Qed.

(** The scenario of the specification: with [maxDepth = 1] the shared
    file at depth 2 is not discovered, and a warning names it. *)
Example discovery_with_maxDepth_1 :
  let r := performFileDiscovery "/proj/seed.ts" StrMap.empty 1 0
                                Demo.diamondWorld in
  (exists infos,
      fst r = Returned (Some infos)
      /\ StrMap.keys infos
         = ["/proj/seed.ts"; "/proj/left.ts"; "/proj/right.ts"])
  /\ In (Warn "Maximum depth of 1 reached for shared.ts. Stopping further discovery on this path.")
        (trace (snd r)).
Proof.
  split.
  - eexists. split; [vm_compute; reflexivity|reflexivity].
  - vm_compute. auto 10.
Qed.

End Examples.

(** ** The configs of nested generation *)

Module ReplaceTsExtFacts.

Lemma substring_append_l (a b : string) :
  substring 0 (String.length a) (a ++ b) = a.
Proof.
  induction a as [|c a IH]; simpl; [now destruct b|now rewrite IH].
Qed.

Lemma append_inj_last (a b : string) (c d : ascii) :
  a ++ String c "" = b ++ String d "" -> a = b /\ c = d.
Proof.
  revert b. induction a as [|x a IH]; intros [|y b]; simpl; intros H.
  - now injection H.
  - injection H as _ H. now destruct b.
  - injection H as _ H. now destruct a.
  - injection H as -> H. destruct (IH _ H) as [-> ->]. auto.
Qed.

Lemma substring_split (n : nat) (s : string) :
  (n <= String.length s)%nat ->
  s = substring 0 n s ++ substring n (String.length s - n) s.
Proof.
  revert s. induction n as [|n IH]; intros s Hn.
  - rewrite Nat.sub_0_r, JsMoreFacts.substring_all. now destruct s.
  - destruct s as [|c s]; simpl in *; [lia|].
    f_equal. apply IH. lia.
Qed.

Lemma endsWith_true (s suf : string) :
  Js.endsWith s suf = true -> exists pre, s = pre ++ suf.
Proof.
  unfold Js.endsWith. intros H. apply andb_true_iff in H.
  destruct H as [Hlen Heq]. apply Nat.leb_le in Hlen.
  apply String.eqb_eq in Heq.
  exists (substring 0 (String.length s - String.length suf) s).
  pose proof (@substring_split (String.length s - String.length suf) s)
    as Hs.
  replace (String.length s - (String.length s - String.length suf))%nat
    with (String.length suf) in Hs by lia.
  rewrite Heq in Hs. apply Hs. lia.
Qed.

(** A path ending in [.ts] does not end in [.tsx]. *)
Lemma ts_is_not_tsx (stem : string) : Js.endsWith (stem ++ ".ts") ".tsx" = false.
Proof.
  destruct (Js.endsWith (stem ++ ".ts") ".tsx") eqn:E; [|reflexivity].
  apply endsWith_true in E. destruct E as (pre & Hpre).
  change ".ts" with (".t" ++ String "s" "") in Hpre.
  change ".tsx" with (".ts" ++ String "x" "") in Hpre.
  rewrite <- !JsFacts.append_assoc in Hpre.
  apply append_inj_last in Hpre. destruct Hpre as [_ Hch]. discriminate.
Qed.

Lemma replaceTsExt_ts (stem : string) :
  Js.replaceTsExt (stem ++ ".ts") = stem ++ ".zod.ts".
Proof.
  unfold Js.replaceTsExt.
  rewrite ts_is_not_tsx, JsMoreFacts.endsWith_append.
  rewrite JsMoreFacts.length_append. simpl String.length.
  replace (String.length stem + 3 - 3)%nat with (String.length stem) by lia.
  now rewrite substring_append_l.
Qed.

Lemma replaceTsExt_tsx (stem : string) :
  Js.replaceTsExt (stem ++ ".tsx") = stem ++ ".zod.ts".
Proof.
  unfold Js.replaceTsExt. rewrite JsMoreFacts.endsWith_append.
  rewrite JsMoreFacts.length_append. simpl String.length.
  replace (String.length stem + 4 - 4)%nat with (String.length stem) by lia.
  now rewrite substring_append_l.
Qed.

Lemma replaceTsExt_other (s : string) :
  Js.endsWith s ".ts" = false -> Js.endsWith s ".tsx" = false ->
  Js.replaceTsExt s = s.
Proof. unfold Js.replaceTsExt. now intros -> ->. Qed.

End ReplaceTsExtFacts.

Section NestedConfigFacts.

Lemma In_set V (k k' : string) (v v' : V) (m : StrMap.t V) :
  In (k', v') (StrMap.set k v m) -> (k' = k /\ v' = v) \/ In (k', v') m.
Proof.
  induction m as [|[k0 v0] m IH]; simpl.
  - intros [[= <- <-]|[]]. now left.
  - destruct (String.eqb_spec k k0); simpl.
    + intros [[= <- <-]|H]; auto.
    + intros [H|H]; auto. destruct (IH H); auto.
Qed.

Lemma In_nestedDependencies infos info d :
  In d (nestedDependencies infos info) <->
  In d (FileInfo.localImportAbsPaths info) /\ StrMap.has d infos = true.
Proof.
  unfold nestedDependencies.
  assert (H : forall l acc,
             In d (fold_left
                     (fun deps importedAbsPath =>
                        if StrMap.has importedAbsPath infos
                        then StrSet.add importedAbsPath deps else deps)
                     l acc)
             <-> In d acc \/ (In d l /\ StrMap.has d infos = true)).
  { induction l as [|x l IH]; intros acc; cbn [fold_left In].
    - tauto.
    - rewrite IH. destruct (StrMap.has x infos) eqn:E.
      + rewrite StrSetFacts.In_add. intuition (subst; auto).
      + intuition (subst; auto). congruence. }
  rewrite H. cbn [StrSet.empty In]. tauto.
Qed.

Lemma NoDup_nestedDependencies infos info :
  NoDup (nestedDependencies infos info).
Proof.
  unfold nestedDependencies.
  generalize (FileInfo.localImportAbsPaths info) as l.
  assert (H : forall l acc, NoDup acc ->
             NoDup (fold_left
                      (fun deps importedAbsPath =>
                         if StrMap.has importedAbsPath infos
                         then StrSet.add importedAbsPath deps else deps)
                      l acc)).
  { induction l as [|x l IH]; intros acc Hacc; cbn [fold_left]; auto.
    apply IH. destruct (StrMap.has x infos); auto.
    now apply StrSetFacts.NoDup_add. }
  intros l. apply H. constructor.
Qed.

Lemma configsForGeneration_fold cliFlags infos :
  forall l acc,
    let result :=
      fold_left
        (fun configs (entry : string * FileInfo.t) =>
           let (absPath, info) := entry in
           StrMap.set absPath
             (DiscoveredConfig.mk absPath (nestedConfig cliFlags info)
                (nestedDependencies infos info))
             configs)
        l acc in
    (NoDup (StrMap.keys acc) -> NoDup (StrMap.keys result))
    /\ (forall k item,
          In (k, item) result ->
          In (k, item) acc
          \/ exists info, In (k, info) l
                          /\ item = builtFor cliFlags infos k info)
    /\ (forall k, In k (StrMap.keys result) <->
                  In k (StrMap.keys acc) \/ In k (StrMap.keys l)).
Proof.
  induction l as [|[k0 info0] l IH]; intros acc; cbn [fold_left].
  - cbv zeta. split; [auto|]. split; [auto|]. intros k. cbn. tauto.
  - specialize (IH (StrMap.set k0 (builtFor cliFlags infos k0 info0) acc)).
    cbv zeta in *. destruct IH as (Hnd & Hin & Hkeys).
    split; [|split].
    + intros H. apply Hnd. now apply StrMapFacts.NoDup_keys_set.
    + intros k item Hitem. destruct (Hin k item Hitem) as [H|(info & H & ->)].
      * apply In_set in H. destruct H as [[-> ->]|H]; [right|now left].
        exists info0. split; [now left|reflexivity].
      * right. exists info. split; [now right|reflexivity].
    + intros k. rewrite Hkeys.
      rewrite <- !StrMapFacts.has_In_keys, StrMapFacts.has_set.
      rewrite orb_true_iff, String.eqb_eq, !StrMapFacts.has_In_keys.
      change (StrMap.keys ((k0, info0) :: l)) with (k0 :: StrMap.keys l).
      cbn [In]. intuition auto.
Qed.

Lemma allConfigs_built cliFlags infos item :
  In item (allConfigsToGenerate cliFlags infos) ->
  exists info,
    In (DiscoveredConfig.id item, info) infos
    /\ item = builtFor cliFlags infos (DiscoveredConfig.id item) info.
Proof.
  unfold allConfigsToGenerate, configsForGeneration. intros Hin.
  apply in_map_iff in Hin. destruct Hin as ([k item'] & <- & Hin).
  destruct (configsForGeneration_fold cliFlags infos infos StrMap.empty)
    as (_ & Hspec & _).
  destruct (Hspec k item' Hin) as [[]|(info & Hinfo & ->)].
  exists info. auto.
Qed.

(** The ids of the configs are the keys of the discovered map, each
    once. *)
Lemma allConfigs_ids cliFlags infos :
  NoDup (map DiscoveredConfig.id (allConfigsToGenerate cliFlags infos))
  /\ (forall k,
        In k (map DiscoveredConfig.id (allConfigsToGenerate cliFlags infos))
        <-> In k (StrMap.keys infos)).
Proof.
  unfold allConfigsToGenerate, configsForGeneration.
  destruct (configsForGeneration_fold cliFlags infos infos StrMap.empty)
    as (Hnd & Hspec & Hkeys). cbv zeta in *.
  set (result := fold_left _ infos StrMap.empty) in *.
  assert (Hids : map DiscoveredConfig.id (map snd result)
                 = StrMap.keys result).
  { unfold StrMap.keys. rewrite map_map. apply map_ext_in.
    intros [k item] Hin. destruct (Hspec k item Hin) as [[]|(info & _ & ->)].
    reflexivity. }
  rewrite Hids. split.
  - apply Hnd. constructor.
  - intros k. rewrite Hkeys. cbn. tauto.
Qed.

(** C10. Every config of nested generation is built from an entry of
    the discovered map: its input is the entry's relative path, its output
    that path with a final [.ts] or [.tsx] replaced by [.zod.ts], its
    [keepComments] and [skipParseJSDoc] are the flags, [false] when
    absent, and it sets no other field; its dependencies are the entry's
    imports that are keys of the discovered map. *)
Theorem nested_config_shape cliFlags infos item :
  In item (allConfigsToGenerate cliFlags infos) ->
  exists info,
    In (DiscoveredConfig.id item, info) infos
    /\ let c := DiscoveredConfig.config item in
       let rel := FileInfo.relativePath info in
       Config.input c = rel
       /\ Config.output c = Js.replaceTsExt rel
       /\ (forall stem, rel = stem ++ ".ts" ->
                        Config.output c = stem ++ ".zod.ts")
       /\ (forall stem, rel = stem ++ ".tsx" ->
                        Config.output c = stem ++ ".zod.ts")
       /\ Config.keepComments c
          = Some (Js.orFalse (Flags.keepComments cliFlags))
       /\ Config.skipParseJSDoc c
          = Some (Js.orFalse (Flags.skipParseJSDoc cliFlags))
       /\ Config.name c = None
       /\ Config.nameFilter c = None
       /\ Config.jsDocTagFilter c = None
       /\ Config.getSchemaName c = None
       /\ Config.inferredTypes c = None
       /\ Config.customJSDocFormatTypes c = None
       /\ (forall dep,
             In dep (DiscoveredConfig.dependencies item) <->
             In dep (FileInfo.localImportAbsPaths info)
             /\ In dep (StrMap.keys infos)).
Proof.
  intros Hin. destruct (allConfigs_built _ _ _ Hin) as (info & Hinfo & Heq).
  exists info. split; [exact Hinfo|]. rewrite Heq. cbv zeta.
  cbn [builtFor DiscoveredConfig.config DiscoveredConfig.dependencies
       nestedConfig Config.input Config.output Config.keepComments
       Config.skipParseJSDoc Config.name Config.nameFilter
       Config.jsDocTagFilter Config.getSchemaName Config.inferredTypes
       Config.customJSDocFormatTypes].
  repeat (split; [reflexivity|]).
  split; [intros stem ->; apply ReplaceTsExtFacts.replaceTsExt_ts|].
  split; [intros stem ->; apply ReplaceTsExtFacts.replaceTsExt_tsx|].
  repeat (split; [reflexivity|]).
  intros dep. rewrite In_nestedDependencies, StrMapFacts.has_In_keys.
  tauto.
Qed.

End NestedConfigFacts.

(** ** The bound of discovery *)

Section DiscoveryBound.
Context {P : NodePath} {C : Collaborators}.

(** C5. A discovery call whose depth exceeds [maxDepth] returns the map
    as it is, after the warning that names the path, and reads
    nothing; hence a discovery from the seed returns a map that records
    only files that are at most [maxDepth] imports away from the seed,
    and with [maxDepth = 1] a file that is not within one import of the
    seed is neither recorded nor among the configs that nested
    generation builds from the map. *)
Theorem discovery_bounded_by_maxDepth path infos maxDepth d cliFlags w :
  ((maxDepth < d)%Z ->
   performFileDiscovery path infos maxDepth d w
   = (Returned (Some infos),
      mkWorld (fs w)
              (trace w ++ [Warn (maxDepthWarning maxDepth path)])%list)
   /\ Js.occursIn (slash (relative cwd path))
                  (maxDepthWarning maxDepth path))
  /\ (exists infos' tr,
        performFileDiscovery path StrMap.empty maxDepth 0 w
        = (Returned (Some infos'), mkWorld (fs w) (trace w ++ tr)%list)
        /\ forall r, In r (StrMap.keys infos') ->
                     within w (Z.to_nat maxDepth) path r)
  /\ (exists infos' tr,
        performFileDiscovery path StrMap.empty 1 0 w
        = (Returned (Some infos'), mkWorld (fs w) (trace w ++ tr)%list)
        /\ forall r,
             ~ within w 1 path r ->
             ~ In r (StrMap.keys infos')
             /\ ~ In r (map DiscoveredConfig.id
                            (allConfigsToGenerate cliFlags infos'))).
Proof.
  assert (Hbound : forall m,
             exists infos' tr,
               performFileDiscovery path StrMap.empty m 0 w
               = (Returned (Some infos'), mkWorld (fs w) (trace w ++ tr)%list)
               /\ forall r, In r (StrMap.keys infos') ->
                            within w (Z.to_nat m) path r).
  { intros m.
    destruct (performFileDiscovery_spec path StrMap.empty m 0 w)
      as (infos1 & tr & Heq & _ & _ & _ & Hb).
    exists infos1, tr. split; [exact Heq|].
    intros r Hr. destruct (Hb r Hr) as [[]|[_ Hw]].
    now rewrite Z.sub_0_r in Hw. }
  split; [|split].
  - intros Hd. split.
    + unfold performFileDiscovery, discoveryFuel.
      cbn [performFileDiscoveryFuel].
      replace (d >? maxDepth)%Z with true
        by (symmetry; rewrite Z.gtb_ltb; now apply Z.ltb_lt).
      run_async. reflexivity.
    + unfold maxDepthWarning.
      do 3 apply JsFacts.occursIn_app_r.
      apply JsFacts.occursIn_app_l, JsFacts.occursIn_refl.
  - exact (Hbound maxDepth).
  - destruct (Hbound 1%Z) as (infos' & tr & Heq & Hw).
    exists infos', tr. split; [exact Heq|].
    intros r Hnot.
    assert (Hkeys : ~ In r (StrMap.keys infos'))
      by (intros Hin; exact (Hnot (Hw r Hin))).
    split; [exact Hkeys|].
    intros Hin. apply Hkeys.
    now apply (proj2 (allConfigs_ids cliFlags infos')).
Qed.

End DiscoveryBound.

(** ** The batches of nested generation *)

Section PromiseFacts.
Variable A : Type.

Lemma takeNth_perm (n : nat) (x : A) (rest : list A) :
  Permutation (fst (takeNth n x rest) :: snd (takeNth n x rest)) (x :: rest).
Proof.
  revert x rest. induction n as [|n IH]; intros x rest.
  - destruct rest; reflexivity.
  - destruct rest as [|y rest]; [reflexivity|]. cbn [takeNth].
    specialize (IH y rest). destruct (takeNth n y rest) as [a r].
    cbn [fst snd] in *. rewrite perm_swap. now apply perm_skip.
Qed.

Lemma takeNth_length (n : nat) (x : A) (rest : list A) :
  List.length (snd (takeNth n x rest)) = List.length rest.
Proof.
  pose proof (Permutation_length (takeNth_perm n x rest)) as H.
  cbn [List.length] in H. lia.
Qed.

End PromiseFacts.

Lemma extends_refl w : extends w w [].
Proof. split; [now rewrite app_nil_r|auto]. Qed.

Lemma extends_trans w1 w2 w3 tr1 tr2 :
  extends w1 w2 tr1 -> extends w2 w3 tr2 -> extends w1 w3 (tr1 ++ tr2).
Proof.
  intros [Ht1 Hr1] [Ht2 Hr2]. split; [|auto].
  now rewrite Ht2, Ht1, app_assoc.
Qed.

Lemma extends_emit w e :
  extends w (mkWorld (fs w) (trace w ++ [e])%list) [e].
Proof. split; auto. Qed.

Lemma In_addAll done generated x :
  In x (addAll done generated) <->
  In x generated \/ In x (map DiscoveredConfig.id done).
Proof.
  unfold addAll. revert generated.
  induction done as [|item done IH]; intros generated; cbn [fold_left map In].
  - tauto.
  - rewrite IH, StrSetFacts.In_add. intuition.
Qed.

Section SchedulerFacts.
Context {P : NodePath} {C : Collaborators}.
Variable pickItem : World -> list DiscoveredConfig.t -> nat.
Variable cliFlags : Flags.t.
Variable globalIoMappings : list InputOutputMapping.t.

(** The settling call of [generate] runs [generate] and records how it
    settled. *)
Lemma generateSettling_spec key args fileConfig flags ios w :
  exists out w' w1 pre b,
    generateSettling key args fileConfig flags ios w = (out, w')
    /\ extends w w1 pre /\ sched pre = []
    /\ w' = mkWorld (fs w1) (trace w1 ++ [GenerateSettled key b])%list
    /\ ((exists r, generate args fileConfig flags ios w = (Returned r, w1)
                   /\ out = Returned r /\ b = isSuccess r)
        \/ (exists e, generate args fileConfig flags ios w = (Threw e, w1)
                      /\ out = Threw e /\ b = false)).
Proof.
  unfold generateSettling.
  destruct (Quiet_generate args fileConfig flags ios w)
    as [(pre & Htr & Hs) Hr].
  destruct (generate args fileConfig flags ios w) as [[r|e] w1] eqn:Hgen;
    cbn [snd] in *; run_async; rewrite Hgen; cbn [fs trace].
  - exists (Returned r), (mkWorld (fs w1)
                            (trace w1 ++ [GenerateSettled key (isSuccess r)])),
      w1, pre, (isSuccess r).
    split; [reflexivity|]. split; [split; assumption|].
    split; [assumption|]. split; [reflexivity|]. left. exists r. auto.
  - exists (Threw e), (mkWorld (fs w1)
                         (trace w1 ++ [GenerateSettled key false])),
      w1, pre, false.
    split; [reflexivity|]. split; [split; assumption|].
    split; [assumption|]. split; [reflexivity|]. right. exists e. auto.
Qed.

(** A finished callback has settled its generation: with success, and
    the id is added to the set, or without, and the callback throws. *)
Lemma finishItem_spec item generated w :
  exists out w' tr b,
    finishItem cliFlags globalIoMappings item generated w = (out, w')
    /\ extends w w' tr
    /\ sched tr = [GenerateSettled (DiscoveredConfig.id item) b]
    /\ (out = Returned (StrSet.add (DiscoveredConfig.id item) generated)
        /\ b = true
        \/ (exists e, out = Threw e) /\ b = false).
Proof.
  unfold finishItem.
  destruct (generateSettling_spec (DiscoveredConfig.id item) Args.none
              (Some (DiscoveredConfig.config item)) cliFlags
              globalIoMappings w)
    as (out & w' & w1 & pre & b & Heq & Hext & Hs & Hw' & Hcase).
  unfold bind at 1. rewrite Heq.
  assert (Hext' : extends w w'
                    (pre ++ [GenerateSettled (DiscoveredConfig.id item) b])).
  { subst w'. eapply extends_trans; [exact Hext|]. apply extends_emit. }
  assert (Hs' : sched (pre ++ [GenerateSettled (DiscoveredConfig.id item) b])
                = [GenerateSettled (DiscoveredConfig.id item) b])
    by (rewrite sched_app, Hs; reflexivity).
  destruct Hcase as [(r & _ & -> & ->)|(e & _ & -> & ->)].
  - destruct r as [[]|e]; run_async; cbn [isSuccess] in *.
    + eexists; eexists;
        exists (pre ++ [GenerateSettled (DiscoveredConfig.id item) true]
                ++ [Log ("🎉 Zod schemas generated for "
                         ++ itemOutput item ++ "!")])%list, true.
      split; [reflexivity|]. split; [|split; [|now left]].
      * rewrite app_assoc. eapply extends_trans; [exact Hext'|].
        apply extends_emit.
      * rewrite app_assoc, sched_app, Hs'. reflexivity.
    + eexists; eexists; eexists; exists false.
      split; [reflexivity|]. split; [exact Hext'|]. split; [exact Hs'|].
      right. split; [eexists; reflexivity|reflexivity].
  - eexists; eexists; eexists; exists false.
    split; [reflexivity|]. split; [exact Hext'|]. split; [exact Hs'|].
    right. split; [eexists; reflexivity|reflexivity].
Qed.

Lemma settleAll_spec :
  forall n pending generated w,
    List.length pending = n ->
    exists out w' tr done,
      settleAll pickItem (finishItem cliFlags globalIoMappings) pending n
                generated w = (out, w')
      /\ extends w w' tr
      /\ (out = Returned (addAll done generated)
          /\ Permutation done pending
          /\ sched tr = settledOk done
          \/ exists e failed,
               out = Threw e
               /\ incl (failed :: done) pending
               /\ sched tr
                  = (settledOk done
                     ++ [GenerateSettled (DiscoveredConfig.id failed) false])
                    %list).
Proof.
  induction n as [|n IH]; intros pending generated w Hlen.
  - destruct pending; [|discriminate]. cbn [settleAll].
    exists (Returned generated), w, [], []. split; [reflexivity|].
    split; [apply extends_refl|]. left. repeat split. constructor.
  - destruct pending as [|x rest]; [discriminate|]. cbn [settleAll].
    pose proof (takeNth_perm (pickItem w (x :: rest)) x rest) as Hperm.
    pose proof (takeNth_length (pickItem w (x :: rest)) x rest) as Hlen'.
    destruct (takeNth (pickItem w (x :: rest)) x rest) as [a pending'].
    cbn [fst snd] in *.
    destruct (finishItem_spec a generated w)
      as (out1 & w1 & tr1 & b & Heq1 & Hext1 & Hs1 & Hcase).
    unfold bind. rewrite Heq1.
    destruct Hcase as [[-> ->]|[(e & ->) ->]].
    + destruct (IH pending' (StrSet.add (DiscoveredConfig.id a) generated) w1)
        as (out & w' & tr2 & done & Heq & Hext & Hres);
        [cbn [List.length] in Hlen; lia|].
      exists out, w', (tr1 ++ tr2)%list.
      destruct Hres as [(-> & Hp & Hs)|(e & failed & -> & Hincl & Hs)].
      * exists (a :: done). split; [exact Heq|].
        split; [eapply extends_trans; eassumption|]. left.
        split; [reflexivity|]. split.
        -- rewrite <- Hperm. now apply perm_skip.
        -- rewrite sched_app, Hs1, Hs. reflexivity.
      * exists (a :: done). split; [exact Heq|].
        split; [eapply extends_trans; eassumption|]. right.
        exists e, failed. split; [reflexivity|]. split.
        -- intros y Hy. apply (Permutation_in _ Hperm).
           destruct Hy as [<-|[<-|Hy]].
           ++ right. apply Hincl. now left.
           ++ now left.
           ++ right. apply Hincl. now right.
        -- rewrite sched_app, Hs1, Hs. reflexivity.
    + exists (Threw e), w1, tr1, []. split; [reflexivity|].
      split; [exact Hext1|]. right. exists e, a.
      split; [reflexivity|]. split; [|exact Hs1].
      intros y [<-|[]]. apply (Permutation_in _ Hperm). now left.
Qed.

(** The callbacks are all started, in the order of the batch, before
    anything settles. *)
Lemma startAll_spec items w :
  exists w' tr,
    forEach items startItem w = (Returned tt, w')
    /\ extends w w' tr /\ fs w' = fs w /\ sched tr = calls items.
Proof.
  revert w. induction items as [|item items IH]; intros w; cbn [forEach].
  - exists w, []. split; [reflexivity|]. split; [apply extends_refl|auto].
  - unfold startItem at 1. run_async.
    match goal with
    | |- context [forEach items startItem ?v] =>
        destruct (IH v) as (w' & tr & Heq & Hext & Hfs & Hs)
    end.
    exists w'. eexists (Log _ :: GenerateCalled _ :: tr).
    split; [exact Heq|]. destruct Hext as [Htr Hr]. cbn [fs trace] in *.
    split; [split; [|exact Hr]|split; [exact Hfs|]].
    + rewrite Htr, <- !app_assoc. reflexivity.
    + unfold sched in *. cbn [filter isSched calls map]. now rewrite Hs.
Qed.

(** One turn of the loop. *)
Lemma loopIteration_spec st w :
  let queue := LoopState.generationQueue st in
  let batch := batchToGenerate st in
  exists out w' tr,
    loopIteration pickItem cliFlags globalIoMappings st w = (out, w')
    /\ extends w w' tr
    /\ (queue = []
        /\ out = Returned (Finished (LoopState.totalGeneratedCount st))
        /\ tr = []
        \/ queue <> [] /\ batch = []
           /\ out = Threw (orderError queue)
           /\ tr = [FatalError (orderError queue)] /\ fs w' = fs w
        \/ queue <> [] /\ batch <> []
           /\ exists done,
               (out = Returned
                        (Continue
                           (LoopState.mk
                              (addAll done (LoopState.generatedConfigIds st))
                              (withoutBatch batch queue)
                              (LoopState.totalGeneratedCount st
                               + List.length batch)))
                /\ Permutation done batch
                /\ sched tr = (calls batch ++ settledOk done)%list
                \/ exists e failed,
                     out = Threw e
                     /\ incl (failed :: done) batch
                     /\ sched tr
                        = (calls batch ++ settledOk done
                           ++ [GenerateSettled (DiscoveredConfig.id failed)
                                               false])%list)).
Proof.
  intros queue batch. unfold loopIteration. fold queue. fold batch.
  destruct queue as [|q0 queue'] eqn:Equeue.
  { exists (Returned (Finished (LoopState.totalGeneratedCount st))), w, [].
    split; [reflexivity|]. split; [apply extends_refl|]. now left. }
  destruct batch as [|b0 batch'] eqn:Ebatch.
  { eexists; eexists; eexists. split; [reflexivity|].
    split; [apply extends_emit|]. right. left. cbn [fs].
    repeat split; auto. discriminate. }
  rewrite <- Ebatch. rewrite <- Equeue.
  assert (Hq : queue <> []) by (rewrite Equeue; discriminate).
  assert (Hb : batch <> []) by (rewrite Ebatch; discriminate).
  unfold bind at 1. unfold emit at 1.
  set (w0 := mkWorld (fs w) _).
  assert (Hext0 : exists e, extends w w0 [e] /\ isSched e = false)
    by (eexists; split; [apply extends_emit|reflexivity]).
  destruct Hext0 as (e0 & Hext0 & He0).
  unfold promiseAllMap, tryCatch, bind.
  destruct (startAll_spec batch w0) as (w1 & tr1 & -> & Hext1 & _ & Hs1).
  destruct (@settleAll_spec (List.length batch) batch
              (LoopState.generatedConfigIds st) w1 eq_refl)
    as (out & w2 & tr2 & done & -> & Hext2 & Hres).
  assert (Hext : extends w w2 ([e0] ++ tr1 ++ tr2))
    by (eapply extends_trans; [exact Hext0|];
        eapply extends_trans; eassumption).
  assert (Hs : sched ([e0] ++ tr1 ++ tr2)
               = (calls batch ++ sched tr2)%list).
  { rewrite !sched_app, Hs1. unfold sched at 1. cbn [filter].
    now rewrite He0. }
  destruct Hres as [(-> & Hp & Hs2)|(e & failed & -> & Hincl & Hs2)].
  - fold (withoutBatch batch queue).
    destruct (withoutBatch batch queue) eqn:Erest; run_async.
    + eexists; eexists; exists ([e0] ++ tr1 ++ tr2)%list.
      split; [reflexivity|].
      split; [destruct w2; exact Hext|]. right. right.
      split; [exact Hq|]. split; [exact Hb|]. exists done. left.
      rewrite Hs, Hs2. auto.
    + eexists; eexists; exists (([e0] ++ tr1 ++ tr2) ++ [Log ""])%list.
      split; [reflexivity|].
      split; [eapply extends_trans; [exact Hext|apply extends_emit]|].
      right. right. split; [exact Hq|]. split; [exact Hb|]. exists done. left.
      rewrite sched_app, Hs, Hs2. cbn [sched filter isSched].
      rewrite app_nil_r. auto.
  - run_async.
    eexists; eexists;
      exists (([e0] ++ tr1 ++ tr2)
              ++ [FatalError ("Error during batch generation: " ++ e)])%list.
    split; [reflexivity|].
    split; [eapply extends_trans; [exact Hext|apply extends_emit]|].
    right. right. split; [exact Hq|]. split; [exact Hb|]. exists done. right.
    exists ("Error during batch generation: " ++ e), failed.
    split; [reflexivity|]. split; [exact Hincl|].
    rewrite sched_app, Hs, Hs2. cbn [sched filter isSched].
    now rewrite app_nil_r.
Qed.

End SchedulerFacts.

(** ** Schedules *)

Section ScheduleFacts.

Lemma app_eq_elem A (l1 l2 pre post : list A) (x : A) :
  (l1 ++ l2 = pre ++ x :: post)%list ->
  (exists l, l1 = pre ++ x :: l /\ post = l ++ l2)%list
  \/ (exists l, pre = l1 ++ l /\ l2 = l ++ x :: post)%list.
Proof.
  intros H. apply app_eq_app in H.
  destruct H as (l & [[H1 H2]|[H1 H2]]).
  - destruct l as [|y l]; cbn [app] in H2.
    + right. exists []. rewrite app_nil_r in H1. subst. now rewrite app_nil_r.
    + injection H2 as <- ->. left. exists l. auto.
  - right. exists l. auto.
Qed.

Lemma In_calls x items :
  In (GenerateCalled x) (calls items)
  <-> exists b, In b items /\ DiscoveredConfig.id b = x.
Proof.
  unfold calls. rewrite in_map_iff. split.
  - intros (b & [= <-] & Hb). eauto.
  - intros (b & Hb & <-). eauto.
Qed.

Lemma calls_only_called e items :
  In e (calls items) -> exists x, e = GenerateCalled x.
Proof. unfold calls. rewrite in_map_iff. intros (b & <- & _). eauto. Qed.

Lemma In_settledOk x b items :
  In (GenerateSettled x b) (settledOk items)
  <-> b = true /\ In x (map DiscoveredConfig.id items).
Proof.
  unfold settledOk. rewrite !in_map_iff. split.
  - intros (i & [= <- <-] & Hi). eauto.
  - intros (-> & i & <- & Hi). eauto.
Qed.

Lemma settledOk_isSettled items : Forall isSettled (settledOk items).
Proof.
  unfold settledOk. apply Forall_forall. intros e He.
  apply in_map_iff in He. destruct He as (i & <- & _). exact I.
Qed.

Lemma same_id_same_item (l : list DiscoveredConfig.t) a b :
  NoDup (map DiscoveredConfig.id l) -> In a l -> In b l ->
  DiscoveredConfig.id a = DiscoveredConfig.id b -> a = b.
Proof.
  induction l as [|x l IH]; cbn [map In]; [easy|].
  intros Hnd Ha Hb Hid. inversion Hnd as [|? ? Hnotin Hnd']; subst.
  destruct Ha as [->|Ha], Hb as [->|Hb]; auto.
  - exfalso. apply Hnotin. rewrite Hid. now apply in_map.
  - exfalso. apply Hnotin. rewrite <- Hid. now apply in_map.
Qed.

Lemma isReady_iff generated item :
  isReady generated item = true
  <-> forall dep, In dep (DiscoveredConfig.dependencies item) ->
                  In dep generated.
Proof.
  unfold isReady. rewrite forallb_forall.
  split; intros H dep Hdep; apply StrSetFacts.has_In; auto.
Qed.

Lemma In_batch st item :
  In item (batchToGenerate st)
  <-> In item (LoopState.generationQueue st)
      /\ forall dep, In dep (DiscoveredConfig.dependencies item) ->
                     In dep (LoopState.generatedConfigIds st).
Proof. unfold batchToGenerate. now rewrite filter_In, isReady_iff. Qed.

Lemma LoopInv_initial queue0 : LoopInv queue0 (initialLoopState queue0) [].
Proof.
  constructor; cbn.
  - tauto.
  - tauto.
  - apply incl_refl.
  - intros pre post item H. now destruct pre.
  - intros pre y b mid z post H. now destruct pre.
Qed.

(** The schedule of one batch, appended to a schedule that satisfies the
    invariant, keeps the order of dependencies and the barrier. *)
Lemma block_respects queue0 st s settles :
  LoopInv queue0 st s ->
  NoDup (map DiscoveredConfig.id queue0) ->
  Forall isSettled settles ->
  DepsRespected queue0 (s ++ calls (batchToGenerate st) ++ settles)
  /\ Barrier (s ++ calls (batchToGenerate st) ++ settles).
Proof.
  intros Hinv Hnd Hsettles.
  set (batch := batchToGenerate st).
  assert (Hnocall : forall l x post,
             settles <> (l ++ GenerateCalled x :: post)%list).
  { intros l x post Heq. rewrite Forall_forall in Hsettles.
    assert (Hin : In (GenerateCalled x) settles)
      by (rewrite Heq; apply in_elt).
    exact (Hsettles _ Hin). }
  split.
  - intros pre post item Heq Hitem dep Hdep.
    apply app_eq_elem in Heq. destruct Heq as [(l & Hs & _)|(l & -> & Heq)].
    + exact (inv_deps Hinv _ _ _ Hs Hitem dep Hdep).
    + apply in_or_app. left.
      apply app_eq_elem in Heq. destruct Heq as [(l' & Hc & _)|(l' & _ & Heq)];
        [|now apply Hnocall in Heq].
      assert (Hb : exists b, In b batch
                             /\ DiscoveredConfig.id b = DiscoveredConfig.id item)
        by (apply In_calls; rewrite Hc; apply in_elt).
      destruct Hb as (b & Hb & Hid).
      apply In_batch in Hb. destruct Hb as [Hbq Hready].
      assert (b = item)
        by (apply (same_id_same_item queue0); auto;
            now apply (inv_queue Hinv)).
      subst b. apply (inv_generated Hinv). auto.
  - intros pre y b mid z post Heq x Hx.
    rewrite app_comm_cons, (app_assoc pre) in Heq.
    apply app_eq_elem in Heq. destruct Heq as [(l & Hs & _)|(l & Hpre & Heq)].
    + rewrite <- app_assoc, <- app_comm_cons in Hs.
      exact (inv_barrier Hinv _ _ _ _ _ _ Hs x Hx).
    + apply app_eq_elem in Heq. destruct Heq as [(l' & Hc & _)|(l' & _ & Heq)];
        [|now apply Hnocall in Heq].
      symmetry in Hpre. apply app_eq_elem in Hpre.
      destruct Hpre as [(l0 & Hs & Hmid)|(l0 & _ & Hl)].
      * assert (Hin : In (GenerateSettled x true) s).
        { apply (inv_settled Hinv). rewrite Hs. apply in_or_app. now left. }
        rewrite Hmid, app_comm_cons, app_assoc, <- Hs.
        apply in_or_app. now left.
      * exfalso.
        assert (Hin : In (GenerateSettled y b) (calls batch))
          by (rewrite Hc, Hl; apply in_or_app; left; apply in_elt).
        apply calls_only_called in Hin. destruct Hin as (x' & Hx').
        discriminate.
Qed.

(** A batch whose generations all succeeded leaves the invariant in
    place. *)
Lemma LoopInv_step queue0 st s done total :
  LoopInv queue0 st s ->
  NoDup (map DiscoveredConfig.id queue0) ->
  Permutation done (batchToGenerate st) ->
  LoopInv queue0
    (LoopState.mk (addAll done (LoopState.generatedConfigIds st))
                  (withoutBatch (batchToGenerate st)
                                (LoopState.generationQueue st))
                  total)
    (s ++ calls (batchToGenerate st) ++ settledOk done).
Proof.
  intros Hinv Hnd Hperm.
  destruct (block_respects (settles := settledOk done) Hinv Hnd
              (settledOk_isSettled done)) as [Hdeps Hbar].
  constructor; cbn [LoopState.generatedConfigIds LoopState.generationQueue];
    auto.
  - intros x. rewrite In_addAll, !in_app_iff, In_settledOk.
    rewrite (inv_generated Hinv). split.
    + intros [H|H]; auto.
    + intros [H|[H|[_ H]]]; auto.
      apply calls_only_called in H. destruct H as (x' & H). discriminate.
  - intros x. rewrite !in_app_iff. intros [H|[H|H]].
    + left. now apply (inv_settled Hinv).
    + right. right. apply In_settledOk. split; [reflexivity|].
      apply In_calls in H. destruct H as (b & Hb & <-).
      apply in_map. apply (Permutation_in _ (Permutation_sym Hperm) Hb).
    + exfalso. pose proof (settledOk_isSettled done) as Hall.
      rewrite Forall_forall in Hall. exact (Hall _ H).
  - intros item Hitem. unfold withoutBatch in Hitem.
    apply filter_In in Hitem. apply (inv_queue Hinv), Hitem.
Qed.

(** A batch that is not empty shortens the queue. *)
Lemma withoutBatch_shorter st :
  batchToGenerate st <> [] ->
  (List.length (withoutBatch (batchToGenerate st)
                             (LoopState.generationQueue st))
   < List.length (LoopState.generationQueue st))%nat.
Proof.
  intros Hne. destruct (batchToGenerate st) as [|b0 batch] eqn:Eb; [easy|].
  assert (Hb0 : In b0 (LoopState.generationQueue st)).
  { assert (H : In b0 (batchToGenerate st)) by (rewrite Eb; now left).
    apply In_batch in H. tauto. }
  unfold withoutBatch.
  set (keep := fun item =>
                 negb (existsb (fun b => DiscoveredConfig.id b
                                         =? DiscoveredConfig.id item)
                               (b0 :: batch))).
  assert (Hdrop : keep b0 = false)
    by (unfold keep; cbn [existsb]; now rewrite String.eqb_refl).
  induction (LoopState.generationQueue st) as [|q queue IH]; [easy|].
  cbn [filter List.length].
  pose proof (filter_length_le keep queue) as Hle.
  destruct Hb0 as [->|Hb0].
  - rewrite Hdrop. lia.
  - specialize (IH Hb0). destruct (keep q); cbn [List.length]; lia.
Qed.

End ScheduleFacts.

(** ** The generation loop *)

Section LoopFacts.
Context {P : NodePath} {C : Collaborators}.
Variable pickItem : World -> list DiscoveredConfig.t -> nat.
Variable cliFlags : Flags.t.
Variable globalIoMappings : list InputOutputMapping.t.
Variable queue0 : list DiscoveredConfig.t.
Hypothesis queue0_ids : NoDup (map DiscoveredConfig.id queue0).

(** One turn of the loop from a head that satisfies the invariant. *)
Lemma iteration_keeps_inv st w s :
  LoopInv queue0 st s ->
  exists out w' tr,
    loopIteration pickItem cliFlags globalIoMappings st w = (out, w')
    /\ extends w w' tr
    /\ DepsRespected queue0 (s ++ sched tr)
    /\ Barrier (s ++ sched tr)
    /\ ((exists settles,
            sched tr = (calls (batchToGenerate st) ++ settles)%list
            /\ Forall isSettled settles)
        \/ sched tr = [])
    /\ (forall st', out = Returned (Continue st') ->
                    LoopInv queue0 st' (s ++ sched tr)
                    /\ (List.length (LoopState.generationQueue st')
                        < List.length (LoopState.generationQueue st))%nat).
Proof.
  intros Hinv.
  destruct (loopIteration_spec pickItem cliFlags globalIoMappings st w)
    as (out & w' & tr & Heq & Hext & Hcase).
  exists out, w', tr. split; [exact Heq|]. split; [exact Hext|].
  destruct Hcase as [(_ & -> & ->)|[(_ & _ & -> & -> & _)|(_ & Hb & done & Hres)]].
  - cbn [sched filter]. rewrite app_nil_r.
    split; [apply (inv_deps Hinv)|]. split; [apply (inv_barrier Hinv)|].
    split; [now right|]. discriminate.
  - cbn [sched filter isSched]. rewrite app_nil_r.
    split; [apply (inv_deps Hinv)|]. split; [apply (inv_barrier Hinv)|].
    split; [now right|]. discriminate.
  - destruct Hres as [(-> & Hperm & ->)|(e & failed & -> & _ & ->)].
    + destruct (block_respects (settles := settledOk done) Hinv queue0_ids
                  (settledOk_isSettled done)) as [Hdeps Hbar].
      split; [exact Hdeps|]. split; [exact Hbar|].
      split; [left; eexists; split; [reflexivity|apply settledOk_isSettled]|].
      intros st' [= <-]. split.
      * now apply LoopInv_step.
      * cbn [LoopState.generationQueue]. now apply withoutBatch_shorter.
    + assert (Hall : Forall isSettled
                       (settledOk done
                        ++ [GenerateSettled (DiscoveredConfig.id failed)
                                            false])%list)
        by (apply Forall_app; split;
            [apply settledOk_isSettled|repeat constructor]).
      destruct (block_respects Hinv queue0_ids Hall) as [Hdeps Hbar].
      split; [exact Hdeps|]. split; [exact Hbar|].
      split; [left; eexists; split; [reflexivity|exact Hall]|].
      discriminate.
Qed.

(** Every head of the loop that a run reaches satisfies the invariant,
    for the schedule of the events since the start. *)
Lemma reach_inv w0 st w :
  LoopReach pickItem cliFlags globalIoMappings
            (initialLoopState queue0, w0) (st, w) ->
  exists tr, extends w0 w tr /\ LoopInv queue0 st (sched tr).
Proof.
  intros H. remember (st, w) as head eqn:Ehead. revert st w Ehead.
  induction H as [|st1 w1 st2 w2 _ IH Hturn]; intros st w [= <- <-].
  - exists []. split; [apply extends_refl|apply LoopInv_initial].
  - destruct (IH st1 w1 eq_refl) as (tr1 & Hext1 & Hinv1).
    destruct (iteration_keeps_inv w1 Hinv1)
      as (out & w' & tr & Heq & Hext & _ & _ & _ & Hnext).
    rewrite Hturn in Heq. injection Heq as <- <-.
    exists (tr1 ++ tr)%list. split; [eapply extends_trans; eassumption|].
    rewrite sched_app. now apply Hnext.
Qed.

(** The loop ends, with the fuel of one turn per queued item and one
    more, and its schedule keeps the order of dependencies and the
    barrier between batches. *)
Lemma generationLoop_spec fuel :
  forall st w s,
    (List.length (LoopState.generationQueue st) < fuel)%nat ->
    LoopInv queue0 st s ->
    exists out w' tr,
      generationLoop pickItem fuel cliFlags globalIoMappings st w = (out, w')
      /\ extends w w' tr
      /\ out <> Returned None
      /\ DepsRespected queue0 (s ++ sched tr)
      /\ Barrier (s ++ sched tr).
Proof.
  induction fuel as [|fuel IH]; intros st w s Hfuel Hinv; [lia|].
  cbn [generationLoop]. unfold bind.
  destruct (iteration_keeps_inv w Hinv)
    as (out & w1 & tr1 & -> & Hext1 & Hdeps & Hbar & _ & Hnext).
  destruct out as [[st'|total]|e].
  - destruct (Hnext st' eq_refl) as [Hinv' Hlen].
    destruct (IH st' w1 (s ++ sched tr1)%list) as
      (out & w' & tr & Heq & Hext & Hout & Hdeps' & Hbar'); [lia|exact Hinv'|].
    exists out, w', (tr1 ++ tr)%list. split; [exact Heq|].
    split; [eapply extends_trans; eassumption|]. split; [exact Hout|].
    rewrite sched_app, app_assoc. auto.
  - exists (Returned (Some total)), w1, tr1.
    repeat split; auto; try apply Hext1. discriminate.
  - exists (Threw e), w1, tr1.
    repeat split; auto; try apply Hext1. discriminate.
Qed.

End LoopFacts.

(** ** Nested generation: the claims on the scheduler *)

Section SchedulerClaims.
Context {P : NodePath} {C : Collaborators}.
Variable pickItem : World -> list DiscoveredConfig.t -> nat.

Lemma In_sched e tr : In e (sched tr) <-> In e tr /\ isSched e = true.
Proof. unfold sched. apply filter_In. Qed.

(** C2. At every head of the generation loop that a run of nested
    generation reaches, the batch consists of exactly the queued items
    all of whose dependencies have settled with success since the
    start; and when the queue is not empty and the batch is, the turn,
    and with it the loop, throws the error that names the input of every
    queued item, after which the files are what the earlier batches made
    them: the error is the only event of the turn. *)
Theorem batch_is_the_ready_files cliFlags infos ios w0 st w :
  LoopReach pickItem cliFlags ios
            (initialLoopState (allConfigsToGenerate cliFlags infos), w0)
            (st, w) ->
  exists tr,
    extends w0 w tr
    /\ (forall item,
          In item (batchToGenerate st) <->
          In item (LoopState.generationQueue st)
          /\ forall dep, In dep (DiscoveredConfig.dependencies item) ->
                         In (GenerateSettled dep true) tr)
    /\ (LoopState.generationQueue st <> [] ->
        batchToGenerate st = [] ->
        let message := orderError (LoopState.generationQueue st) in
        let w' := mkWorld (fs w) (trace w ++ [FatalError message])%list in
        loopIteration pickItem cliFlags ios st w = (Threw message, w')
        /\ (forall fuel,
              generationLoop pickItem (S fuel) cliFlags ios st w
              = (Threw message, w'))
        /\ (forall item,
              In item (LoopState.generationQueue st) ->
              Js.occursIn (itemInput item) message)).
Proof.
  intros Hreach.
  destruct (allConfigs_ids cliFlags infos) as [Hnd _].
  destruct (reach_inv Hnd Hreach) as (tr & Hext & Hinv).
  exists tr. split; [exact Hext|]. split.
  - intros item. rewrite In_batch. split; intros [Hq Hdeps]; (split; [exact Hq|]);
      intros dep Hdep; specialize (Hdeps dep Hdep).
    + apply (inv_generated Hinv), In_sched in Hdeps. tauto.
    + apply (inv_generated Hinv), In_sched. auto.
  - intros Hq Hb message w'.
    assert (Hturn : loopIteration pickItem cliFlags ios st w
                    = (Threw message, w')).
    { unfold loopIteration. rewrite Hb.
      destruct (LoopState.generationQueue st); [easy|reflexivity]. }
    split; [exact Hturn|]. split.
    + intros fuel. cbn [generationLoop]. unfold bind. now rewrite Hturn.
    + intros item Hitem. unfold message, orderError.
      apply JsFacts.occursIn_app_r, JsFacts.occursIn_app_l.
      apply JsFacts.occursIn_join. now apply in_map.
Qed.

(** C3. The generation loop over the configs of nested generation ends,
    and in the schedule of its events every generation is called after
    the generations of all its dependencies have settled with success,
    and no generation is called after a settlement unless everything
    called before that settlement has settled with success; within one
    turn, all the generations of the batch are called, in the order of
    the queue, before any of them settles, and the settlements that
    follow are those of items of the batch. *)
Theorem batches_run_in_dependency_order cliFlags infos ios w :
  let queue := allConfigsToGenerate cliFlags infos in
  (exists out w' tr,
      generationLoop pickItem (S (List.length queue)) cliFlags ios
                     (initialLoopState queue) w = (out, w')
      /\ out <> Returned None
      /\ extends w w' tr
      /\ DepsRespected queue (sched tr)
      /\ Barrier (sched tr))
  /\ (forall st w1,
        exists out w2 tr settles,
          loopIteration pickItem cliFlags ios st w1 = (out, w2)
          /\ extends w1 w2 tr
          /\ sched tr = (calls (batchToGenerate st) ++ settles)%list
          /\ Forall (fun e => exists item b,
                         In item (batchToGenerate st)
                         /\ e = GenerateSettled (DiscoveredConfig.id item) b)
                    settles).
Proof.
  intros queue. destruct (allConfigs_ids cliFlags infos) as [Hnd _].
  split.
  - destruct (@generationLoop_spec _ _ pickItem cliFlags ios queue Hnd
                (S (List.length queue)) (initialLoopState queue) w [])
      as (out & w' & tr & Heq & Hext & Hout & Hdeps & Hbar).
    + cbn [initialLoopState LoopState.generationQueue]. lia.
    + apply LoopInv_initial.
    + exists out, w', tr. auto.
  - intros st w1.
    destruct (loopIteration_spec pickItem cliFlags ios st w1)
      as (out & w2 & tr & Heq & Hext & Hcase).
    exists out, w2, tr.
    assert (Hok : forall done,
               incl done (batchToGenerate st) ->
               Forall (fun e => exists item b,
                           In item (batchToGenerate st)
                           /\ e = GenerateSettled (DiscoveredConfig.id item) b)
                      (settledOk done)).
    { intros done Hincl. apply Forall_forall. intros e He.
      unfold settledOk in He. apply in_map_iff in He.
      destruct He as (item & <- & Hitem). exists item, true. auto. }
    destruct Hcase as [(Hq & _ & ->)|[(_ & Hb & _ & -> & _)
                                     |(_ & _ & done & Hres)]].
    + exists []. split; [exact Heq|]. split; [exact Hext|].
      unfold batchToGenerate. rewrite Hq. split; constructor.
    + exists []. split; [exact Heq|]. split; [exact Hext|].
      rewrite Hb. split; constructor.
    + destruct Hres as [(_ & Hperm & Hs)|(e & failed & _ & Hincl & Hs)].
      * exists (settledOk done). split; [exact Heq|]. split; [exact Hext|].
        split; [exact Hs|]. apply Hok. intros x Hx.
        apply (Permutation_in _ Hperm Hx).
      * exists (settledOk done
                ++ [GenerateSettled (DiscoveredConfig.id failed) false])%list.
        split; [exact Heq|]. split; [exact Hext|]. split; [exact Hs|].
        apply Forall_app. split.
        -- apply Hok. intros x Hx. apply Hincl. now right.
        -- repeat constructor. exists failed, false. split; [|reflexivity].
           apply Hincl. now left.
Qed.

End SchedulerClaims.

(** ** The multi-config run *)

Section PromiseAllFacts.
Variables (A St : Type).
Variable pick : World -> list A -> nat.
Variable finish : A -> St -> Async St.
Variable Inv : World -> Prop.
Variable Done : A -> World -> Prop.


End PromiseAllFacts.

Section RunAllFacts.
Context {P : NodePath} {C : Collaborators}.
Variable pickConfig : World -> list Config.t -> nat.

Lemma forEach_emit_returns A (l : list A) (f : A -> Event) w :
  exists w', forEach l (fun a => emit (f a)) w = (Returned tt, w').
Proof.
  revert w. induction l as [|a l IH]; intros w; cbn [forEach].
  - now exists w.
  - run_async. apply IH.
Qed.

Lemma validateGeneratedContent_returns cliFlags inputPath outputPath core
      options ios w :
  exists result w',
    validateGeneratedContent cliFlags inputPath outputPath core options ios w
    = (Returned result, w').
Proof.
  unfold validateGeneratedContent. run_async.
  destruct (Flags.all cliFlags); run_async;
    match goal with
    | |- context [loadExtraFiles ?a ?b ?c ?v] =>
        destruct (loadExtraFiles_returns a b c v) as (extra & tr & -> & _)
    end; cbn [fs trace];
    match goal with
    | |- context [validateGeneratedTypesInWorker ?r] =>
        destruct (validateGeneratedTypesInWorker r)
    end; eexists; eexists; reflexivity.
Qed.

Lemma prepare_returns args fileConfig cliFlags ios w :
  (forall input,
      Js.nonEmpty (Js.or (Args.input args)
                         (option_map Config.input fileConfig)) = Some input ->
      readable (fs w) (join cwd input) = true) ->
  exists r w',
    prepareGeneratorConfig args fileConfig cliFlags ios w = (Returned r, w').
Proof.
  intros Hread. unfold prepareGeneratorConfig.
  destruct (Js.nonEmpty (Js.or (Args.input args) _)) as [input|];
    [|run_async; eexists; eexists; reflexivity].
  specialize (Hread input eq_refl). unfold readable in Hread.
  match goal with
  | |- context [match ?l with [] => _ | _ :: _ => _ end] => destruct l
  end; [|run_async; eexists; eexists; reflexivity].
  run_async.
  destruct (fs w (join cwd input)) as [[text|msg]|]; try discriminate.
  eexists; eexists; reflexivity.
Qed.

(** [generate] returns a result when the input file, if it gets to read
    one, is readable. *)
Lemma generate_returns args fileConfig cliFlags ios w :
  (forall input,
      Js.nonEmpty (Js.or (Args.input args)
                         (option_map Config.input fileConfig)) = Some input ->
      readable (fs w) (join cwd input) = true) ->
  exists r w', generate args fileConfig cliFlags ios w = (Returned r, w').
Proof.
  intros Hread.
  destruct (prepare_returns args fileConfig cliFlags ios w Hread)
    as (r & w0 & Hprep).
  unfold generate. unfold bind at 1. rewrite Hprep.
  destruct r as [data|e]; [|eexists; eexists; reflexivity].
  destruct (executeCoreGeneration _ _) as [core|e];
    [|eexists; eexists; reflexivity].
  unfold bind at 1.
  destruct (forEach_emit_returns (CoreGenerationResult.errors core) Warn w0)
    as (w1 & ->).
  unfold bind at 1.
  destruct (negb (Flags.skipValidation cliFlags)).
  - match goal with
    | |- context [validateGeneratedContent ?a ?b ?c ?d ?e ?f w1] =>
        destruct (validateGeneratedContent_returns a b c d e f w1)
          as (result & w2 & ->)
    end.
    destruct result as [[]|e]; [|eexists; eexists; reflexivity].
    unfold bind at 1.
    match goal with
    | |- context [writeOutputFiles ?a ?b ?c ?d w2] =>
        destruct (writeOutputFiles_writes a b c d w2) as (t & w3 & -> & _)
    end.
    eexists; eexists; reflexivity.
  - unfold ret at 1. unfold bind at 1.
    match goal with
    | |- context [writeOutputFiles ?a ?b ?c ?d w1] =>
        destruct (writeOutputFiles_writes a b c d w1) as (t & w3 & -> & _)
    end.
    eexists; eexists; reflexivity.
Qed.





End RunAllFacts.

(** ** The scheduler and the multi-config run on the example project *)

Section SchedulerExamples.
#[local] Existing Instance Demo.path.
#[local] Existing Instance Demo.collaborators.

Lemma nested_config_shape_witness :
  exists info,
    In ("/proj/a.ts", info) Demo.cycleDiscovered
    /\ Config.input (DiscoveredConfig.config Demo.cycleItemA)
       = FileInfo.relativePath info
    /\ Config.output (DiscoveredConfig.config Demo.cycleItemA)
       = Js.replaceTsExt (FileInfo.relativePath info).
Proof.
  destruct (@nested_config_shape (Demo.nestedFlags 5) Demo.cycleDiscovered
              Demo.cycleItemA (or_introl eq_refl))
    as (info & Hin & Hinput & Houtput & _).
  exists info. split; [exact Hin|]. split; [exact Hinput|exact Houtput].
Defined.

(** The configs of the two files that import each other. *)
Example configs_of_a_cycle :
  map (fun item =>
         (DiscoveredConfig.id item,
          Config.input (DiscoveredConfig.config item),
          Config.output (DiscoveredConfig.config item),
          DiscoveredConfig.dependencies item))
      Demo.cycleQueue
  = [("/proj/a.ts", "a.ts", "a.zod.ts", ["/proj/b.ts"]);
     ("/proj/b.ts", "b.ts", "b.zod.ts", ["/proj/a.ts"])].
Proof. reflexivity. Qed.

Lemma batch_is_the_ready_files_witness :
  generationLoop Demo.inOrder 3 (Demo.nestedFlags 5) []
                 (initialLoopState Demo.cycleQueue) Demo.cycleWorld
  = (Threw (orderError Demo.cycleQueue),
     mkWorld (fs Demo.cycleWorld)
             (trace Demo.cycleWorld
              ++ [FatalError (orderError Demo.cycleQueue)])%list).
Proof.
  destruct (@batch_is_the_ready_files Demo.path Demo.collaborators
              Demo.inOrder (Demo.nestedFlags 5) Demo.cycleDiscovered []
              Demo.cycleWorld (initialLoopState Demo.cycleQueue)
              Demo.cycleWorld
              (reach_start Demo.inOrder (Demo.nestedFlags 5) [] _))
    as (tr & _ & _ & Habort).
  assert (Hqueue : LoopState.generationQueue
                     (initialLoopState Demo.cycleQueue) <> [])
    by (vm_compute; discriminate).
  exact (proj1 (proj2 (Habort Hqueue eq_refl)) 2%nat).
Defined.

(** The error names both files. *)
Example order_error_of_a_cycle :
  orderError Demo.cycleQueue
  = "Could not determine generation order. Possible circular dependency or missing files among: a.ts, b.ts. Please check your imports.".
Proof. reflexivity. Qed.

(** Nested generation over the diamond, with the generation that was
    started last settling first: the shared file is generated before the
    two siblings, which are called together, and the seed comes last. *)
Example nested_generation_of_a_diamond :
  let r := runNestedGeneration Demo.lastFirst "seed.ts" (Demo.nestedFlags 5)
                               Demo.diamondWorld in
  fst r = Returned (Some tt)
  /\ sched (trace (snd r))
     = [GenerateCalled "/proj/shared.ts";
        GenerateSettled "/proj/shared.ts" true;
        GenerateCalled "/proj/left.ts"; GenerateCalled "/proj/right.ts";
        GenerateSettled "/proj/right.ts" true;
        GenerateSettled "/proj/left.ts" true;
        GenerateCalled "/proj/seed.ts";
        GenerateSettled "/proj/seed.ts" true].
Proof. cbv zeta. split; vm_compute; reflexivity. Qed.



(** The failure of the first config is printed, and the second config is
    generated all the same. *)
Example run_all_with_a_failing_config :
  let r := runAll Demo.inOrder Args.none [Demo.badConfig; Demo.goodConfig]
                  Demo.flags [] Demo.allWorld in
  fst r = Returned tt
  /\ filter (fun e => match e with
                      | Log _ | ErrorNoExit _ | OutputFile _ _
                      | GenerateSettled _ _ => true
                      | _ => false
                      end)
            (trace (snd r))
     = [Log ("Generating " ++ quoted "bad");
        Log ("Generating " ++ quoted "good");
        GenerateSettled "bad" false; ErrorNoExit "Type mismatch"; Log "";
        OutputFile "/proj/good.zod.ts" "// schemas for ./good";
        GenerateSettled "good" true; Log " 🎉 Zod schemas generated!";
        Log ""].
Proof. cbv zeta. split; vm_compute; reflexivity. Qed.

(** The bound at the diamond: a call on the shared file at depth 2
    with [maxDepth = 1] only warns. *)
Lemma discovery_bounded_by_maxDepth_witness :
  performFileDiscovery "/proj/shared.ts" StrMap.empty 1 2 Demo.diamondWorld
  = (Returned (Some StrMap.empty),
     mkWorld (fs Demo.diamondWorld)
             (trace Demo.diamondWorld
              ++ [Warn (maxDepthWarning 1 "/proj/shared.ts")])%list)
  /\ Js.occursIn (slash (relative cwd "/proj/shared.ts"))
                 (maxDepthWarning 1 "/proj/shared.ts").
Proof.
  apply (proj1 (@discovery_bounded_by_maxDepth Demo.path Demo.collaborators
                  "/proj/shared.ts" StrMap.empty 1 2 (Demo.nestedFlags 1)
                  Demo.diamondWorld)).
  reflexivity.
Defined.

(** A call on a file of the cycle that is already recorded leaves the
    map as it is and reads nothing. *)
Lemma discovery_records_each_file_once_witness :
  exists e,
    performFileDiscovery "/proj/a.ts" Demo.cycleDiscovered 5 1 Demo.cycleWorld
    = (Returned (Some Demo.cycleDiscovered),
       mkWorld (fs Demo.cycleWorld) (trace Demo.cycleWorld ++ [e])%list)
    /\ forall p, e <> ReadFile p.
Proof.
  apply (proj1 (@discovery_records_each_file_once Demo.path
                  Demo.collaborators "/proj/a.ts" Demo.cycleDiscovered 5 1
                  Demo.cycleWorld)).
  reflexivity.
Defined.

End SchedulerExamples.

(** ** The steps of the pipeline, one by one *)

Section PipelineFacts.
Context {P : NodePath} {C : Collaborators}.

Lemma loadExtraFiles_spec inputPath ios :
  forall acc w,
  exists tr,
    loadExtraFiles inputPath ios acc w
    = (Returned (acc ++ extraFilesOf (fs w) inputPath ios)%list,
       mkWorld (fs w) (trace w ++ tr)%list)
    /\ Forall isLoadEvent tr
    /\ (forall io,
          In io ios ->
          getImportPath inputPath (InputOutputMapping.input io) <> "/" ->
          (readable (fs w) (join cwd (InputOutputMapping.input io)) = false ->
           In (SpinnerWarn ("File " ++ quoted (InputOutputMapping.input io)
                            ++ " not found")) tr)
          /\ (readable (fs w) (join cwd (InputOutputMapping.output io)) = false ->
              In (SpinnerWarn
                    ("File " ++ quoted (InputOutputMapping.output io)
                     ++ " not found: maybe it hasn't been generated yet?"))
                 tr)).
Proof.
  induction ios as [|io rest IH]; intros acc w; cbn [loadExtraFiles].
  - exists []. rewrite !app_nil_r. destruct w. split; [reflexivity|].
    split; [constructor|]. intros io [].
  - cbn [extraFilesOf flat_map]. fold (extraFilesOf (fs w) inputPath rest).
    destruct (String.eqb_spec
                (getImportPath inputPath (InputOutputMapping.input io)) "/")
      as [Hskip|Hskip]; cbn [negb].
    + destruct (IH acc w) as (tr & Heq & Htr & Hwarn).
      exists tr. split; [exact Heq|]. split; [exact Htr|].
      intros io' [<-|Hin] Hne; [contradiction|]. now apply Hwarn.
    + run_async.
      set (i := InputOutputMapping.input io).
      set (o := InputOutputMapping.output io).
      set (warnI := SpinnerWarn ("File " ++ quoted i ++ " not found")).
      set (warnO := SpinnerWarn
                      ("File " ++ quoted o
                       ++ " not found: maybe it hasn't been generated yet?")).
      assert (Hstep : forall acc' w' ei eo,
                 fs w' = fs w ->
                 (exists pre,
                     trace w' = (trace w ++ pre)%list
                     /\ Forall isLoadEvent pre
                     /\ (readable (fs w) (join cwd i) = false -> In warnI pre)
                     /\ (readable (fs w) (join cwd o) = false
                         -> In warnO pre)) ->
                 acc' = (acc ++ ei ++ eo)%list ->
                 exists tr,
                   loadExtraFiles inputPath rest acc' w'
                   = (Returned
                        (acc ++ (ei ++ eo)
                             ++ extraFilesOf (fs w) inputPath rest)%list,
                      mkWorld (fs w) (trace w ++ tr)%list)
                   /\ Forall isLoadEvent tr
                   /\ (forall io',
                         In io' (io :: rest) ->
                         getImportPath inputPath (InputOutputMapping.input io')
                         <> "/" ->
                         (readable (fs w)
                            (join cwd (InputOutputMapping.input io')) = false ->
                          In (SpinnerWarn
                                ("File "
                                 ++ quoted (InputOutputMapping.input io')
                                 ++ " not found")) tr)
                         /\ (readable (fs w)
                               (join cwd (InputOutputMapping.output io'))
                             = false ->
                             In (SpinnerWarn
                                   ("File "
                                    ++ quoted (InputOutputMapping.output io')
                                    ++ " not found: maybe it hasn't been generated yet?"))
                                tr))).
      { intros acc' w' ei eo Hfs (pre & Htr & Hpre & Hi & Ho) ->.
        destruct (IH (acc ++ ei ++ eo)%list w') as (tr & Heq & Htr' & Hwarn).
        exists (pre ++ tr)%list. split; [|split].
        - rewrite Heq, Hfs, Htr, !app_assoc. reflexivity.
        - apply Forall_app; auto.
        - intros io' [<-|Hin] Hne.
          + split; intros H; apply in_or_app; left; auto.
          + rewrite Hfs in Hwarn.
            destruct (Hwarn io' Hin Hne) as [H1 H2].
            split; intros H; apply in_or_app; right; auto. }
      unfold extraEntry.
      destruct (fs w (join cwd i)) as [[ti|mi]|] eqn:Ei; cbn [fs trace];
        destruct (fs w (join cwd o)) as [[to|mo]|] eqn:Eo; cbn [fs trace];
        (apply Hstep; cbn [fs trace];
         [reflexivity
         |eexists; split; [rewrite <- !app_assoc; cbn [app]; reflexivity|];
          split; [repeat constructor|];
          unfold readable; rewrite Ei, Eo;
          split; intros H; try discriminate H; cbn; auto 6
         |cbn [app]; rewrite <- ?app_assoc, ?app_nil_r; reflexivity]).
Qed.


Lemma forEach_emit_trace A (l : list A) (f : A -> Event) w :
  forEach l (fun a => emit (f a)) w
  = (Returned tt, mkWorld (fs w) (trace w ++ map f l)%list).
Proof.
  revert w. induction l as [|a l IH]; intros w; cbn [forEach map].
  - rewrite app_nil_r. now destruct w.
  - unfold bind, emit. rewrite IH. cbn [fs trace].
    now rewrite <- app_assoc.
Qed.

(** The three ways [prepareGeneratorConfig] ends. *)
Lemma prepare_cases args fileConfig cliFlags ios w :
  let input :=
    Js.nonEmpty (Js.or (Args.input args)
                       (option_map Config.input fileConfig)) in
  let output :=
    Js.nonEmpty (Js.or (Args.output args)
                       (option_map Config.output fileConfig)) in
  let allowed := (TYPESCRIPT_EXTENSIONS ++ JAVASCRIPT_EXTENSIONS)%list in
  (input = None
   /\ prepareGeneratorConfig args fileConfig cliFlags ios w
      = (Returned (Failure missingInputError), w))
  \/ (exists i lines,
         input = Some i /\ lines <> []
         /\ lines
            = ((if hasExtensions i TYPESCRIPT_EXTENSIONS then []
                else [extErrorLine (i, TYPESCRIPT_EXTENSIONS)])
               ++ match output with
                  | Some o => if hasExtensions o allowed then []
                              else [extErrorLine (o, allowed)]
                  | None => []
                  end)%list
         /\ prepareGeneratorConfig args fileConfig cliFlags ios w
            = (Returned (Failure ("Unexpected file extension:" ++ Js.nl
                                  ++ Js.join Js.nl lines)), w))
  \/ (exists i,
         input = Some i
         /\ hasExtensions i TYPESCRIPT_EXTENSIONS = true
         /\ (forall o, output = Some o -> hasExtensions o allowed = true)
         /\ let inputPath := join cwd i in
            let outputPath :=
              join cwd (Js.orElse (Js.or (Args.output args)
                                         (option_map Config.output fileConfig))
                                  i) in
            let w1 := mkWorld (fs w) (trace w ++ [ReadFile inputPath])%list in
            match fs w inputPath with
            | Some (File sourceText) =>
                prepareGeneratorConfig args fileConfig cliFlags ios w
                = (Returned
                     (Success
                        (PrepareData.mk inputPath outputPath
                           (applyFlags cliFlags
                              (spreadConfig sourceText
                                 (relativeIoMappings inputPath outputPath ios)
                                 fileConfig)))), w1)
            | _ =>
                exists e,
                  prepareGeneratorConfig args fileConfig cliFlags ios w
                  = (Threw e, w1)
            end).
Proof.
  intros input output allowed. unfold prepareGeneratorConfig.
  fold input. fold output. fold allowed.
  destruct input as [i|]; [|left; split; reflexivity].
  right.
  assert (Hok : hasExtensions i TYPESCRIPT_EXTENSIONS = true ->
                (forall o, output = Some o -> hasExtensions o allowed = true) ->
                let inputPath := join cwd i in
                let outputPath :=
                  join cwd (Js.orElse (Js.or (Args.output args)
                                             (option_map Config.output
                                                         fileConfig)) i) in
                let w1 :=
                  mkWorld (fs w) (trace w ++ [ReadFile inputPath])%list in
                match fs w inputPath with
                | Some (File sourceText) =>
                    (sourceText <- readFile inputPath ;;
                     ret (Success
                            (PrepareData.mk inputPath outputPath
                               (applyFlags cliFlags
                                  (spreadConfig sourceText
                                     (relativeIoMappings inputPath outputPath
                                                         ios)
                                     fileConfig))))) w
                    = (Returned
                         (Success
                            (PrepareData.mk inputPath outputPath
                               (applyFlags cliFlags
                                  (spreadConfig sourceText
                                     (relativeIoMappings inputPath outputPath
                                                         ios)
                                     fileConfig)))), w1)
                | _ =>
                    exists e,
                      (sourceText <- readFile inputPath ;;
                       ret (Success
                              (PrepareData.mk inputPath outputPath
                                 (applyFlags cliFlags
                                    (spreadConfig sourceText
                                       (relativeIoMappings inputPath
                                                           outputPath ios)
                                       fileConfig))))) w
                      = (Threw e, w1)
                end).
  { intros _ _. cbv zeta. run_async.
    destruct (fs w (join cwd i)) as [[text|msg]|]; eauto. }
  destruct (hasExtensions i TYPESCRIPT_EXTENSIONS) eqn:Ei;
    (destruct output as [o|] eqn:Eout;
     [destruct (hasExtensions o allowed) eqn:Eo|]); cbn [negb app map].
  - right. exists i. split; [reflexivity|]. split; [first [reflexivity|exact Ei]|].
    split; [intros ? [= <-]; first [reflexivity|exact Eo]|]. apply Hok; [first [reflexivity|exact Ei]|].
    intros ? [= <-]; first [reflexivity|exact Eo].
  - left. exists i, [extErrorLine (o, allowed)].
    split; [reflexivity|]. split; [discriminate|].
    rewrite ?Ei, ?Eo. split; reflexivity.
  - right. exists i. split; [reflexivity|]. split; [first [reflexivity|exact Ei]|].
    split; [discriminate|]. apply Hok; [first [reflexivity|exact Ei]|discriminate].
  - left. exists i, [extErrorLine (i, TYPESCRIPT_EXTENSIONS)].
    split; [reflexivity|]. split; [discriminate|].
    rewrite ?Ei, ?Eo. split; reflexivity.
  - left. exists i, [extErrorLine (i, TYPESCRIPT_EXTENSIONS);
                     extErrorLine (o, allowed)].
    split; [reflexivity|]. split; [discriminate|].
    rewrite ?Ei, ?Eo. split; reflexivity.
  - left. exists i, [extErrorLine (i, TYPESCRIPT_EXTENSIONS)].
    split; [reflexivity|]. split; [discriminate|].
    rewrite ?Ei, ?Eo. split; reflexivity.
Qed.


(** The files after the events [tr], of which only [OutputFile] changes
    any. *)
Lemma writeOutputFiles_spec outputPath inputPath core options w :
  exists w',
    writeOutputFiles outputPath inputPath core options w = (Returned tt, w')
    /\ trace w' = (trace w ++ writes outputPath inputPath core options)%list
    /\ fs w' outputPath
       = Some (File (schemasText outputPath inputPath core))
    /\ (forall t,
          Js.nonEmpty (GenerateProps.inferredTypes options) = Some t ->
          t <> outputPath ->
          fs w' t = Some (File (inferredTypesText t outputPath core)))
    /\ (forall p,
          p <> outputPath ->
          Js.nonEmpty (GenerateProps.inferredTypes options) <> Some p ->
          fs w' p = fs w p).
Proof.
  unfold writeOutputFiles, writes, schemasText, inferredTypesText.
  destruct (Js.nonEmpty (GenerateProps.inferredTypes options))
    as [inferred|];
    destruct (hasExtensions (relativeToCwd outputPath)
                            JAVASCRIPT_EXTENSIONS);
    run_async; eexists; (split; [reflexivity|]); cbn [fs trace];
    rewrite String.eqb_refl, <- ?app_assoc;
    (split; [reflexivity|]); (split; [reflexivity|]); split.
  1,3: intros t [= <-] Hne;
       destruct (String.eqb_spec inferred outputPath); [contradiction|];
       now rewrite String.eqb_refl.
  1,2: intros p Hp Hi;
       destruct (String.eqb_spec p outputPath); [contradiction|];
       destruct (String.eqb_spec p inferred); [subst; contradiction|];
       reflexivity.
  1,3: discriminate.
  1,2: intros p Hp _;
       destruct (String.eqb_spec p outputPath); [contradiction|reflexivity].
Qed.

Lemma validateGeneratedContent_spec cliFlags inputPath outputPath core
      options ios w :
  let request :=
    validationRequest inputPath outputPath core options ios (fs w) in
  let errors := validateGeneratedTypesInWorker request in
  exists loaded,
    validateGeneratedContent cliFlags inputPath outputPath core options ios w
    = (Returned match errors with
                | [] => Success tt
                | _ :: _ => Failure (Js.join Js.nl errors)
                end,
       mkWorld (fs w)
               (trace w
                ++ SpinnerStart "Validating generated types"
                   :: (if Flags.all cliFlags then [SpinnerIndent] else [])
                ++ loaded
                ++ [WorkerValidation request;
                    match errors with
                    | [] => SpinnerSucceed
                    | _ :: _ => SpinnerFail
                    end])%list)
    /\ Forall isLoadEvent loaded.
Proof.
  intros request errors. unfold validateGeneratedContent.
  unfold bind at 1. unfold emit at 1. unfold bind at 1.
  assert (Hrest : forall w1,
             fs w1 = fs w ->
             exists loaded,
               (extraFiles <- loadExtraFiles inputPath ios [] ;;
                let request :=
                  workerRequest inputPath outputPath core options
                                extraFiles in
                emit (WorkerValidation request) ;;;
                let validationErrors :=
                  validateGeneratedTypesInWorker request in
                match validationErrors with
                | _ :: _ =>
                    emit SpinnerFail ;;;
                    ret (Failure (Js.join Js.nl validationErrors))
                | [] => emit SpinnerSucceed ;;; ret (Success tt)
                end) w1
               = (Returned match errors with
                           | [] => Success tt
                           | _ :: _ => Failure (Js.join Js.nl errors)
                           end,
                  mkWorld (fs w)
                          (trace w1 ++ loaded
                           ++ [WorkerValidation request;
                               match errors with
                               | [] => SpinnerSucceed
                               | _ :: _ => SpinnerFail
                               end])%list)
               /\ Forall isLoadEvent loaded).
  { intros w1 Hfs. unfold bind at 1.
    destruct (loadExtraFiles_spec inputPath ios [] w1)
      as (tr & -> & Htr & _).
    cbn [app]. rewrite Hfs. fold request. fold errors.
    exists tr. split; [|exact Htr].
    cbv zeta. fold (validationRequest inputPath outputPath core options ios
                                      (fs w)).
    fold request. fold errors.
    destruct errors; run_async; rewrite <- !app_assoc; reflexivity. }
  destruct (Flags.all cliFlags); cbv beta iota.
  - unfold emit at 1. cbv beta iota.
    match goal with
    | |- context [bind _ _ ?v] => destruct (Hrest v eq_refl) as (l & Heq & Hl)
    end.
    exists l. split; [|exact Hl].
    etransitivity; [exact Heq|]. cbn [fs trace].
    rewrite <- !app_assoc. reflexivity.
  - unfold ret at 1. cbv beta iota.
    match goal with
    | |- context [bind _ _ ?v] => destruct (Hrest v eq_refl) as (l & Heq & Hl)
    end.
    exists l. split; [|exact Hl].
    etransitivity; [exact Heq|]. cbn [fs trace].
    rewrite <- !app_assoc. reflexivity.
Qed.


(** The ways [generate] ends, with the world it leaves. *)
Lemma generate_cases args fileConfig cliFlags ios w :
  (exists e,
      prepareGeneratorConfig args fileConfig cliFlags ios w
      = (Returned (Failure e), w)
      /\ generate args fileConfig cliFlags ios w = (Returned (Failure e), w))
  \/ (exists e i,
         let w1 := mkWorld (fs w) (trace w ++ [ReadFile (join cwd i)])%list in
         Js.nonEmpty (Js.or (Args.input args)
                            (option_map Config.input fileConfig)) = Some i
         /\ readable (fs w) (join cwd i) = false
         /\ prepareGeneratorConfig args fileConfig cliFlags ios w
            = (Threw e, w1)
         /\ generate args fileConfig cliFlags ios w = (Threw e, w1))
  \/ (exists data,
         let inputPath := PrepareData.inputPath data in
         let outputPath := PrepareData.outputPath data in
         let options := PrepareData.generateOptions data in
         let w1 := mkWorld (fs w) (trace w ++ [ReadFile inputPath])%list in
         prepareGeneratorConfig args fileConfig cliFlags ios w
         = (Returned (Success data), w1)
         /\ match executeCoreGeneration options
                    (outputProvided args fileConfig) with
            | Failure e =>
                generate args fileConfig cliFlags ios w
                = (Returned (Failure e), w1)
            | Success core =>
                let w2 :=
                  mkWorld (fs w)
                          (trace w1
                           ++ map Warn (CoreGenerationResult.errors core))
                          %list in
                if Flags.skipValidation cliFlags then
                  exists w4,
                    writeOutputFiles outputPath inputPath core options w2
                    = (Returned tt, w4)
                    /\ generate args fileConfig cliFlags ios w
                       = (Returned (Success tt), w4)
                else
                  let request :=
                    validationRequest inputPath outputPath core options ios
                                      (fs w) in
                  let errors := validateGeneratedTypesInWorker request in
                  exists loaded,
                    Forall isLoadEvent loaded
                    /\ let w3 :=
                         mkWorld (fs w)
                           (trace w2
                            ++ SpinnerStart "Validating generated types"
                               :: (if Flags.all cliFlags
                                   then [SpinnerIndent] else [])
                            ++ loaded
                            ++ [WorkerValidation request;
                                match errors with
                                | [] => SpinnerSucceed
                                | _ :: _ => SpinnerFail
                                end])%list in
                       match errors with
                       | [] =>
                           exists w4,
                             writeOutputFiles outputPath inputPath core
                                              options w3
                             = (Returned tt, w4)
                             /\ generate args fileConfig cliFlags ios w
                                = (Returned (Success tt), w4)
                       | _ :: _ =>
                           generate args fileConfig cliFlags ios w
                           = (Returned (Failure (Js.join Js.nl errors)), w3)
                       end
            end).
Proof.
  remember (generate args fileConfig cliFlags ios w) as g eqn:Hg.
  unfold generate in Hg. unfold bind at 1 in Hg.
  destruct (prepare_cases args fileConfig cliFlags ios w)
    as [[_ Hprep]|[(i & lines & _ & _ & _ & Hprep)
                  |(i & Hin & _ & _ & Hprep)]].
  - left. eexists. rewrite Hprep in *. split; [reflexivity|exact Hg].
  - left. eexists. rewrite Hprep in *. split; [reflexivity|exact Hg].
  - right. cbv zeta in Hprep.
    destruct (fs w (join cwd i)) as [[text|msg]|] eqn:Efs.
    2,3: destruct Hprep as (e & Hprep); left; exists e, i;
         rewrite Hprep in *; cbv zeta;
         split; [exact Hin|];
         split; [unfold readable; now rewrite Efs|];
         split; [reflexivity|exact Hg].
    right.
    match type of Hprep with
    | _ = (Returned (Success ?d), _) => exists d
    end.
    rewrite Hprep in *. split; [reflexivity|].
    cbn [PrepareData.inputPath PrepareData.outputPath
         PrepareData.generateOptions] in *.
    destruct (executeCoreGeneration _ _) as [core|e]; [|exact Hg].
    cbv zeta. unfold bind at 1 in Hg. rewrite forEach_emit_trace in Hg.
    cbn [fs trace] in Hg.
    destruct (Flags.skipValidation cliFlags); cbn [negb] in Hg.
    + unfold bind at 1, ret at 1 in Hg. cbv beta iota in Hg.
      unfold bind at 1 in Hg.
      match type of Hg with
      | context [writeOutputFiles ?a ?b ?c ?d ?v] =>
          destruct (writeOutputFiles_spec a b c d v) as (w4 & Hw & _)
      end.
      exists w4. split; [exact Hw|].
      rewrite Hw in Hg. exact Hg.
    + unfold bind at 1 in Hg.
      match type of Hg with
      | context [validateGeneratedContent ?f ?a ?b ?c ?d ?e ?v] =>
          destruct (validateGeneratedContent_spec f a b c d e v)
            as (loaded & Hv & Hloaded)
      end.
      cbv zeta in Hv. cbn [fs trace] in Hv. rewrite Hv in Hg.
      exists loaded. split; [exact Hloaded|].
      destruct (validateGeneratedTypesInWorker _); [|exact Hg].
      unfold bind at 1 in Hg.
      match type of Hg with
      | context [writeOutputFiles ?a ?b ?c ?d ?v] =>
          destruct (writeOutputFiles_spec a b c d v) as (w4 & Hw & _)
      end.
      exists w4. split; [exact Hw|].
      rewrite Hw in Hg. exact Hg.
Qed.

End PipelineFacts.

(** ** The default of the output path *)

Section OutputDefault.
Context {P : NodePath} {C : Collaborators}.

(** C9. When neither the output argument nor the config's output field
    is set, the prepared output path is the prepared input path.  So a
    generation that reaches the writing step, that is, one whose
    arguments and core result are accepted and whose validation is
    skipped or passes, succeeds, and its last event is the write of the
    formatted schema file, rendered from the input's source text, to
    the path of the input file, where it replaces that source text.
    And whenever a generation succeeds, it has ended with that write. *)
Theorem output_defaults_to_input args fileConfig cliFlags ios w :
  outputProvided args fileConfig = false ->
  (forall data w1,
      prepareGeneratorConfig args fileConfig cliFlags ios w
      = (Returned (Success data), w1) ->
      let inputPath := PrepareData.inputPath data in
      let options := PrepareData.generateOptions data in
      PrepareData.outputPath data = inputPath
      /\ fs w inputPath = Some (File (GenerateProps.sourceText options))
      /\ forall core,
           executeCoreGeneration options false = Success core ->
           Flags.skipValidation cliFlags = true
           \/ validateGeneratedTypesInWorker
                (validationRequest inputPath inputPath core options ios
                                   (fs w)) = [] ->
           exists w' before,
             generate args fileConfig cliFlags ios w
             = (Returned (Success tt), w')
             /\ core = generateCoreFileContent options
             /\ trace w'
                = (trace w ++ before
                   ++ [OutputFile inputPath
                                  (schemasText inputPath inputPath core)])
                  %list
             /\ fs w' inputPath
                = Some (File (schemasText inputPath inputPath core)))
  /\ (forall w',
        generate args fileConfig cliFlags ios w
        = (Returned (Success tt), w') ->
        exists input sourceText text,
          Js.nonEmpty (Js.or (Args.input args)
                             (option_map Config.input fileConfig))
          = Some input
          /\ fs w (join cwd input) = Some (File sourceText)
          /\ fs w' (join cwd input) = Some (File text)
          /\ (exists before,
                 trace w'
                 = (before ++ [OutputFile (join cwd input) text])%list)
          /\ (let inputPath := join cwd input in
              let core :=
                generateCoreFileContent
                  (applyFlags cliFlags
                     (spreadConfig sourceText
                        (relativeIoMappings inputPath inputPath ios)
                        fileConfig)) in
              let schemas :=
                CoreGenerationResult.getZodSchemasFile core
                  (getImportPath inputPath inputPath) in
              text = prettierFormat schemas
              \/ text = prettierFormat (transpileModule schemas))).
Proof.
  intros Hout.
  split; [|exact (proj2 (default_output_written_on_success
                           args fileConfig cliFlags ios w Hout))].
  intros data w1 Hprep inputPath options.
  assert (Hpath : PrepareData.outputPath data = inputPath).
  { destruct (prepare_success _ _ _ _ _ Hprep)
      as (input & src & _ & _ & Hdata & _).
    cbv zeta in Hdata. subst data inputPath.
    cbn [PrepareData.outputPath PrepareData.inputPath].
    f_equal. apply JsFacts.orElse_falsy, Hout. }
  split; [exact Hpath|].
  split.
  { destruct (prepare_success _ _ _ _ _ Hprep)
      as (input & src & _ & Hsrc & Hdata & _).
    cbv zeta in Hdata. subst data inputPath options.
    cbn [PrepareData.inputPath PrepareData.generateOptions].
    rewrite Hsrc. now destruct fileConfig. }
  intros core Hcore Hvalid.
  assert (Hcore' : core = generateCoreFileContent options).
  { unfold executeCoreGeneration in Hcore.
    destruct (_ && _); [discriminate|]. now injection Hcore as <-. }
  destruct (generate_cases args fileConfig cliFlags ios w)
    as [(e & Hp & _)|[(e & i & _ & _ & Hp & _)|(data' & Hg)]];
    try (rewrite Hprep in Hp; discriminate).
  cbv zeta in Hg. destruct Hg as [Hp Hg].
  rewrite Hprep in Hp. injection Hp as <- ->.
  fold inputPath options in Hg. rewrite Hpath, Hout, Hcore in Hg.
  assert (Hwrite : forall w3 before,
             trace w3 = (trace w ++ before)%list ->
             forall w4,
               writeOutputFiles inputPath inputPath core options w3
               = (Returned tt, w4) ->
               generate args fileConfig cliFlags ios w
               = (Returned (Success tt), w4) ->
               exists w' before',
                 generate args fileConfig cliFlags ios w
                 = (Returned (Success tt), w')
                 /\ core = generateCoreFileContent options
                 /\ trace w'
                    = (trace w ++ before'
                       ++ [OutputFile inputPath
                             (schemasText inputPath inputPath core)])%list
                 /\ fs w' inputPath
                    = Some (File (schemasText inputPath inputPath core))).
  { intros w3 before Htr w4 Hw Hgen.
    destruct (writeOutputFiles_spec inputPath inputPath core options w3)
      as (w4' & Hw' & Htr4 & Hfs4 & _).
    rewrite Hw in Hw'. injection Hw' as <-.
    exists w4.
    exists (before
            ++ match Js.nonEmpty (GenerateProps.inferredTypes options) with
               | Some inferredTypes =>
                   [OutputFile inferredTypes
                      (inferredTypesText inferredTypes inputPath core)]
               | None => []
               end)%list.
    split; [exact Hgen|]. split; [exact Hcore'|]. split; [|exact Hfs4].
    rewrite Htr4, Htr. unfold writes. rewrite <- !app_assoc. reflexivity. }
  destruct (Flags.skipValidation cliFlags).
  - destruct Hg as (w4 & Hw & Hgen).
    eapply Hwrite; [|exact Hw|exact Hgen].
    cbn [trace]. rewrite <- app_assoc. reflexivity.
  - destruct Hvalid as [Hskip|Hvalid]; [discriminate|].
    destruct Hg as (loaded & _ & Hg). cbv zeta in Hg.
    rewrite Hvalid in Hg. destruct Hg as (w4 & Hw & Hgen).
    eapply Hwrite; [|exact Hw|exact Hgen].
    cbn [trace]. rewrite <- !app_assoc. reflexivity.
Qed.

End OutputDefault.

Section PipelineExtras.
Context {P : NodePath} {C : Collaborators}.



(** X2. A success of [prepareGeneratorConfig] means that the input ends
    in a TypeScript extension and was read, that a given output ends in
    a TypeScript or JavaScript extension, and that the paths are the
    working directory joined with the input and with the output, or
    with the input when no output is given; so the relative path of
    the schema file always ends in an allowed extension. *)
Theorem prepare_success_checks_extensions
        args fileConfig cliFlags ios w data w' :
  prepareGeneratorConfig args fileConfig cliFlags ios w
  = (Returned (Success data), w') ->
  let output :=
    Js.or (Args.output args) (option_map Config.output fileConfig) in
  let allowed := (TYPESCRIPT_EXTENSIONS ++ JAVASCRIPT_EXTENSIONS)%list in
  exists i,
    Js.nonEmpty (Js.or (Args.input args)
                       (option_map Config.input fileConfig)) = Some i
    /\ hasExtensions i TYPESCRIPT_EXTENSIONS = true
    /\ (forall o, Js.nonEmpty output = Some o ->
                  hasExtensions o allowed = true)
    /\ PrepareData.inputPath data = join cwd i
    /\ PrepareData.outputPath data = join cwd (Js.orElse output i)
    /\ hasExtensions (Js.orElse output i) allowed = true
    /\ fs w (join cwd i)
       = Some (File (GenerateProps.sourceText
                       (PrepareData.generateOptions data)))
    /\ w' = mkWorld (fs w) (trace w ++ [ReadFile (join cwd i)])%list.
Proof.
  intros Hprep output allowed.
  destruct (prepare_cases args fileConfig cliFlags ios w)
    as [[_ Heq]|[(i & lines & _ & _ & _ & Heq)
                |(i & Hin & Hi & Ho & Heq)]];
    try (rewrite Heq in Hprep; discriminate).
  cbv zeta in Heq. fold output in Heq, Ho. fold allowed in Ho.
  destruct (fs w (join cwd i)) as [[text|msg]|] eqn:Efs;
    [|destruct Heq as (e0 & Heq)..]; rewrite Heq in Hprep;
    try discriminate.
  injection Hprep as <- <-. exists i.
  split; [exact Hin|]. split; [exact Hi|]. split; [exact Ho|].
  split; [reflexivity|]. split; [reflexivity|]. split.
  - unfold Js.orElse. destruct (Js.nonEmpty output) as [o|] eqn:Eo.
    + now apply Ho.
    + unfold hasExtensions, Js.includes, allowed in *.
      rewrite existsb_app, Hi. reflexivity.
  - split; [|reflexivity].
    cbn [PrepareData.generateOptions]. now destruct fileConfig.
Qed.

(** X3. In the options that [prepareGeneratorConfig] hands to the
    generator, a flag that is set wins over the field of the file
    config, whatever its value, and a flag that is not set leaves the
    field of the config; the filters, the schema-name function and the
    custom formats are those of the config; the source text is the
    input file's; and every global mapping is there in order, its input
    made relative to the input path and its output to the output path.
    An input or output argument that is not empty wins over the
    config's. *)
Theorem prepare_options_precedence args fileConfig cliFlags ios w data w' :
  prepareGeneratorConfig args fileConfig cliFlags ios w
  = (Returned (Success data), w') ->
  let options := PrepareData.generateOptions data in
  let inputPath := PrepareData.inputPath data in
  let outputPath := PrepareData.outputPath data in
  (forall v, Flags.keepComments cliFlags = Some v ->
             GenerateProps.keepComments options = Some v)
  /\ (forall v, Flags.skipParseJSDoc cliFlags = Some v ->
                GenerateProps.skipParseJSDoc options = Some v)
  /\ (forall v, Flags.inferredTypes cliFlags = Some v ->
                GenerateProps.inferredTypes options = Some v)
  /\ (Flags.keepComments cliFlags = None ->
      GenerateProps.keepComments options
      = configField fileConfig Config.keepComments)
  /\ (Flags.skipParseJSDoc cliFlags = None ->
      GenerateProps.skipParseJSDoc options
      = configField fileConfig Config.skipParseJSDoc)
  /\ (Flags.inferredTypes cliFlags = None ->
      GenerateProps.inferredTypes options
      = configField fileConfig Config.inferredTypes)
  /\ GenerateProps.nameFilter options
     = configField fileConfig Config.nameFilter
  /\ GenerateProps.jsDocTagFilter options
     = configField fileConfig Config.jsDocTagFilter
  /\ GenerateProps.getSchemaName options
     = configField fileConfig Config.getSchemaName
  /\ GenerateProps.customJSDocFormatTypes options
     = configField fileConfig Config.customJSDocFormatTypes
  /\ fs w inputPath = Some (File (GenerateProps.sourceText options))
  /\ GenerateProps.inputOutputMappings options
     = map (fun io =>
              InputOutputMapping.mk
                (getImportPath inputPath (InputOutputMapping.input io))
                (getImportPath outputPath (InputOutputMapping.output io))
                (InputOutputMapping.getSchemaName io))
           ios
  /\ (forall a, Args.input args = Some a -> a <> "" ->
                inputPath = join cwd a)
  /\ (forall a, Args.output args = Some a -> a <> "" ->
                outputPath = join cwd a).
Proof.
  intros Hprep.
  destruct (prepare_success _ _ _ _ _ Hprep)
    as (input & text & Hin & Hfs & Hdata & _).
  cbv zeta in Hdata. subst data.
  cbn [PrepareData.generateOptions PrepareData.inputPath
       PrepareData.outputPath].
  assert (Harg : forall (a : option string) b s,
             a = Some s -> s <> "" -> Js.or a b = Some s).
  { intros a b s -> Hs. unfold Js.or, Js.truthy.
    now destruct (String.eqb_spec s ""). }
  repeat split.
  1-3: intros v Hv; destruct fileConfig; cbn; now rewrite Hv.
  1-3: intros Hv; destruct fileConfig; cbn; now rewrite Hv.
  1-4: now destruct fileConfig.
  - now destruct fileConfig.
  - now destruct fileConfig.
  - intros a Ha Hne. rewrite (Harg _ _ _ Ha Hne) in Hin.
    unfold Js.nonEmpty in Hin. cbn in Hin.
    destruct (String.eqb_spec a ""); [contradiction|].
    cbn in Hin. now injection Hin as <-.
  - intros a Ha Hne. rewrite (Harg _ _ _ Ha Hne).
    unfold Js.orElse, Js.nonEmpty. cbn.
    destruct (String.eqb_spec a ""); [contradiction|]. reflexivity.
Qed.


Lemma loadEvent_not_write tr :
  Forall isLoadEvent tr -> Forall (fun e => ~ isOutputFile e) tr.
Proof.
  intros H. eapply Forall_impl; [|exact H]. now intros [].
Qed.

Lemma warnings_not_write (l : list string) :
  Forall (fun e => ~ isOutputFile e) (map Warn l).
Proof. apply Forall_forall. intros e He. apply in_map_iff in He.
       destruct He as (x & <- & _). exact (fun H => H). Qed.

(** A generation that does not succeed leaves the files alone. *)
Lemma generate_failure_keeps_files args fileConfig cliFlags ios w :
  exists out w',
    generate args fileConfig cliFlags ios w = (out, w')
    /\ (out <> Returned (Success tt) -> fs w' = fs w).
Proof.
  destruct (generate_cases args fileConfig cliFlags ios w)
    as [(e & _ & Hg)|[(e & i & _ & _ & _ & Hg)|(data & Hg)]].
  - eexists _, _. split; [exact Hg|reflexivity].
  - eexists _, _. split; [exact Hg|reflexivity].
  - cbv zeta in Hg. destruct Hg as [_ Hg].
    destruct (executeCoreGeneration _ _) as [core|e].
    2:{ eexists _, _. split; [exact Hg|reflexivity]. }
    destruct (Flags.skipValidation cliFlags).
    + destruct Hg as (w4 & _ & Hg). eexists _, _.
      split; [exact Hg|]. now intros H.
    + destruct Hg as (loaded & _ & Hg).
      destruct (validateGeneratedTypesInWorker _).
      * destruct Hg as (w4 & _ & Hg). eexists _, _.
        split; [exact Hg|]. now intros H.
      * eexists _, _. split; [exact Hg|reflexivity].
Qed.

(** X4. [generate] writes only when it succeeds.  When it returns a
    failure, the files are those of the call and no write was issued.
    When it succeeds, the writes are its last events: the schema file
    is at the output path, rendered for the input path, a file of
    inferred types is at the path the options name when that names
    another file than the output path, and what was at a path that
    names another file than these two, once resolved against the
    working directory, is still there. *)
Theorem generate_writes_only_on_success args fileConfig cliFlags ios w :
  exists out w' tr,
    generate args fileConfig cliFlags ios w = (out, w')
    /\ trace w' = (trace w ++ tr)%list
    /\ (forall e, out = Returned (Failure e) ->
                  fs w' = fs w /\ Forall (fun e => ~ isOutputFile e) tr)
    /\ (out = Returned (Success tt) ->
        exists data w1 core before,
          prepareGeneratorConfig args fileConfig cliFlags ios w
          = (Returned (Success data), w1)
          /\ executeCoreGeneration (PrepareData.generateOptions data)
                                   (outputProvided args fileConfig)
             = Success core
          /\ let inputPath := PrepareData.inputPath data in
             let outputPath := PrepareData.outputPath data in
             let options := PrepareData.generateOptions data in
             tr = (before ++ writes outputPath inputPath core options)%list
             /\ Forall (fun e => ~ isOutputFile e) before
             /\ fs w' outputPath
                = Some (File (schemasText outputPath inputPath core))
             /\ (forall t,
                   Js.nonEmpty (GenerateProps.inferredTypes options)
                   = Some t ->
                   resolve cwd t <> resolve cwd outputPath ->
                   fs w' t
                   = Some (File (inferredTypesText t outputPath core)))
             /\ (forall p,
                   fs w p <> None ->
                   resolve cwd p <> resolve cwd outputPath ->
                   (forall t,
                       Js.nonEmpty (GenerateProps.inferredTypes options)
                       = Some t ->
                       resolve cwd p <> resolve cwd t) ->
                   fs w' p = fs w p)).
Proof.
  destruct (generate_cases args fileConfig cliFlags ios w)
    as [(e & _ & Hg)|[(e & i & _ & _ & _ & Hg)|(data & Hg)]].
  - exists (Returned (Failure e)), w, []. rewrite app_nil_r.
    split; [exact Hg|]. split; [reflexivity|].
    split; [intros _ _; split; [reflexivity|constructor]|discriminate].
  - eexists (Threw e), _, [ReadFile (join cwd i)].
    split; [exact Hg|]. split; [reflexivity|].
    split; discriminate.
  - cbv zeta in Hg. destruct Hg as [Hprep Hg].
    set (inputPath := PrepareData.inputPath data) in *.
    set (outputPath := PrepareData.outputPath data) in *.
    set (options := PrepareData.generateOptions data) in *.
    destruct (executeCoreGeneration options (outputProvided args fileConfig))
      as [core|e] eqn:Ecore.
    2:{ eexists (Returned (Failure e)), _, [ReadFile inputPath].
        split; [exact Hg|]. split; [reflexivity|].
        split; [intros _ _; split;
                [reflexivity|repeat constructor; exact (fun H => H)]
               |discriminate]. }
    assert (Hwrite : forall w3 before,
               fs w3 = fs w ->
               trace w3 = (trace w ++ before)%list ->
               Forall (fun e => ~ isOutputFile e) before ->
               forall w4,
                 writeOutputFiles outputPath inputPath core options w3
                 = (Returned tt, w4) ->
                 generate args fileConfig cliFlags ios w
                 = (Returned (Success tt), w4) ->
                 exists out w' tr,
                   generate args fileConfig cliFlags ios w = (out, w')
                   /\ trace w' = (trace w ++ tr)%list
                   /\ (forall e, out = Returned (Failure e) ->
                                 fs w' = fs w
                                 /\ Forall (fun e => ~ isOutputFile e) tr)
                   /\ (out = Returned (Success tt) ->
                       exists data0 w1 core0 before0,
                         prepareGeneratorConfig args fileConfig cliFlags ios w
                         = (Returned (Success data0), w1)
                         /\ executeCoreGeneration
                              (PrepareData.generateOptions data0)
                              (outputProvided args fileConfig)
                            = Success core0
                         /\ let inputPath := PrepareData.inputPath data0 in
                            let outputPath := PrepareData.outputPath data0 in
                            let options :=
                              PrepareData.generateOptions data0 in
                            tr = (before0
                                  ++ writes outputPath inputPath core0
                                            options)%list
                            /\ Forall (fun e => ~ isOutputFile e) before0
                            /\ fs w' outputPath
                               = Some (File (schemasText outputPath inputPath
                                                         core0))
                            /\ (forall t,
                                  Js.nonEmpty
                                    (GenerateProps.inferredTypes options)
                                  = Some t ->
                                  resolve cwd t <> resolve cwd outputPath ->
                                  fs w' t
                                  = Some (File (inferredTypesText
                                                  t outputPath core0)))
                            /\ (forall p,
                                  fs w p <> None ->
                                  resolve cwd p <> resolve cwd outputPath ->
                                  (forall t,
                                      Js.nonEmpty
                                        (GenerateProps.inferredTypes options)
                                      = Some t ->
                                      resolve cwd p <> resolve cwd t) ->
                                  fs w' p = fs w p))).
    { intros w3 before Hfs Htr Hbefore w4 Hw Hgen.
      destruct (writeOutputFiles_spec outputPath inputPath core options w3)
        as (w4' & Hw' & Htr4 & Hout & Hinf & Hframe).
      rewrite Hw in Hw'. injection Hw' as <-.
      exists (Returned (Success tt)), w4,
        (before ++ writes outputPath inputPath core options)%list.
      split; [exact Hgen|]. split; [now rewrite Htr4, Htr, app_assoc|].
      split; [discriminate|]. intros _.
      exists data, (mkWorld (fs w) (trace w ++ [ReadFile inputPath])%list),
        core, before.
      split; [exact Hprep|]. split; [exact Ecore|]. cbv zeta.
      fold inputPath. fold outputPath. fold options.
      split; [reflexivity|]. split; [exact Hbefore|].
      split; [exact Hout|]. split.
      - intros t Ht Hr. apply Hinf; [exact Ht|]. now intros ->.
      - intros p _ Hp Hr. rewrite <- Hfs. apply Hframe; [now intros ->|].
        intros Ht. now apply (Hr p Ht). }
    cbv zeta in Hg.
    destruct (Flags.skipValidation cliFlags).
    + destruct Hg as (w4 & Hw & Hgen).
      eapply (Hwrite _ (ReadFile inputPath
                        :: map Warn (CoreGenerationResult.errors core)));
        [| |  |exact Hw|exact Hgen]; cbn [fs trace].
      * reflexivity.
      * now rewrite <- !app_assoc.
      * constructor; [exact (fun H => H)|apply warnings_not_write].
    + destruct Hg as (loaded & Hloaded & Hg).
      set (request := validationRequest inputPath outputPath core options
                                        ios (fs w)) in *.
      assert (Hbefore : forall verdict,
                 ~ isOutputFile verdict ->
                 Forall (fun e => ~ isOutputFile e)
                        (ReadFile inputPath
                         :: map Warn (CoreGenerationResult.errors core)
                         ++ SpinnerStart "Validating generated types"
                            :: (if Flags.all cliFlags
                                then [SpinnerIndent] else [])
                         ++ loaded
                         ++ [WorkerValidation request; verdict])%list).
      { intros verdict Hv.
        constructor; [exact (fun H => H)|].
        apply Forall_app. split; [apply warnings_not_write|].
        constructor; [exact (fun H => H)|].
        apply Forall_app. split.
        - destruct (Flags.all cliFlags); repeat constructor;
            exact (fun H => H).
        - apply Forall_app. split; [now apply loadEvent_not_write|].
          repeat constructor; [exact (fun H => H)|exact Hv]. }
      destruct (validateGeneratedTypesInWorker request) as [|err errs].
      * destruct Hg as (w4 & Hw & Hgen).
        eapply (Hwrite _ _ _ _ (Hbefore SpinnerSucceed (fun H => H)));
          [exact Hw|exact Hgen].
      * eexists _, _,
          (ReadFile inputPath
           :: map Warn (CoreGenerationResult.errors core)
           ++ SpinnerStart "Validating generated types"
              :: (if Flags.all cliFlags then [SpinnerIndent] else [])
           ++ loaded ++ [WorkerValidation request; SpinnerFail])%list.
        split; [exact Hg|]. cbn [fs trace].
        split; [rewrite <- !app_assoc; cbn [app]; reflexivity|].
        split; [|discriminate]. intros _ _. split; [reflexivity|].
        exact (Hbefore SpinnerFail (fun H => H)).
  Unshelve.
  all: cbn [fs trace]; try reflexivity;
    rewrite <- !app_assoc; cbn [app]; reflexivity.
Qed.


Lemma writes_are_writes outputPath inputPath core options :
  Forall isOutputFile (writes outputPath inputPath core options).
Proof.
  unfold writes. destruct (Js.nonEmpty _); repeat constructor.
Qed.

Lemma In_ReadFile_pipeline p q (warnings : list string) ws :
  Forall isOutputFile ws ->
  In (ReadFile p) (ReadFile q :: map Warn warnings ++ ws)%list -> p = q.
Proof.
  intros Hws [[= <-]|Hin]; [reflexivity|].
  apply in_app_or in Hin. destruct Hin as [Hin|Hin].
  - apply in_map_iff in Hin. now destruct Hin as (m & [=] & _).
  - rewrite Forall_forall in Hws. now destruct (Hws _ Hin).
Qed.

(** X5. With [--skipValidation], [generate] never starts the validation
    step: no spinner, no request to the type checker, and no file is
    read but the input.  Once the arguments are accepted and the core
    result is accepted, it succeeds: it reads the input, prints the
    errors of the core result as warnings, in order, and writes. *)
Theorem skip_validation_never_validates args fileConfig cliFlags ios w :
  Flags.skipValidation cliFlags = true ->
  exists out w' tr,
    generate args fileConfig cliFlags ios w = (out, w')
    /\ trace w' = (trace w ++ tr)%list
    /\ Forall (fun e => ~ isValidationEvent e) tr
    /\ (forall p, In (ReadFile p) tr ->
                  exists i,
                    Js.nonEmpty (Js.or (Args.input args)
                                       (option_map Config.input fileConfig))
                    = Some i
                    /\ p = join cwd i)
    /\ (forall data w1 core,
          prepareGeneratorConfig args fileConfig cliFlags ios w
          = (Returned (Success data), w1) ->
          executeCoreGeneration (PrepareData.generateOptions data)
                                (outputProvided args fileConfig)
          = Success core ->
          out = Returned (Success tt)
          /\ tr = (ReadFile (PrepareData.inputPath data)
                   :: map Warn (CoreGenerationResult.errors core)
                   ++ writes (PrepareData.outputPath data)
                             (PrepareData.inputPath data) core
                             (PrepareData.generateOptions data))%list).
Proof.
  intros Hskip.
  destruct (generate_cases args fileConfig cliFlags ios w)
    as [(e & Hprep & Hg)|[(e & i & Hin & _ & Hprep & Hg)|(data & Hg)]].
  - exists (Returned (Failure e)), w, []. rewrite app_nil_r.
    split; [exact Hg|]. split; [reflexivity|]. split; [constructor|].
    split; [intros p []|]. intros data w1 core Hprep'.
    rewrite Hprep in Hprep'. discriminate.
  - eexists (Threw e), _, [ReadFile (join cwd i)].
    split; [exact Hg|]. split; [reflexivity|].
    split; [repeat constructor; exact (fun H => H)|].
    split.
    + intros p [[= <-]|[]]. eauto.
    + intros data w1 core Hprep'. rewrite Hprep in Hprep'. discriminate.
  - cbv zeta in Hg. destruct Hg as [Hprep Hg].
    destruct (prepare_success _ _ _ _ _ Hprep)
      as (i & text & Hin & _ & Hdata & _).
    assert (Hpath : PrepareData.inputPath data = join cwd i)
      by (cbv zeta in Hdata; now subst data).
    destruct (executeCoreGeneration (PrepareData.generateOptions data)
                                    (outputProvided args fileConfig))
      as [core|e] eqn:Ecore.
    + rewrite Hskip in Hg. destruct Hg as (w4 & Hw & Hg).
      destruct (writeOutputFiles_spec
                  (PrepareData.outputPath data) (PrepareData.inputPath data)
                  core (PrepareData.generateOptions data)
                  (mkWorld (fs w)
                     ((trace w ++ [ReadFile (PrepareData.inputPath data)])
                      ++ map Warn (CoreGenerationResult.errors core))%list))
        as (w4' & Hw' & Htr & _).
      cbn [trace] in Hw. rewrite Hw in Hw'. injection Hw' as <-.
      cbn [trace] in Htr.
      exists (Returned (Success tt)), w4,
        (ReadFile (PrepareData.inputPath data)
         :: map Warn (CoreGenerationResult.errors core)
         ++ writes (PrepareData.outputPath data) (PrepareData.inputPath data)
                   core (PrepareData.generateOptions data))%list.
      split; [exact Hg|].
      split; [rewrite Htr, <- !app_assoc; reflexivity|].
      split; [|split].
      * constructor; [exact (fun H => H)|]. apply Forall_app. split.
        -- apply Forall_forall. intros x Hx. apply in_map_iff in Hx.
           destruct Hx as (m & <- & _). exact (fun H => H).
        -- eapply Forall_impl; [|apply writes_are_writes]. now intros [].
      * intros p Hp. exists i. split; [exact Hin|]. rewrite <- Hpath.
        eapply In_ReadFile_pipeline; [|exact Hp]. apply writes_are_writes.
      * intros data' w1 core' Hprep' Hcore'.
        rewrite Hprep in Hprep'. injection Hprep' as <- _.
        rewrite Ecore in Hcore'. injection Hcore' as <-. auto.
    + eexists (Returned (Failure e)), _,
        [ReadFile (PrepareData.inputPath data)].
      split; [exact Hg|]. split; [reflexivity|].
      split; [repeat constructor; exact (fun H => H)|].
      split; [intros p [[= <-]|[]]; eauto|].
      intros data' w1 core' Hprep' Hcore'.
      rewrite Hprep in Hprep'. injection Hprep' as <- _.
      rewrite Ecore in Hcore'. discriminate.
Qed.


(** X6. Without [--skipValidation], once the arguments and the core
    result are accepted, the type checker decides: [generate] reads the
    input, prints the errors of the core result as warnings, loads the
    extra files and sends one request; when the checker reports no
    error, the spinner succeeds, the files are written and the result is
    a success; when it reports errors, the spinner fails, nothing is
    written and the result is the failure whose message is the errors
    joined by newlines.  The warnings of the core result do not bear on
    the result. *)
Theorem validation_decides_generation
        args fileConfig cliFlags ios w data w1 core :
  Flags.skipValidation cliFlags = false ->
  prepareGeneratorConfig args fileConfig cliFlags ios w
  = (Returned (Success data), w1) ->
  executeCoreGeneration (PrepareData.generateOptions data)
                        (outputProvided args fileConfig)
  = Success core ->
  let inputPath := PrepareData.inputPath data in
  let outputPath := PrepareData.outputPath data in
  let options := PrepareData.generateOptions data in
  let request :=
    validationRequest inputPath outputPath core options ios (fs w) in
  let errors := validateGeneratedTypesInWorker request in
  exists w' loaded,
    generate args fileConfig cliFlags ios w
    = (Returned match errors with
                | [] => Success tt
                | _ :: _ => Failure (Js.join Js.nl errors)
                end, w')
    /\ Forall isLoadEvent loaded
    /\ trace w'
       = (trace w
          ++ ReadFile inputPath
             :: map Warn (CoreGenerationResult.errors core)
          ++ SpinnerStart "Validating generated types"
             :: (if Flags.all cliFlags then [SpinnerIndent] else [])
          ++ loaded
          ++ WorkerValidation request
             :: match errors with
                | [] =>
                    SpinnerSucceed
                    :: writes outputPath inputPath core options
                | _ :: _ => [SpinnerFail]
                end)%list
    /\ (errors <> [] -> fs w' = fs w).
Proof.
  intros Hskip Hprep Hcore inputPath outputPath options request errors.
  destruct (generate_cases args fileConfig cliFlags ios w)
    as [(e & Hprep' & _)|[(e & i & _ & _ & Hprep' & _)|(data' & Hg)]];
    try (rewrite Hprep in Hprep'; discriminate).
  cbv zeta in Hg. destruct Hg as [Hprep' Hg].
  rewrite Hprep in Hprep'. injection Hprep' as <- _.
  rewrite Hcore, Hskip in Hg.
  fold inputPath outputPath options in Hg. fold request in Hg.
  fold errors in Hg.
  destruct Hg as (loaded & Hloaded & Hg).
  destruct errors as [|err errs].
  - destruct Hg as (w4 & Hw & Hg).
    match type of Hw with
    | writeOutputFiles ?a ?b ?c ?d ?v = _ =>
        destruct (writeOutputFiles_spec a b c d v) as (w4' & Hw' & Htr & _)
    end.
    rewrite Hw in Hw'. injection Hw' as <-. cbn [trace] in Htr.
    exists w4, loaded. split; [exact Hg|]. split; [exact Hloaded|].
    split; [|now intros H].
    rewrite Htr, <- !app_assoc. cbn [app]. rewrite <- !app_assoc.
    reflexivity.
  - eexists _, loaded. split; [exact Hg|]. split; [exact Hloaded|].
    cbn [fs trace]. split; [|reflexivity].
    rewrite <- !app_assoc. reflexivity.
Qed.

(** X7. [validateGeneratedContent] touches no file, and an unreadable
    extra file does not make it throw.  It starts the spinner, indented
    under [--all], loads the extra files, sends one request to the type
    checker, whose extra files are the inputs and outputs of the
    mappings other than the current input that read back, and ends the
    spinner: with a success when the checker reports no error, and
    otherwise with the failure whose message is the errors joined by
    newlines. *)
Theorem validation_verdict cliFlags inputPath outputPath core options ios w :
  let request :=
    workerRequest inputPath outputPath core options
                  (extraFilesOf (fs w) inputPath ios) in
  let errors := validateGeneratedTypesInWorker request in
  exists loaded,
    validateGeneratedContent cliFlags inputPath outputPath core options ios w
    = (Returned match errors with
                | [] => Success tt
                | _ :: _ => Failure (Js.join Js.nl errors)
                end,
       mkWorld (fs w)
               (trace w
                ++ SpinnerStart "Validating generated types"
                   :: (if Flags.all cliFlags then [SpinnerIndent] else [])
                ++ loaded
                ++ [WorkerValidation request;
                    match errors with
                    | [] => SpinnerSucceed
                    | _ :: _ => SpinnerFail
                    end])%list)
    /\ Forall isLoadEvent loaded.
Proof.
  exact (validateGeneratedContent_spec cliFlags inputPath outputPath core
           options ios w).
Qed.

(** X8. The loading of the extra files never throws and changes no
    file.  It appends, in the order of the mappings, the input and then
    the output of every mapping whose input is not the current input:
    an entry is added exactly for the files that read back, with their
    text and their relative path; and for each file that does not, the
    spinner warns with the message that names it. *)
Theorem extra_files_skip_missing inputPath ios acc w :
  exists extra tr,
    loadExtraFiles inputPath ios acc w
    = (Returned extra, mkWorld (fs w) (trace w ++ tr)%list)
    /\ extra = (acc ++ extraFilesOf (fs w) inputPath ios)%list
    /\ (forall entry,
          In entry extra <->
          In entry acc
          \/ exists io p,
               In io ios
               /\ getImportPath inputPath (InputOutputMapping.input io)
                  <> "/"
               /\ (p = InputOutputMapping.input io
                   \/ p = InputOutputMapping.output io)
               /\ SourceEntry.relativePath entry = p
               /\ fs w (join cwd p)
                  = Some (File (SourceEntry.sourceText entry)))
    /\ Forall isLoadEvent tr
    /\ (forall io,
          In io ios ->
          getImportPath inputPath (InputOutputMapping.input io) <> "/" ->
          (readable (fs w) (join cwd (InputOutputMapping.input io)) = false ->
           In (SpinnerWarn ("File " ++ quoted (InputOutputMapping.input io)
                            ++ " not found")) tr)
          /\ (readable (fs w) (join cwd (InputOutputMapping.output io))
              = false ->
              In (SpinnerWarn
                    ("File " ++ quoted (InputOutputMapping.output io)
                     ++ " not found: maybe it hasn't been generated yet?"))
                 tr)).
Proof.
  destruct (loadExtraFiles_spec inputPath ios acc w) as (tr & Heq & Htr & Hw).
  eexists _, tr. split; [exact Heq|]. split; [reflexivity|].
  split; [|split; [exact Htr|exact Hw]].
  assert (Hentry : forall entry p,
             In entry (extraEntry (fs w) p) <->
             SourceEntry.relativePath entry = p
             /\ fs w (join cwd p) = Some (File (SourceEntry.sourceText entry))).
  { intros [text rel] p. unfold extraEntry. cbn.
    destruct (fs w (join cwd p)) as [[t|m]|]; cbn; split;
      try (intros []; fail); try (intros [_ H]; discriminate).
    - intros [[= <- <-]|[]]. auto.
    - intros [-> [= ->]]. auto. }
  intros entry. rewrite in_app_iff. unfold extraFilesOf.
  rewrite in_flat_map. split.
  - intros [H|(io & Hio & H)]; [now left|]. right.
    destruct (String.eqb_spec
                (getImportPath inputPath (InputOutputMapping.input io)) "/")
      as [|Hne]; [destruct H|].
    apply in_app_or in H. destruct H as [H|H]; apply Hentry in H;
      destruct H as [H1 H2].
    + exists io, (InputOutputMapping.input io). auto 6.
    + exists io, (InputOutputMapping.output io). auto 6.
  - intros [H|(io & p & Hio & Hne & Hp & Hrel & Hfs)]; [now left|]. right.
    exists io. split; [exact Hio|].
    destruct (String.eqb_spec
                (getImportPath inputPath (InputOutputMapping.input io)) "/")
      as [|_]; [contradiction|].
    apply in_or_app.
    destruct Hp as [->| ->]; [left|right]; apply Hentry; auto.
Qed.

(** X9. What the storage holds once the writes of [writeOutputFiles]
    have gone through.  The last write puts the schema file at the
    output path: the schemas rendered for the import path from the
    output to the input, transpiled when the relative output path ends
    in a JavaScript extension, and formatted.  When the options name a
    path for the inferred types, that file is written first, transpiled
    when its path ends in a JavaScript extension; so when the two paths
    name the same file, the schema file is what stays.  What was at a
    path that names another file than these two, once resolved against
    the working directory, is still there. *)
Theorem write_output_files_frame outputPath inputPath core options w w' :
  writeOutputFiles outputPath inputPath core options w = (Returned tt, w') ->
  trace w'
  = (trace w
     ++ match Js.nonEmpty (GenerateProps.inferredTypes options) with
        | Some inferredTypes =>
            [OutputFile inferredTypes
               (inferredTypesText inferredTypes outputPath core)]
        | None => []
        end
     ++ [OutputFile outputPath (schemasText outputPath inputPath core)])%list
  /\ fs w' outputPath
     = Some (File (schemasText outputPath inputPath core))
  /\ (forall t,
        Js.nonEmpty (GenerateProps.inferredTypes options) = Some t ->
        resolve cwd t <> resolve cwd outputPath ->
        fs w' t = Some (File (inferredTypesText t outputPath core)))
  /\ (forall p,
        fs w p <> None ->
        resolve cwd p <> resolve cwd outputPath ->
        (forall t,
            Js.nonEmpty (GenerateProps.inferredTypes options) = Some t ->
            resolve cwd p <> resolve cwd t) ->
        fs w' p = fs w p).
Proof.
  intros Hw.
  destruct (writeOutputFiles_spec outputPath inputPath core options w)
    as (w4 & Hw' & Htr & Hout & Hinf & Hframe).
  rewrite Hw in Hw'. injection Hw' as <-.
  split; [exact Htr|]. split; [exact Hout|]. split.
  - intros t Ht Hr. apply Hinf; [exact Ht|]. now intros ->.
  - intros p _ Hp Hr. apply Hframe; [now intros ->|].
    intros Ht. now apply (Hr p Ht).
Qed.

(** X10. A run with a single config, or with none, passes on what the
    generation gives.  When the generation succeeds, the success message
    is printed after its writes.  When the generation returns a failure,
    no file has changed, and the failure's message is printed as a fatal
    error and thrown.  When the generation itself throws, the run throws
    the same and prints nothing more. *)
Theorem single_run_passes_generation_on args fileConfig cliFlags ios w :
  exists out w',
    runSingle args fileConfig cliFlags ios w = (out, w')
    /\ ((exists w1,
            generate args fileConfig cliFlags ios w
            = (Returned (Success tt), w1)
            /\ out = Returned tt
            /\ w' = mkWorld (fs w1)
                            (trace w1 ++ [Log "🎉 Zod schemas generated!"])
                            %list)
        \/ (exists e w1,
               generate args fileConfig cliFlags ios w
               = (Returned (Failure e), w1)
               /\ out = Threw e
               /\ w' = mkWorld (fs w) (trace w1 ++ [FatalError e])%list)
        \/ (exists e,
               generate args fileConfig cliFlags ios w = (Threw e, w')
               /\ out = Threw e)).
Proof.
  unfold runSingle, bind.
  destruct (generate_failure_keeps_files args fileConfig cliFlags
                                                  ios w)
    as (out & w1 & Hg & Hfs).
  rewrite Hg.
  destruct out as [[[]|e]|e].
  - eexists _, _. split; [reflexivity|]. left. exists w1. auto.
  - eexists _, _. split; [reflexivity|]. right. left. exists e, w1.
    split; [reflexivity|]. split; [reflexivity|].
    unfold cliError. now rewrite Hfs.
  - eexists _, _. split; [reflexivity|]. right. right. exists e.
    split; reflexivity.
Qed.

End PipelineExtras.

(** ** The graph that discovery records *)

Section DiscoveryGraphFacts.
Context {P : NodePath} {C : Collaborators}.

Lemma acceptedImports_fs p nodes w w' :
  fs w' = fs w -> acceptedImports p nodes w' = acceptedImports p nodes w.
Proof.
  intros Hfs. unfold acceptedImports. apply flat_map_ext. intros node.
  now rewrite (acceptedImport_fs p node _ _ Hfs).
Qed.

Lemma has_withEdges p imports k infos :
  StrMap.has k (withEdges p imports infos) = StrMap.has k infos.
Proof.
  revert infos. induction imports as [|q l IH]; intros infos; cbn;
    [reflexivity|].
  unfold withEdges in IH. now rewrite IH, has_addEdge.
Qed.

Lemma get_addEdge_other p q k infos :
  k <> p -> StrMap.get k (addEdge p q infos) = StrMap.get k infos.
Proof.
  intros Hk. unfold addEdge.
  destruct (StrMap.get p infos); [|reflexivity].
  now apply StrMapFacts.get_set_other.
Qed.

Lemma get_withEdges_other p imports k infos :
  k <> p -> StrMap.get k (withEdges p imports infos) = StrMap.get k infos.
Proof.
  intros Hk. revert infos.
  induction imports as [|q l IH]; intros infos; cbn; [reflexivity|].
  unfold withEdges in IH. now rewrite IH, get_addEdge_other.
Qed.

Lemma get_withEdges_same p imports infos info :
  StrMap.get p infos = Some info ->
  StrMap.get p (withEdges p imports infos)
  = Some (FileInfo.mk (FileInfo.relativePath info)
            (fold_left (fun s q => StrSet.add q s) imports
                       (FileInfo.localImportAbsPaths info))).
Proof.
  revert infos info.
  induction imports as [|q l IH]; intros infos info Hget; cbn.
  - rewrite Hget. now destruct info.
  - unfold withEdges in IH.
    rewrite (IH _ (FileInfo.mk (FileInfo.relativePath info)
                     (StrSet.add q (FileInfo.localImportAbsPaths info)))).
    + reflexivity.
    + unfold addEdge. rewrite Hget. apply StrMapFacts.get_set_same.
Qed.

Lemma In_fold_add imports s q :
  In q (fold_left (fun s q => StrSet.add q s) imports s)
  <-> In q s \/ In q imports.
Proof.
  revert s. induction imports as [|x l IH]; intros s; cbn; [tauto|].
  rewrite IH, StrSetFacts.In_add. intuition congruence.
Qed.

Lemma NoDup_fold_add imports s :
  NoDup s -> NoDup (fold_left (fun s q => StrSet.add q s) imports s).
Proof.
  revert s. induction imports as [|x l IH]; intros s Hs; cbn; [exact Hs|].
  apply IH. now apply StrSetFacts.NoDup_add.
Qed.

(** The scan of the statements of a recorded file, in full. *)
Lemma forEachChild_exact p rel nodes :
  forall infos toExplore w,
    StrMap.has p infos = true ->
    exists dbg,
      Forall isDebug dbg
      /\ forEachChild nodes (visitNode p rel) (infos, toExplore) w
         = (Returned
              (withEdges p (acceptedImports p nodes w) infos,
               (toExplore
                ++ filter (fun q => negb (StrMap.has q infos))
                          (acceptedImports p nodes w))%list),
            mkWorld (fs w) (trace w ++ dbg)%list).
Proof.
  induction nodes as [|node rest IH]; intros infos toExplore w Hhas;
    cbn [forEachChild].
  - exists []. split; [constructor|]. cbn. rewrite !app_nil_r.
    now destruct w.
  - destruct (visitNode_spec p rel node infos toExplore w Hhas)
      as (dbg & Hdbg & Heq & _).
    set (w1 := mkWorld (fs w) (trace w ++ dbg)%list) in *.
    assert (Hfs : fs w1 = fs w) by reflexivity.
    unfold acceptedImports. cbn [flat_map].
    fold (acceptedImports p rest w).
    rewrite <- (acceptedImports_fs p rest w w1 Hfs).
    unfold bind.
    destruct (acceptedImport p node w) as [q|]; rewrite Heq; clear Heq;
      cbv beta iota.
    + destruct (IH (addEdge p q infos)
                   (if StrMap.has q infos then toExplore
                    else (toExplore ++ [q])%list) w1)
        as (dbg' & Hdbg' & Heq').
      { now rewrite has_addEdge. }
      exists (dbg ++ dbg')%list.
      split; [now apply Forall_app|]. refine (eq_trans Heq' _).
      cbn [app fold_left filter withEdges fs trace w1].
      rewrite <- app_assoc. f_equal. f_equal. f_equal.
      erewrite filter_ext
        with (g := fun q0 => negb (StrMap.has q0 infos))
        by (intros a; now rewrite has_addEdge).
      destruct (StrMap.has q infos); cbn [negb];
        [reflexivity|now rewrite <- app_assoc].
    + destruct (IH infos toExplore w1 Hhas) as (dbg' & Hdbg' & Heq').
      exists (dbg ++ dbg')%list.
      split; [now apply Forall_app|]. refine (eq_trans Heq' _).
      cbn [app fs trace w1]. now rewrite <- app_assoc.
Qed.


Lemma EntryOk_fs w w' k info :
  fs w' = fs w -> EntryOk w' k info -> EntryOk w k info.
Proof.
  intros Hfs (H1 & H2 & H3 & H4). unfold EntryOk.
  rewrite <- Hfs, <- (importsOf_fs w w' k Hfs). auto.
Qed.

Lemma Grows_fs w w' infos infos' :
  fs w' = fs w -> Grows w' infos infos' -> Grows w infos infos'.
Proof.
  intros Hfs [H1 H2]. split; [exact H1|].
  intros k info Hget Hhas. eapply EntryOk_fs; eauto.
Qed.

Lemma NewClosed_fs w w' infos infos' :
  fs w' = fs w -> NewClosed w' infos infos' -> NewClosed w infos infos'.
Proof.
  intros Hfs H k Hk Hk' q Hq. apply (H k Hk Hk').
  now rewrite (importsOf_fs w w' k Hfs).
Qed.

Lemma Grows_refl w infos : Grows w infos infos.
Proof.
  split; [reflexivity|]. intros k info Hget Hhas.
  unfold StrMap.has in Hhas. now rewrite Hget in Hhas.
Qed.

Lemma Grows_has w infos infos' k :
  Grows w infos infos' ->
  StrMap.has k infos = true -> StrMap.has k infos' = true.
Proof.
  intros [H _] Hk. unfold StrMap.has in *. now rewrite (H k Hk).
Qed.

Lemma Grows_trans w a b c : Grows w a b -> Grows w b c -> Grows w a c.
Proof.
  intros Hab Hbc. split.
  - intros k Hk. destruct Hab as [Hab _], Hbc as [Hbc _].
    rewrite Hbc, Hab; auto. unfold StrMap.has in *. now rewrite (Hab k Hk).
  - intros k info Hget Hk.
    destruct (StrMap.has k b) eqn:Ekb.
    + destruct Hab as [_ Hab]. apply Hab; [|exact Hk].
      destruct Hbc as [Hbc _]. now rewrite <- (Hbc k Ekb).
    + destruct Hbc as [_ Hbc]. now apply Hbc.
Qed.

Lemma NewClosed_refl w infos : NewClosed w infos infos.
Proof. intros k H1 H2. congruence. Qed.

Lemma NewClosed_trans w a b c :
  Grows w b c -> NewClosed w a b -> NewClosed w b c -> NewClosed w a c.
Proof.
  intros Hbc Hab Hc k Hk Hka q Hq.
  destruct (StrMap.has k b) eqn:Ekb.
  - eapply Grows_has; [exact Hbc|]. now apply (Hab k Ekb Hka).
  - now apply (Hc k Hk Ekb).
Qed.

Lemma uniq_complete l x : In x l -> In x (uniq l).
Proof.
  unfold uniq.
  assert (H : forall seen, In x l -> ~ In x seen -> In x (uniqFrom seen l)).
  { induction l as [|y l IH]; intros seen Hin Hseen; [destruct Hin|].
    cbn [uniqFrom].
    destruct (StrSet.has y seen) eqn:Ey.
    - apply StrSetFacts.has_In in Ey.
      destruct Hin as [->|Hin]; [contradiction|]. now apply IH.
    - destruct (String.eqb_spec x y) as [->|Hne]; [now left|].
      destruct Hin as [->|Hin]; [contradiction|].
      right. apply IH; [exact Hin|]. intros [->|H]; contradiction. }
  intros Hin. apply H; [exact Hin|]. intros [].
Qed.

(** The loop over the imports to explore, given what one recursive call
    achieves. *)
Lemma exploreAll_graph w maxDepth d fuel :
  (forall q infos0 w0,
      GraphPost w0 q infos0
                (performFileDiscoveryFuel fuel q infos0 maxDepth (d + 1) w0)) ->
  forall imports infos0 w0 infos' w',
    fs w0 = fs w ->
    exploreAll
      (fun importPath infos1 =>
         performFileDiscoveryFuel fuel importPath infos1 maxDepth (d + 1))
      imports infos0 w0
    = (Returned (Some infos'), w') ->
    fs w' = fs w
    /\ Grows w infos0 infos'
    /\ exists tr,
        trace w' = (trace w0 ++ tr)%list
        /\ (Forall (fun e => ~ isWarn e) tr ->
            (forall q, In q imports -> StrMap.has q infos' = true)
            /\ NewClosed w infos0 infos').
Proof.
  intros IH. induction imports as [|q rest IHl];
    intros infos0 w0 infos' w' Hfs; cbn [exploreAll].
  - intros [= <- <-]. split; [exact Hfs|]. split; [apply Grows_refl|].
    exists []. split; [now rewrite app_nil_r|]. intros _.
    split; [intros q []|apply NewClosed_refl].
  - unfold bind at 1.
    destruct (performFileDiscoveryFuel fuel q infos0 maxDepth (d + 1) w0)
      as [[[m|]|e] w1] eqn:E; try discriminate.
    + intros Hrest.
      destruct (IH q infos0 w0 m w1 E)
        as (Hfs1 & Hg1 & tr1 & Htr1 & Hc1).
      assert (Hfs1' : fs w1 = fs w) by congruence.
      destruct (IHl m w1 infos' w' Hfs1' Hrest)
        as (Hfs2 & Hg2 & tr2 & Htr2 & Hc2).
      eapply Grows_fs in Hg1; [|exact Hfs].
      split; [exact Hfs2|]. split; [eapply Grows_trans; eassumption|].
      exists (tr1 ++ tr2)%list.
      split; [now rewrite Htr2, Htr1, app_assoc|].
      intros Hquiet. apply Forall_app in Hquiet.
      destruct Hquiet as [Hq1 Hq2].
      destruct (Hc1 Hq1) as [Hhas1 Hclosed1].
      destruct (Hc2 Hq2) as [Hhas2 Hclosed2].
      eapply NewClosed_fs in Hclosed1; [|exact Hfs].
      split.
      * intros x [<-|Hx]; [|now apply Hhas2].
        eapply Grows_has; eassumption.
      * eapply NewClosed_trans; eassumption.
Qed.

(** Every discovery call that ends with a map has grown the map by
    right entries. *)
Lemma discovery_graph fuel :
  forall path infos maxDepth d w,
    GraphPost w path infos
              (performFileDiscoveryFuel fuel path infos maxDepth d w).
Proof.
  induction fuel as [|fuel IH]; intros path infos maxDepth d w infos' w';
    cbn [performFileDiscoveryFuel]; [discriminate|].
  destruct (d >? maxDepth)%Z.
  { run_async. intros [= <- <-]. split; [reflexivity|].
    split; [apply Grows_refl|]. eexists. split; [reflexivity|].
    intros H. apply Forall_inv in H. now destruct H. }
  destruct (StrMap.has path infos) eqn:Ehas.
  { run_async. intros [= <- <-]. split; [reflexivity|].
    split; [apply Grows_refl|]. eexists. split; [reflexivity|].
    intros _. split; [exact Ehas|apply NewClosed_refl]. }
  run_async.
  destruct (fs w path) as [[sourceText|message]|] eqn:Efs; cbn [fs trace].
  2,3: intros [= <- <-]; split; [reflexivity|];
       split; [apply Grows_refl|]; eexists;
       (split; [rewrite <- !app_assoc; reflexivity|]);
       intros H; apply Forall_inv_tail, Forall_inv_tail, Forall_inv in H;
       now destruct H.
  set (rel := slash (relative cwd path)).
  set (recorded := StrMap.set path (FileInfo.mk rel StrSet.empty) infos).
  set (w1 := mkWorld (fs w) _).
  assert (Hrec : StrMap.has path recorded = true)
    by (unfold recorded; now rewrite StrMapFacts.has_set, String.eqb_refl).
  set (nodes := createSourceFile path sourceText).
  destruct (forEachChild_exact path rel nodes recorded [] w1 Hrec)
    as (dbg & Hdbg & Heq).
  rewrite Heq. clear Heq. cbn [app fs trace w1].
  set (imports := acceptedImports path nodes w1).
  assert (Himports : importsOf w path = imports).
  { unfold importsOf. rewrite Efs. symmetry.
    now apply acceptedImports_fs. }
  set (scanned := withEdges path imports recorded).
  set (w2 := mkWorld (fs w) _).
  intros Hexplore.
  destruct (@exploreAll_graph w maxDepth d fuel
              (fun q infos0 w0 => IH q infos0 maxDepth (d + 1)%Z w0)
              _ scanned w2 infos' w' eq_refl Hexplore)
    as (Hfs' & Hgrow & tr & Htr & Hclosed).
  assert (Hscan : Grows w infos scanned).
  { split.
    - intros k Hk.
      assert (Hne : k <> path) by (intros ->; congruence).
      unfold scanned. rewrite get_withEdges_other by exact Hne.
      unfold recorded. now apply StrMapFacts.get_set_other.
    - intros k info Hget Hk.
      destruct (String.eqb_spec k path) as [->|Hne].
      + unfold scanned in Hget.
        rewrite (get_withEdges_same path imports recorded
                   (info := FileInfo.mk rel StrSet.empty)) in Hget
          by (unfold recorded; apply StrMapFacts.get_set_same).
        injection Hget as <-. unfold EntryOk.
        cbn [FileInfo.relativePath FileInfo.localImportAbsPaths].
        split; [reflexivity|].
        split; [unfold readable; now rewrite Efs|].
        split; [apply NoDup_fold_add; constructor|].
        intros q. rewrite In_fold_add, Himports. cbn. tauto.
      + unfold scanned in Hget.
        rewrite get_withEdges_other in Hget by exact Hne.
        unfold recorded in Hget.
        rewrite StrMapFacts.get_set_other in Hget by exact Hne.
        unfold StrMap.has in Hk. now rewrite Hget in Hk. }
  split; [exact Hfs'|]. split; [eapply Grows_trans; eassumption|].
  eexists. split.
  { rewrite Htr. cbn [trace w2]. rewrite <- !app_assoc. reflexivity. }
  intros Hquiet.
  assert (Hq : Forall (fun e => ~ isWarn e) tr).
  { cbn [app] in Hquiet.
    apply Forall_inv_tail, Forall_inv_tail in Hquiet.
    now apply Forall_app in Hquiet. }
  destruct (Hclosed Hq) as [Hall Hnew].
  assert (Hpath : StrMap.has path infos' = true).
  { eapply Grows_has; [exact Hgrow|].
    unfold scanned. now rewrite has_withEdges. }
  split; [exact Hpath|].
  intros k Hk Hk0 q Hq0.
  destruct (StrMap.has k scanned) eqn:Eks.
  - unfold scanned in Eks. rewrite has_withEdges in Eks.
    unfold recorded in Eks. rewrite StrMapFacts.has_set in Eks.
    rewrite Hk0, orb_false_r in Eks. apply String.eqb_eq in Eks. subst k.
    rewrite Himports in Hq0.
    destruct (StrMap.has q recorded) eqn:Eq.
    + eapply Grows_has; [exact Hgrow|].
      unfold scanned. now rewrite has_withEdges.
    + apply Hall, uniq_complete, filter_In. split; [exact Hq0|].
      now rewrite Eq.
  - now apply (Hnew k Hk Eks).
Qed.

End DiscoveryGraphFacts.

Section DiscoveryExtras.
Context {P : NodePath} {C : Collaborators}.

(** X11. Discovery records the import graph as the sources have it.
    Every call returns a map in which the entries that were there are
    untouched, and in which every new entry is for a file that was read:
    its relative path is the path relative to the working directory, in
    forward-slash form, and its local imports are, each once, exactly
    the imports of the file's source that are relative and resolve to
    an existing [.ts] or [.tsx] file. *)
Theorem discovery_records_the_import_graph path infos maxDepth d w :
  exists infos' tr,
    performFileDiscovery path infos maxDepth d w
    = (Returned (Some infos'), mkWorld (fs w) (trace w ++ tr)%list)
    /\ (forall k, StrMap.has k infos = true ->
                  StrMap.get k infos' = StrMap.get k infos)
    /\ (forall k info,
          StrMap.get k infos' = Some info ->
          StrMap.has k infos = false ->
          FileInfo.relativePath info = slash (relative cwd k)
          /\ readable (fs w) k = true
          /\ NoDup (FileInfo.localImportAbsPaths info)
          /\ forall q, In q (FileInfo.localImportAbsPaths info)
                       <-> In q (importsOf w k)).
Proof.
  destruct (performFileDiscovery_spec path infos maxDepth d w)
    as (infos' & tr & Heq & _).
  exists infos', tr. split; [exact Heq|].
  destruct (discovery_graph _ _ _ _ _ _ Heq) as (_ & [Hold Hnew] & _).
  split; [exact Hold|exact Hnew].
Qed.

(** X12. A discovery from the seed that prints no warning, neither for
    the depth nor for a file it could not read, records exactly the
    files that can be reached from the seed by following local
    imports. *)
Theorem discovery_without_warning_is_complete seed maxDepth w :
  exists infos' tr,
    performFileDiscovery seed StrMap.empty maxDepth 0 w
    = (Returned (Some infos'), mkWorld (fs w) (trace w ++ tr)%list)
    /\ (Forall (fun e => ~ isWarn e) tr ->
        forall r, In r (StrMap.keys infos')
                  <-> exists n, within w n seed r).
Proof.
  destruct (performFileDiscovery_spec seed StrMap.empty maxDepth 0 w)
    as (infos' & tr & Heq & _ & _ & _ & Hbound).
  exists infos', tr. split; [exact Heq|]. intros Hquiet r.
  destruct (discovery_graph _ _ _ _ _ _ Heq)
    as (_ & _ & tr' & Htr & Hclosed).
  cbn [trace] in Htr. apply app_inv_head in Htr. subst tr'.
  destruct (Hclosed Hquiet) as [Hseed Hnew].
  split.
  - intros Hr. destruct (Hbound r Hr) as [[]|[_ Hw]]. eauto.
  - intros (n & Hw). apply StrMapFacts.has_In_keys.
    assert (Hreach : forall n p r,
               within w n p r ->
               StrMap.has p infos' = true -> StrMap.has r infos' = true).
    { clear - Hnew. intros n p r Hw.
      induction Hw as [n p|n p q r Hq Hw IH]; intros Hp; [exact Hp|].
      apply IH. exact (Hnew p Hp eq_refl q Hq). }
    exact (Hreach n seed r Hw Hseed).
Qed.

End DiscoveryExtras.

(** ** The run of nested generation *)

Section NestedRunFacts.
Context {P : NodePath} {C : Collaborators}.
Variable pickItem : World -> list DiscoveredConfig.t -> nat.

Lemma set_new V k (v : V) (m : StrMap.t V) :
  StrMap.has k m = false -> StrMap.set k v m = (m ++ [(k, v)])%list.
Proof.
  unfold StrMap.has. induction m as [|[k' v'] m IH]; cbn; [reflexivity|].
  destruct (k =? k')%string; [discriminate|]. intros H. now rewrite IH.
Qed.

Lemma configsForGeneration_exact cliFlags infos :
  forall l acc,
    NoDup (StrMap.keys acc ++ StrMap.keys l) ->
    fold_left
      (fun configs (entry : string * FileInfo.t) =>
         let (absPath, info) := entry in
         StrMap.set absPath
           (DiscoveredConfig.mk absPath (nestedConfig cliFlags info)
              (nestedDependencies infos info))
           configs)
      l acc
    = (acc ++ map (fun e => (fst e, builtFor cliFlags infos (fst e) (snd e)))
                  l)%list.
Proof.
  induction l as [|[k info] l IH]; intros acc Hnd; cbn [fold_left map].
  - now rewrite app_nil_r.
  - assert (Hk : StrMap.has k acc = false).
    { apply StrMapFacts.has_false_keys. cbn in Hnd.
      apply NoDup_remove_2 in Hnd. intros H. apply Hnd.
      apply in_or_app. now left. }
    rewrite (@set_new _ k _ acc Hk), IH.
    + rewrite <- app_assoc. reflexivity.
    + unfold StrMap.keys in *. rewrite map_app. cbn [map fst].
      rewrite <- app_assoc. exact Hnd.
Qed.

Lemma allConfigs_exact cliFlags infos :
  NoDup (StrMap.keys infos) ->
  allConfigsToGenerate cliFlags infos
  = map (fun e => builtFor cliFlags infos (fst e) (snd e)) infos.
Proof.
  intros Hnd. unfold allConfigsToGenerate, configsForGeneration.
  rewrite configsForGeneration_exact by exact Hnd.
  unfold StrMap.empty. cbn [app]. rewrite map_map. reflexivity.
Qed.

Lemma NoDup_ids_filter f (l : list DiscoveredConfig.t) :
  NoDup (map DiscoveredConfig.id l) ->
  NoDup (map DiscoveredConfig.id (filter f l)).
Proof.
  induction l as [|x l IH]; cbn [filter map]; intros Hnd; [constructor|].
  inversion Hnd as [|? ? Hx Hl]; subst.
  destruct (f x); cbn [map]; [|now apply IH].
  constructor; [|now apply IH].
  intros Hin. apply Hx. apply in_map_iff in Hin.
  destruct Hin as (y & Hy & Hin). apply filter_In in Hin.
  apply in_map_iff. exists y. tauto.
Qed.

Lemma filter_partition_length A (f : A -> bool) (l : list A) :
  (List.length (filter f l)
   + List.length (filter (fun x => negb (f x)) l))%nat = List.length l.
Proof.
  induction l as [|x l IH]; cbn; [reflexivity|].
  destruct (f x); cbn; lia.
Qed.

Lemma withoutBatch_not_ready st :
  NoDup (map DiscoveredConfig.id (LoopState.generationQueue st)) ->
  withoutBatch (batchToGenerate st) (LoopState.generationQueue st)
  = filter (fun item => negb (isReady (LoopState.generatedConfigIds st) item))
           (LoopState.generationQueue st).
Proof.
  intros Hnd. unfold withoutBatch. apply filter_ext_in. intros item Hitem.
  f_equal.
  destruct (isReady (LoopState.generatedConfigIds st) item) eqn:Er.
  - apply existsb_exists. exists item. split; [|apply String.eqb_refl].
    unfold batchToGenerate. apply filter_In. auto.
  - destruct (existsb _ _) eqn:Ex; [|reflexivity].
    apply existsb_exists in Ex. destruct Ex as (b & Hb & Hid).
    apply String.eqb_eq in Hid.
    unfold batchToGenerate in Hb. apply filter_In in Hb.
    destruct Hb as [Hb Hrb].
    rewrite (@same_id_same_item _ b item Hnd Hb Hitem Hid) in Hrb. congruence.
Qed.

(** A loop that ends with a count has generated every queued item. *)
Lemma generationLoop_total cliFlags ios fuel :
  forall st w total w',
    NoDup (map DiscoveredConfig.id (LoopState.generationQueue st)) ->
    generationLoop pickItem fuel cliFlags ios st w
    = (Returned (Some total), w') ->
    total = (LoopState.totalGeneratedCount st
             + List.length (LoopState.generationQueue st))%nat
    /\ exists tr,
        extends w w' tr
        /\ forall item,
            In item (LoopState.generationQueue st) ->
            In (GenerateSettled (DiscoveredConfig.id item) true) tr.
Proof.
  induction fuel as [|fuel IH]; intros st w total w' Hnd;
    cbn [generationLoop]; [discriminate|].
  unfold bind.
  destruct (loopIteration_spec pickItem cliFlags ios st w)
    as (out & w1 & tr1 & Heq & Hext1 & Hcase).
  rewrite Heq.
  destruct Hcase as [(Hq & -> & ->)
                    |[(_ & _ & -> & _)|(_ & _ & done & Hres)]].
  - intros [= <- <-]. rewrite Hq. cbn [List.length].
    split; [lia|]. exists []. split; [exact Hext1|]. intros item [].
  - discriminate.
  - destruct Hres as [(-> & Hperm & Hs)|(e & failed & -> & _)];
      [|discriminate].
    intros Hloop.
    apply IH in Hloop;
      [|cbn [LoopState.generationQueue];
        rewrite withoutBatch_not_ready by exact Hnd;
        now apply NoDup_ids_filter].
    cbn [LoopState.generationQueue LoopState.totalGeneratedCount] in Hloop.
    destruct Hloop as (-> & tr2 & Hext2 & Hall).
    split.
    + rewrite withoutBatch_not_ready by exact Hnd.
      unfold batchToGenerate.
      pose proof (filter_partition_length
                    (isReady (LoopState.generatedConfigIds st))
                    (LoopState.generationQueue st)).
      lia.
    + exists (tr1 ++ tr2)%list.
      split; [eapply extends_trans; eassumption|].
      intros item Hitem. apply in_or_app.
      destruct (isReady (LoopState.generatedConfigIds st) item) eqn:Er.
      * left.
        assert (Hin : In (GenerateSettled (DiscoveredConfig.id item) true)
                         (sched tr1)).
        { rewrite Hs. apply in_or_app. right. apply In_settledOk.
          split; [reflexivity|]. apply in_map.
          apply (Permutation_in _ (Permutation_sym Hperm)).
          unfold batchToGenerate. apply filter_In. auto. }
        unfold sched in Hin. now apply filter_In in Hin.
      * right. apply Hall.
        rewrite withoutBatch_not_ready by exact Hnd.
        apply filter_In. now rewrite Er.
Qed.

End NestedRunFacts.

Section NestedRunExtras.
Context {P : NodePath} {C : Collaborators}.
Variable pickItem : World -> list DiscoveredConfig.t -> nat.

Lemma bind_emit A (e : Event) (k : unit -> Async A) w :
  bind (emit e) k w = k tt (mkWorld (fs w) (trace w ++ [e])%list).
Proof. reflexivity. Qed.

(** X13. In nested mode an input file that cannot be read is not an
    error: discovery warns that it could not read the file and records
    nothing, and the run says that there is nothing to generate and
    returns, without a generation and without touching a file. *)
Theorem nested_generation_of_unreadable_input initialInputFile cliFlags w :
  let seed := resolve cwd initialInputFile in
  let rel := slash (relative cwd seed) in
  readable (fs w) seed = false ->
  (0 <= Flags.maxDepth cliFlags)%Z ->
  exists message,
    runNestedGeneration pickItem initialInputFile cliFlags w
    = (Returned (Some tt),
       mkWorld (fs w)
         (trace w
          ++ [Log "🚧 --generateNested is EXPERIMENTAL and may not work as expected. Use with caution!";
              Log ("Starting nested generation with input file: "
                   ++ initialInputFile);
              Log ("Discovering imports in: " ++ rel ++ " (depth: 0)");
              ReadFile seed;
              Warn ("Could not read file " ++ rel
                    ++ " during discovery. Skipping. Error: " ++ message);
              Log "No processable files found (including initial input). Nothing to generate."])
         %list).
Proof.
  intros seed rel Hread Hdepth.
  unfold runNestedGeneration. fold seed.
  rewrite bind_emit. cbv beta. rewrite bind_emit. cbv beta.
  unfold bind at 1.
  unfold performFileDiscovery, discoveryFuel.
  cbn [performFileDiscoveryFuel].
  replace (0 >? Flags.maxDepth cliFlags)%Z with false
    by (symmetry; rewrite Z.gtb_ltb; apply Z.ltb_ge; lia).
  cbn [StrMap.has StrMap.get StrMap.empty]. fold rel.
  change (Js.showZ 0) with "0".
  run_async. unfold readable in Hread.
  destruct (fs w seed) as [[text|message]|]; [discriminate|..];
    cbn [fs trace]; unfold StrMap.size, StrMap.empty;
    cbn [List.length Nat.eqb]; run_async;
    eexists; rewrite <- !app_assoc; reflexivity.
Qed.

(** X14. Nested generation has one config for every file that discovery
    recorded, in the order in which discovery read the files: the
    config built for the entry, whose id is the file's path.  So the
    list of configs is as long as the map of discovered files, and is
    not empty when the map is not. *)
Theorem nested_configs_follow_discovery seed maxDepth cliFlags w :
  exists infos' tr,
    performFileDiscovery seed StrMap.empty maxDepth 0 w
    = (Returned (Some infos'), mkWorld (fs w) (trace w ++ tr)%list)
    /\ allConfigsToGenerate cliFlags infos'
       = map (fun e => builtFor cliFlags infos' (fst e) (snd e)) infos'
    /\ map DiscoveredConfig.id (allConfigsToGenerate cliFlags infos')
       = successfulReads (fs w) tr
    /\ List.length (allConfigsToGenerate cliFlags infos')
       = StrMap.size infos'.
Proof.
  destruct (performFileDiscovery_spec seed StrMap.empty maxDepth 0 w)
    as (infos' & tr & Heq & _ & Hkeys & Hnd & _).
  exists infos', tr. split; [exact Heq|].
  assert (Hex := allConfigs_exact cliFlags infos' (Hnd (NoDup_nil _))).
  split; [exact Hex|]. rewrite Hex. split.
  - rewrite map_map. cbn [builtFor DiscoveredConfig.id].
    exact Hkeys.
  - now rewrite length_map.
Qed.


Lemma extends_same_fs w w' tr :
  fs w' = fs w -> trace w' = (trace w ++ tr)%list -> extends w w' tr.
Proof. intros Hfs Htr. split; [exact Htr|]. now rewrite Hfs. Qed.

(** X15. When nested generation returns, it has done everything: either
    discovery recorded no file, and the last message says that there is
    nothing to generate; or every file that discovery recorded has been
    generated with success, and the last message reports as many files
    as were discovered. *)
Theorem nested_generation_returns_when_all_generated
        initialInputFile cliFlags w r w' :
  runNestedGeneration pickItem initialInputFile cliFlags w
  = (Returned r, w') ->
  let seed := resolve cwd initialInputFile in
  let w0 :=
    mkWorld (fs w)
      (trace w
       ++ [Log "🚧 --generateNested is EXPERIMENTAL and may not work as expected. Use with caution!";
           Log ("Starting nested generation with input file: "
                ++ initialInputFile)])%list in
  r = Some tt
  /\ exists infos' w1 tr,
      performFileDiscovery seed StrMap.empty (Flags.maxDepth cliFlags) 0 w0
      = (Returned (Some infos'), w1)
      /\ extends w w' tr
      /\ (infos' = [] ->
          last tr (Log "")
          = Log "No processable files found (including initial input). Nothing to generate.")
      /\ (infos' <> [] ->
          (forall k, In k (StrMap.keys infos') ->
                     In (GenerateSettled k true) tr)
          /\ last tr (Log "")
             = Log (Js.nl ++ "Successfully generated schemas for "
                    ++ showNat (StrMap.size infos') ++ " files.")).
Proof.
  intros Hrun seed w0.
  unfold runNestedGeneration in Hrun. fold seed in Hrun.
  rewrite bind_emit in Hrun. cbv beta in Hrun.
  rewrite bind_emit in Hrun. cbv beta in Hrun.
  cbn [fs trace] in Hrun. rewrite <- app_assoc in Hrun.
  cbn [app] in Hrun. fold w0 in Hrun.
  assert (Hext0 : exists tr, extends w w0 tr)
    by (eexists; apply extends_same_fs; reflexivity).
  destruct Hext0 as (t0 & Hext0).
  unfold bind at 1 in Hrun.
  destruct (performFileDiscovery_spec seed StrMap.empty
              (Flags.maxDepth cliFlags) 0 w0)
    as (infos' & tr0 & Heq & _ & Hkeys & Hnd & _).
  rewrite Heq in Hrun. cbv beta iota in Hrun.
  set (w1 := mkWorld (fs w0) (trace w0 ++ tr0)%list) in *.
  assert (Hext1 : extends w0 w1 tr0)
    by (apply extends_same_fs; reflexivity).
  specialize (Hnd (NoDup_nil _)).
  destruct infos' as [|entry rest] eqn:Einfos.
  - unfold StrMap.size in Hrun. cbn [List.length Nat.eqb] in Hrun.
    rewrite bind_emit in Hrun. unfold ret in Hrun.
    injection Hrun as <- <-. split; [reflexivity|].
    eexists [], w1, _. split; [exact Heq|].
    split; [eapply extends_trans; [exact Hext0|];
            eapply extends_trans;
            [exact Hext1|apply extends_same_fs; reflexivity]|].
    split; [|now intros H].
    intros _. rewrite !app_assoc. apply last_last.
  - rewrite <- Einfos in *.
    assert (Hsize : StrMap.size infos' <> 0%nat)
      by (rewrite Einfos; discriminate).
    set (queue := allConfigsToGenerate cliFlags infos') in *.
    assert (Hlen : List.length queue = StrMap.size infos').
    { unfold queue. rewrite (allConfigs_exact cliFlags infos' Hnd).
      now rewrite length_map. }
    apply Nat.eqb_neq in Hsize. rewrite Hsize in Hrun.
    assert (Hlen0 : (List.length queue =? 0)%nat = false)
      by (rewrite Hlen; exact Hsize).
    rewrite Hlen0 in Hrun.
    rewrite bind_emit in Hrun. cbv beta in Hrun.
    set (w2 := mkWorld (fs w1) _) in Hrun.
    assert (Hext2 : exists e, extends w1 w2 [e])
      by (eexists; apply extends_emit).
    destruct Hext2 as (e2 & Hext2).
    destruct (allConfigs_ids cliFlags infos') as [Hids Hsame].
    fold queue in Hids, Hsame.
    set (ios := buildGlobalIoMappings _) in Hrun.
    unfold bind at 1 in Hrun.
    destruct (@generationLoop_spec _ _ pickItem cliFlags ios queue Hids
                (S (List.length queue)) (initialLoopState queue) w2 [])
      as (out & w3 & tr3 & Hloop & _ & Hsome & _).
    { cbn [initialLoopState LoopState.generationQueue]. lia. }
    { apply LoopInv_initial. }
    rewrite Hloop in Hrun.
    destruct out as [[total|]|e]; [|now destruct Hsome|discriminate].
    destruct (generationLoop_total pickItem cliFlags ios
                (S (List.length queue)) (initialLoopState queue) w2 Hids
                Hloop)
      as (Htotal & tr3' & Hext3 & Hall).
    cbn [initialLoopState LoopState.totalGeneratedCount
         LoopState.generationQueue] in Htotal, Hall.
    rewrite bind_emit in Hrun. unfold ret in Hrun.
    injection Hrun as <- <-. split; [reflexivity|].
    eexists infos', w1, _. split; [exact Heq|].
    split; [eapply extends_trans; [exact Hext0|];
            eapply extends_trans; [exact Hext1|];
            eapply extends_trans; [exact Hext2|];
            eapply extends_trans;
            [exact Hext3|apply extends_same_fs; reflexivity]|].
    split; [intros H; rewrite H in Einfos; discriminate|].
    intros _. split.
    + intros k Hk. apply Hsame in Hk. apply in_map_iff in Hk.
      destruct Hk as (item & <- & Hitem).
      apply in_or_app. right. apply in_or_app. right.
      apply in_or_app. right. apply in_or_app. left. now apply Hall.
    + rewrite !app_assoc, last_last. subst total. cbn [Nat.add].
      now rewrite Hlen.
Qed.




End NestedRunExtras.

(** ** The choice of the file config *)

Section LoadFileConfigExtras.
Context {K : ConfigSchemas}.

Lemma find_first A (f : A -> bool) (l : list A) :
  match find f l with
  | Some x =>
      exists pre post,
        l = (pre ++ x :: post)%list /\ f x = true
        /\ forall y, In y pre -> f y = false
  | None => forall y, In y l -> f y = false
  end.
Proof.
  induction l as [|a l IH]; cbn [find]; [intros y []|].
  destruct (f a) eqn:Ea.
  - exists [], l. repeat split; auto. intros y [].
  - destruct (find f l) as [x|].
    + destruct IH as (pre & post & -> & Hx & Hpre).
      exists (a :: pre), post. repeat split; auto.
      intros y [<-|Hy]; auto.
    + intros y [<-|Hy]; auto.
Qed.

Lemma nameIs_Some name c :
  nameIs (Some name) c = true <-> Config.name c = Some name.
Proof.
  unfold nameIs. destruct (Config.name c) as [n|]; [|easy].
  rewrite String.eqb_eq. split; congruence.
Qed.

Lemma nameIs_false name c :
  nameIs (Some name) c = false <-> Config.name c <> Some name.
Proof.
  rewrite <- nameIs_Some. now destruct (nameIs (Some name) c).
Qed.

(** X17. With [--config name] and without [--all], [loadFileConfig]
    looks the name up in the array of configs, whatever the prompt would
    answer: it returns the first config that has the name, and leaves
    the flags as they are; when no config has the name, it prints the fatal error
    [<name> configuration not found!] and throws it. *)
Theorem load_config_selects_by_name mode configs flags name w :
  Flags.all flags = false ->
  Flags.config flags = Some name ->
  name <> "" ->
  (exists selected pre post,
      configs = (pre ++ selected :: post)%list
      /\ Config.name selected = Some name
      /\ (forall c, In c pre -> Config.name c <> Some name)
      /\ loadFileConfig mode (Some (MultiConfig configs)) flags w
         = (Returned (Some (SingleConfig selected), flags), w))
  \/ ((forall c, In c configs -> Config.name c <> Some name)
      /\ loadFileConfig mode (Some (MultiConfig configs)) flags w
         = (Threw (name ++ " configuration not found!"),
            mkWorld (fs w)
                    (trace w
                     ++ [FatalError (name ++ " configuration not found!")])
                    %list)).
Proof.
  intros Hall Hconfig Hname. unfold loadFileConfig.
  assert (Htruthy : Js.truthy (Flags.config flags) = true).
  { rewrite Hconfig. cbn. now destruct (String.eqb_spec name ""). }
  rewrite Hall, Htruthy. cbn [negb andb]. rewrite Hall, Htruthy, Hconfig.
  pose proof (find_first (nameIs (Some name)) configs) as Hfind.
  destruct (find (nameIs (Some name)) configs) as [selected|].
  - left. destruct Hfind as (pre & post & -> & Hx & Hpre).
    exists selected, pre, post. split; [reflexivity|].
    split; [now apply nameIs_Some|]. split; [|reflexivity].
    intros c Hc. now apply nameIs_false, Hpre.
  - right. split; [|reflexivity].
    intros c Hc. now apply nameIs_false, Hfind.
Qed.


Lemma sliceFrom_single key : sliceFrom 7 ("single-" ++ key) = key.
Proof.
  unfold sliceFrom. cbn. rewrite Nat.sub_0_r.
  apply JsMoreFacts.substring_all.
Qed.

Lemma startsWith_single key : Js.startsWith ("single-" ++ key) "single-" = true.
Proof.
  unfold Js.startsWith. cbn. now destruct key.
Qed.

(** X18. When the config is an array and neither [--all] nor [--config]
    is given, the answer to the prompt acts as the flag would: [multi]
    sets [flags.all] and returns the array; [single-<key>], for a key
    that is not empty, sets [flags.config] to the key, and the result is
    that of a call with [--config <key>]; any other answer returns no
    config and leaves the flags as they are.  For the empty key,
    [flags.config] becomes the empty string, which counts as not given:
    no config is returned. *)
Theorem prompt_answer_acts_as_flag configs flags w :
  Flags.all flags = false ->
  Js.truthy (Flags.config flags) = false ->
  loadFileConfig "multi" (Some (MultiConfig configs)) flags w
  = (Returned (Some (MultiConfig configs), FlagsUpdate.setAll flags), w)
  /\ (forall key mode,
        key <> "" ->
        loadFileConfig ("single-" ++ key) (Some (MultiConfig configs)) flags w
        = loadFileConfig mode (Some (MultiConfig configs))
                         (FlagsUpdate.setConfig flags key) w)
  /\ (forall mode,
        Js.startsWith mode "single-" = false -> mode <> "multi" ->
        loadFileConfig mode (Some (MultiConfig configs)) flags w
        = (Returned (None, flags), w))
  /\ loadFileConfig "single-" (Some (MultiConfig configs)) flags w
     = (Returned (None, FlagsUpdate.setConfig flags ""), w).
Proof.
  intros Hall Hconfig. unfold loadFileConfig.
  rewrite Hall, Hconfig. cbn [negb andb].
  split; [reflexivity|]. split; [|split].
  - intros key mode Hkey. unfold answered.
    rewrite startsWith_single. cbn [String.length].
    rewrite sliceFrom_single. cbv zeta.
    cbn [FlagsUpdate.setConfig Flags.all Flags.config]. rewrite Hall.
    assert (Hk : Js.truthy (Some key) = true)
      by (cbn; now destruct (String.eqb_spec key "")).
    rewrite Hk. cbn [negb andb].
    cbn [FlagsUpdate.setConfig Flags.all Flags.config].
    rewrite ?Hk, ?Hall. reflexivity.
  - intros mode Hsingle Hmulti. unfold answered. rewrite Hsingle.
    destruct (String.eqb_spec mode "multi"); [contradiction|].
    now rewrite Hall, Hconfig.
  - unfold answered. cbn. now rewrite Hall.
Qed.

(** X19. What [loadFileConfig] gives back.  Without a config it returns
    none.  A single config comes back with its schema-name function and
    its name filter wrapped by the function schemas, and its other
    fields as they are; the flags are not looked at.  For an array, the
    result is the array exactly when [flags.all] is set after the call,
    and otherwise a config of the array whose name is [flags.config],
    or none when [flags.config] is not given; it throws only for a name
    that no config of the array has, after printing that as a fatal
    error.  No file is touched. *)
Theorem load_config_result mode config flags w :
  exists out w',
    loadFileConfig mode config flags w = (out, w')
    /\ fs w' = fs w
    /\ match out with
       | Threw e =>
           exists configs name,
             config = Some (MultiConfig configs)
             /\ e = name ++ " configuration not found!"
             /\ (forall c, In c configs -> Config.name c <> Some name)
             /\ trace w' = (trace w ++ [FatalError e])%list
       | Returned (fileConfig, flags') =>
           w' = w
           /\ match config with
              | None => fileConfig = None /\ flags' = flags
              | Some (SingleConfig c) =>
                  flags' = flags
                  /\ exists c',
                      fileConfig = Some (SingleConfig c')
                      /\ Config.getSchemaName c'
                         = option_map implementGetSchemaName
                                      (Config.getSchemaName c)
                      /\ Config.nameFilter c'
                         = option_map implementNameFilter
                                      (Config.nameFilter c)
                      /\ Config.name c' = Config.name c
                      /\ Config.input c' = Config.input c
                      /\ Config.output c' = Config.output c
                      /\ Config.jsDocTagFilter c' = Config.jsDocTagFilter c
                      /\ Config.keepComments c' = Config.keepComments c
                      /\ Config.skipParseJSDoc c' = Config.skipParseJSDoc c
                      /\ Config.inferredTypes c' = Config.inferredTypes c
                      /\ Config.customJSDocFormatTypes c'
                         = Config.customJSDocFormatTypes c
              | Some (MultiConfig configs) =>
                  (Flags.all flags' = true
                   /\ fileConfig = Some (MultiConfig configs))
                  \/ (Flags.all flags' = false
                      /\ exists c,
                          In c configs
                          /\ fileConfig = Some (SingleConfig c)
                          /\ Config.name c = Flags.config flags')
                  \/ (Flags.all flags' = false
                      /\ Js.truthy (Flags.config flags') = false
                      /\ fileConfig = None)
              end
       end.
Proof.
  unfold loadFileConfig.
  destruct config as [[c|configs]|].
  - eexists _, _. split; [reflexivity|]. split; [reflexivity|].
    split; [reflexivity|]. split; [reflexivity|].
    exists (implemented c). repeat split.
  - cbv zeta.
    match goal with
    | |- context [if ?c then answered mode flags else flags] =>
        set (flags1 := if c then answered mode flags else flags)
    end.
    destruct (Flags.all flags1) eqn:Eall.
    { eexists _, _. split; [reflexivity|]. split; [reflexivity|].
      split; [reflexivity|]. now left. }
    destruct (Js.truthy (Flags.config flags1)) eqn:Econfig.
    2:{ eexists _, _. split; [reflexivity|]. split; [reflexivity|].
        split; [reflexivity|]. right. right. auto. }
    destruct (Flags.config flags1) as [name|] eqn:Ename; [|discriminate].
    pose proof (find_first (nameIs (Some name)) configs) as Hfind.
    destruct (find (nameIs (Some name)) configs) as [selected|].
    + destruct Hfind as (pre & post & -> & Hx & _).
      eexists _, _. split; [reflexivity|]. split; [reflexivity|].
      split; [reflexivity|]. right. left. split; [exact Eall|].
      exists selected. split; [apply in_elt|]. split; [reflexivity|].
      rewrite Ename. now apply nameIs_Some.
    + eexists _, _. split; [reflexivity|]. split; [reflexivity|].
      exists configs, name. split; [reflexivity|]. split; [reflexivity|].
      split; [|reflexivity]. intros c Hc. now apply nameIs_false, Hfind.
  - eexists _, _. split; [reflexivity|]. split; [reflexivity|].
    split; [reflexivity|]. split; reflexivity.
Qed.

End LoadFileConfigExtras.

(** ** The further properties on the example project *)

Section FurtherExamples.
#[local] Existing Instance Demo.path.
#[local] Existing Instance Demo.collaborators.

(** Generating over [a.ts] without an output path succeeds and replaces
    the source text of [a.ts] by its schema file. *)
Lemma output_defaults_to_input_witness :
  exists w',
    generate Demo.inputOnly None Demo.flags [] Demo.plainWorld
    = (Returned (Success tt), w')
    /\ fs Demo.plainWorld "/proj/a.ts" = Some (File "type A")
    /\ fs w' "/proj/a.ts" = Some (File "// schemas for /").
Proof.
  destruct (proj1 (@output_defaults_to_input
                     Demo.path Demo.collaborators
                     Demo.inputOnly None Demo.flags [] Demo.plainWorld
                     eq_refl)
                  Demo.plainData
                  (mkWorld (fs Demo.plainWorld) [ReadFile "/proj/a.ts"])
                  eq_refl)
    as (_ & Hsrc & Hgen).
  destruct (Hgen (Demo.core (PrepareData.generateOptions Demo.plainData))
                 eq_refl (or_intror eq_refl))
    as (w' & before & Heq & _ & _ & Hfs).
  exists w'. split; [exact Heq|]. split; [exact Hsrc|exact Hfs].
Defined.


Lemma prepare_success_checks_extensions_witness :
  exists i,
    Js.nonEmpty (Js.or (Args.input Demo.inputOnly) None) = Some i
    /\ hasExtensions i TYPESCRIPT_EXTENSIONS = true.
Proof.
  destruct (@prepare_success_checks_extensions
              Demo.path Demo.collaborators
              Demo.inputOnly None Demo.flags [] Demo.plainWorld
              Demo.plainData
              (mkWorld (fs Demo.plainWorld) [ReadFile "/proj/a.ts"])
              eq_refl)
    as (i & Hi & Hext & _).
  exists i. split; [exact Hi|exact Hext].
Defined.

(** Writing the schemas of [a.ts] to [a.zod.ts] with the inferred types
    in [a.types.ts]: both files are there, and [a.ts] is as it was. *)
Lemma write_output_files_frame_witness :
  let options :=
    applyFlags (Flags.mk None false (Some false) false
                         (Some "/proj/a.types.ts") false None false false 5)
               (spreadConfig "type A" [] None) in
  let w' := snd (writeOutputFiles "/proj/a.zod.ts" "/proj/a.ts"
                                  (Demo.core options) options
                                  Demo.plainWorld) in
  fs w' "/proj/a.zod.ts" = Some (File "// schemas for ./a")
  /\ fs w' "/proj/a.types.ts" = Some (File "// inferred from ./a.zod")
  /\ fs w' "/proj/a.ts" = Some (File "type A").
Proof.
  cbv zeta.
  destruct (@write_output_files_frame
              Demo.path Demo.collaborators
              "/proj/a.zod.ts" "/proj/a.ts"
              (Demo.core
                 (applyFlags (Flags.mk None false (Some false) false
                                       (Some "/proj/a.types.ts") false None
                                       false false 5)
                             (spreadConfig "type A" [] None)))
              (applyFlags (Flags.mk None false (Some false) false
                                    (Some "/proj/a.types.ts") false None
                                    false false 5)
                          (spreadConfig "type A" [] None))
              Demo.plainWorld _ eq_refl)
    as (_ & Hout & Hinf & Hframe).
  split; [exact Hout|]. split.
  - apply (Hinf "/proj/a.types.ts" eq_refl). vm_compute. discriminate.
  - refine (eq_trans (Hframe "/proj/a.ts" _ _ _) eq_refl).
    + vm_compute. discriminate.
    + vm_compute. discriminate.
    + intros t [= <-]. vm_compute. discriminate.
Defined.

(** The flag [skipParseJSDoc], which is [false] here, is what the
    options get. *)
Lemma prepare_options_precedence_witness :
  GenerateProps.skipParseJSDoc (PrepareData.generateOptions Demo.plainData)
  = Some false.
Proof.
  exact (proj1 (proj2 (@prepare_options_precedence
                         Demo.path Demo.collaborators
                         Demo.inputOnly None Demo.flags [] Demo.plainWorld
                         Demo.plainData
                         (mkWorld (fs Demo.plainWorld)
                                  [ReadFile "/proj/a.ts"])
                         eq_refl))
               false eq_refl).
Defined.

Lemma skip_validation_never_validates_witness :
  exists out w' tr,
    generate Demo.inputOnly None
             (Flags.mk None false (Some false) true None false None false
                       false 5)
             [] Demo.plainWorld = (out, w')
    /\ trace w' = (trace Demo.plainWorld ++ tr)%list
    /\ Forall (fun e => ~ isValidationEvent e) tr.
Proof.
  destruct (@skip_validation_never_validates
              Demo.path Demo.collaborators
              Demo.inputOnly None
              (Flags.mk None false (Some false) true None false None false
                        false 5)
              [] Demo.plainWorld eq_refl)
    as (out & w' & tr & Hg & Htr & Hquiet & _).
  exists out, w', tr. split; [exact Hg|]. split; [exact Htr|exact Hquiet].
Defined.

Lemma validation_decides_generation_witness :
  exists w' loaded,
    generate Demo.inputOnly None Demo.flags [] Demo.plainWorld
    = (Returned (Success tt), w')
    /\ Forall isLoadEvent loaded.
Proof.
  destruct (@validation_decides_generation
              Demo.path Demo.collaborators
              Demo.inputOnly None Demo.flags [] Demo.plainWorld
              Demo.plainData
              (mkWorld (fs Demo.plainWorld) [ReadFile "/proj/a.ts"])
              (Demo.core (PrepareData.generateOptions Demo.plainData))
              eq_refl eq_refl eq_refl)
    as (w' & loaded & Hg & Hloaded & _).
  exists w', loaded. split; [exact Hg|exact Hloaded].
Defined.

(** The second of the two files that import each other can be reached
    from the first. *)
Lemma discovery_without_warning_is_complete_witness :
  exists n, within Demo.cycleWorld n "/proj/a.ts" "/proj/b.ts".
Proof.
  destruct (@discovery_without_warning_is_complete
              Demo.path Demo.collaborators "/proj/a.ts" 5 Demo.cycleWorld)
    as (infos' & tr & Heq & Hquiet).
  vm_compute in Heq.
  injection Heq as Hinfos Htr. subst infos' tr.
  apply Hquiet.
  - repeat (constructor; [exact (fun H => H)|]). constructor.
  - right. left. reflexivity.
Defined.

Lemma nested_generation_of_unreadable_input_witness :
  fst (runNestedGeneration Demo.inOrder "missing.ts" (Demo.nestedFlags 5)
                           Demo.plainWorld)
  = Returned (Some tt).
Proof.
  destruct (@nested_generation_of_unreadable_input
              Demo.path Demo.collaborators Demo.inOrder
              "missing.ts" (Demo.nestedFlags 5) Demo.plainWorld eq_refl)
    as (message & Heq).
  - cbn. lia.
  - now rewrite Heq.
Defined.

Lemma nested_generation_returns_when_all_generated_witness :
  exists infos' w1 tr,
    performFileDiscovery
      "/proj/seed.ts" StrMap.empty 5 0
      (mkWorld (fs Demo.diamondWorld)
         [Log "🚧 --generateNested is EXPERIMENTAL and may not work as expected. Use with caution!";
          Log "Starting nested generation with input file: seed.ts"])
    = (Returned (Some infos'), w1)
    /\ extends Demo.diamondWorld
               (snd (runNestedGeneration Demo.lastFirst "seed.ts"
                                         (Demo.nestedFlags 5)
                                         Demo.diamondWorld))
               tr.
Proof.
  pose proof (surjective_pairing
                (runNestedGeneration Demo.lastFirst "seed.ts"
                                     (Demo.nestedFlags 5)
                                     Demo.diamondWorld)) as Hrun.
  assert (Hfst : fst (runNestedGeneration Demo.lastFirst "seed.ts"
                                          (Demo.nestedFlags 5)
                                          Demo.diamondWorld)
                 = Returned (Some tt)) by (vm_compute; reflexivity).
  rewrite Hfst in Hrun.
  destruct (proj2 (@nested_generation_returns_when_all_generated
                     Demo.path Demo.collaborators Demo.lastFirst
                     "seed.ts" (Demo.nestedFlags 5) Demo.diamondWorld
                     (Some tt) _ Hrun))
    as (infos' & w1 & tr & Heq & Hext & _).
  exists infos', w1, tr. split; [exact Heq|exact Hext].
Defined.


Lemma load_config_selects_by_name_witness :
  exists selected,
    Config.name selected = Some "good"
    /\ loadFileConfig
         (K := Build_ConfigSchemas (fun f => f) (fun f => f))
         "none" (Some (MultiConfig [Demo.badConfig; Demo.goodConfig]))
         (Flags.mk None false (Some false) false None false (Some "good")
                   false false 5)
         Demo.plainWorld
       = (Returned (Some (SingleConfig selected),
                    Flags.mk None false (Some false) false None false
                             (Some "good") false false 5),
          Demo.plainWorld).
Proof.
  destruct (@load_config_selects_by_name
              (Build_ConfigSchemas (fun f => f) (fun f => f))
              "none" [Demo.badConfig; Demo.goodConfig]
              (Flags.mk None false (Some false) false None false
                        (Some "good") false false 5)
              "good" Demo.plainWorld eq_refl eq_refl)
    as [(selected & pre & post & _ & Hname & _ & Heq)|[Hno _]].
  - discriminate.
  - exists selected. split; [exact Hname|exact Heq].
  - exfalso. apply (Hno Demo.goodConfig); [right; left|]; reflexivity.
Defined.

Lemma prompt_answer_acts_as_flag_witness :
  loadFileConfig (K := Build_ConfigSchemas (fun f => f) (fun f => f))
                 "multi"
                 (Some (MultiConfig [Demo.badConfig; Demo.goodConfig]))
                 Demo.flags Demo.plainWorld
  = (Returned (Some (MultiConfig [Demo.badConfig; Demo.goodConfig]),
               FlagsUpdate.setAll Demo.flags),
     Demo.plainWorld).
Proof.
  exact (proj1 (@prompt_answer_acts_as_flag
                  (Build_ConfigSchemas (fun f => f) (fun f => f))
                  [Demo.badConfig; Demo.goodConfig] Demo.flags
                  Demo.plainWorld eq_refl eq_refl)).
Defined.

End FurtherExamples.
